(** * Triangular peg solitaire: a shallow embedding of [triangles]

    The development follows the Python package [triangles]:
    - [models.py]: the [Board] class (pins, moves, transformations, encoding);
    - [commands.py]: the breadth-first search of [solve] and the
      canonicalisation of [findtransformations], with the primary key of the
      table [transformations] from [persistance.py];
    - [core.py]: the older search [find_solutions] and [consolidate_solutions].

    Python integers are [Z]; the dictionary [_pins], whose keys are always
    [0 .. 14] in insertion order, is a [list bool] indexed by position;
    exceptions are values of [exn] carried by [result]; a method that mutates
    [self] is a function from the board before the call to the outcome and the
    board after it. *)

From Stdlib Require Import ZArith List Bool Ascii String DecimalString Lia.
From stdpp Require Import base list.
Import ListNotations.

Set Warnings "-register-all".
Local Open Scope Z_scope.
Local Open Scope list_scope.

(** ** Exceptions and the two monads *)

Inductive exn : Type :=
| ValueError (msg : string)
| KeyError (key : Z)
| IndexError
| IntegrityError.

Inductive result (A : Type) : Type :=
| Ok (a : A)
| Raise (e : exn).
Arguments Ok {A} a.
Arguments Raise {A} e.

#[global] Instance result_ret : MRet result := fun A a => Ok a.
#[global] Instance result_bind : MBind result := fun A B k m =>
  match m with
  | Ok a => k a
  | Raise e => Raise e
  end.

(** Loops over a Python sequence whose body may raise. *)
Fixpoint for_each {A S : Type} (body : S -> A -> result S) (l : list A) (s : S)
  : result S :=
  match l with
  | [] => Ok s
  | a :: l' => s' ← body s a; for_each body l' s'
  end.

(** ** The board *)

Inductive Board : Type :=
  mkBoard (_pins : list bool) (previous_board : option Board) (empty_position : Z).

Definition pins (self : Board) : list bool :=
  match self with mkBoard p _ _ => p end.
Definition previous_board (self : Board) : option Board :=
  match self with mkBoard _ pb _ => pb end.
Definition empty_position (self : Board) : Z :=
  match self with mkBoard _ _ ep => ep end.

Definition with_pins (self : Board) (p : list bool) : Board :=
  mkBoard p (previous_board self) (empty_position self).

(** A method that may assign to [self._pins]: outcome and board afterwards.
    When the outcome is [Raise], the board is the one left behind by the
    statements executed before the exception. *)
Definition meth (A : Type) : Type := Board -> result A * Board.

Definition mret_meth {A} (a : A) : meth A := fun self => (Ok a, self).
Definition mbind_meth {A B} (m : meth A) (k : A -> meth B) : meth B :=
  fun self =>
    match m self with
    | (Ok a, self') => k a self'
    | (Raise e, self') => (Raise e, self')
    end.
(** A method that only reads [self]. *)
Definition reading {A} (f : Board -> result A) : meth A :=
  fun self => (f self, self).
Definition raise_meth {A} (e : exn) : meth A := fun self => (Raise e, self).

#[global] Instance meth_ret : MRet meth := @mret_meth.
#[global] Instance meth_bind : MBind meth := fun A B k m => mbind_meth m k.

(** [Board._validate_position] *)
Definition _validate_position (position : Z) (name : option string) : result unit :=
  if negb ((0 <=? position) && (position <=? 14)) then
    Raise (ValueError
             match name with
             | Some (String c n) =>
                 String.append (String c n) " out of range (must be 0 through 14)"
             | _ => "position out of range (must be 0 through 14)"%string
             end)
  else Ok tt.

(** [self._pins[position]]: a missing key is a [KeyError]. *)
Definition pins_getitem (p : list bool) (position : Z) : result bool :=
  match p !! Z.to_nat position with
  | Some s => Ok s
  | None => Raise (KeyError position)
  end.

(** Running a method on a local object and keeping the object. *)
Definition run_on {A} (m : meth A) (obj : Board) : result Board :=
  match m obj with
  | (Ok _, obj') => Ok obj'
  | (Raise e, _) => Raise e
  end.

(** [Board.pin_status] *)
Definition pin_status (position : Z) (self : Board) : result bool :=
  _ ← _validate_position position None;
  pins_getitem (pins self) position.

(** [self._pins[position] = status], for a key the dictionary has. *)
Definition pins_setitem (position : Z) (status : bool) : meth unit :=
  fun self => (Ok tt, with_pins self (<[Z.to_nat position := status]> (pins self))).

(** [Board.set_pin_status].  The key is validated first, so it is one of the
    fifteen keys the constructor created and the assignment replaces a value. *)
Definition set_pin_status (position : Z) (status : bool) : meth unit :=
  reading (fun _ => _validate_position position None);;
  pins_setitem position status.

(** [self._pins.items()] *)
Definition items (p : list bool) : list (Z * bool) :=
  imap (fun i s => (Z.of_nat i, s)) p.

(** [Board.__init__] *)
Definition Board_init (empty_position : Z) (previous_board : option Board)
  : result Board :=
  _ ← _validate_position empty_position (Some "empty_position"%string);
  Ok (mkBoard
        (map (fun position => negb (position =? empty_position))
             (map Z.of_nat (seq 0 15)))
        previous_board empty_position).

(** [Board.__eq__] *)
Definition Board_eq (self board : Board) : result bool :=
  comparisons ← for_each
    (fun acc '(pos, status) =>
       s ← pin_status pos self; Ok (acc ++ [Bool.eqb s status]))
    (items (pins board)) [];
  Ok (negb (existsb negb comparisons)).

(** [Board.__str__] *)
Definition Board_str (self : Board) : string :=
  fold_right (fun '(p, s) acc => String (if s : bool then "1" else "0")%char acc)
             EmptyString (items (pins self)).

(** [Board.copy] *)
Definition copy (self : Board) : result Board :=
  board ← Board_init (empty_position self) (Some self);
  for_each (fun board '(position, status) =>
              run_on (set_pin_status position status) board)
           (items (pins self)) board.

(** [Board.is_won]: [sum(v == True for v in self._pins.values()) == 1] *)
Definition sum (l : list Z) : Z := fold_left Z.add l 0.

Definition is_won (self : Board) : bool :=
  sum (map (fun v => if Bool.eqb v true then 1 else 0) (pins self)) =? 1.

(** [Board.move] *)
Definition move (start end_ jump : Z) : meth unit :=
  reading (fun _ => _validate_position start (Some "start"%string));;
  reading (fun _ => _validate_position end_ (Some "end"%string));;
  reading (fun _ => _validate_position jump (Some "jump"%string));;
  s ← reading (pin_status start);
  if negb s then raise_meth (ValueError "start is empty") else
  e ← reading (pin_status end_);
  if e : bool then raise_meth (ValueError "end is occupied") else
  j ← reading (pin_status jump);
  if negb j then raise_meth (ValueError "jump is empty") else
  set_pin_status start false;;
  set_pin_status jump false;;
  set_pin_status end_ true.

(** [Board.valid_moves_for_position]: the rule table, as the [if]/[elif] chain
    of the source. *)
Definition valid_moves_for_position (position : Z) : result (list (Z * Z * Z)) :=
  _ ← _validate_position position None;
  Ok (if position =? 0 then [(0, 2, 1); (0, 9, 5)]
      else if position =? 1 then [(1, 3, 2); (1, 10, 6)]
      else if position =? 2 then [(2, 0, 1); (2, 9, 6); (2, 11, 7); (2, 4, 3)]
      else if position =? 3 then [(3, 1, 2); (3, 10, 7)]
      else if position =? 4 then [(4, 2, 3); (4, 11, 8)]
      else if position =? 5 then [(5, 7, 6); (5, 12, 9)]
      else if position =? 6 then [(6, 8, 7); (6, 13, 10)]
      else if position =? 7 then [(7, 5, 6); (7, 12, 10)]
      else if position =? 8 then [(8, 6, 7); (8, 13, 11)]
      else if position =? 9 then [(9, 0, 5); (9, 2, 6); (9, 11, 10); (9, 14, 12)]
      else if position =? 10 then [(10, 1, 6); (10, 3, 7)]
      else if position =? 11 then [(11, 4, 8); (11, 2, 7); (11, 9, 10); (11, 14, 13)]
      else if position =? 12 then [(12, 5, 9); (12, 7, 10)]
      else if position =? 13 then [(13, 6, 10); (13, 8, 11)]
      else [(14, 9, 12); (14, 11, 13)]).

(** [Board.occupied_positions] *)
Definition occupied_positions (self : Board) : list Z :=
  map fst (List.filter (fun '(position, status) => Bool.eqb status true)
                       (items (pins self))).

(** [Board.moves_for_position] *)
Definition moves_for_position (position : Z) (self : Board)
  : result (list (Z * Z * Z)) :=
  _ ← _validate_position position None;
  here ← pins_getitem (pins self) position;
  if negb here then Ok [] else
  rules ← valid_moves_for_position position;
  for_each (fun moves '(start, end_, jump) =>
              e ← pin_status end_ self;
              if e : bool then Ok moves else
              j ← pin_status jump self;
              if negb j then Ok moves else
              Ok (moves ++ [(start, end_, jump)]))
           rules [].

(** [Board.moves] *)
Definition moves (self : Board) : result (list (Z * Z * Z)) :=
  for_each (fun moves position =>
              ms ← moves_for_position position self;
              Ok (moves ++ ms))
           (occupied_positions self) [].

(** The same loop for a body that is a method of the board being changed. *)
Fixpoint for_each_meth {A : Type} (body : A -> meth unit) (l : list A) : meth unit :=
  match l with
  | [] => mret tt
  | a :: l' => body a;; for_each_meth body l'
  end.

(** [Board.transform]: the body of its loop, then the method. *)
Definition transform_body (prev_pins : list bool) (pair : Z * Z) : meth unit :=
  let '(prev_pos, new_pos) := pair in
  reading (fun _ => _validate_position prev_pos (Some "prev_pos"%string));;
  reading (fun _ => _validate_position new_pos (Some "new_pos"%string));;
  status ← reading (fun _ => pins_getitem prev_pins prev_pos);
  set_pin_status new_pos status.

Definition transform (position_substitutions : list (Z * Z)) : meth unit :=
  fun self =>
    let prev_pins := pins self in
    for_each_meth (transform_body prev_pins) position_substitutions self.

(** [Board.valid_transformations] *)
Definition Reflection : list (Z * Z) :=
  [(0,4); (1,3); (2,2); (3,1); (4,0);
   (5,8); (6,7); (7,6); (8,5);
   (9,11); (10,10); (11,9);
   (12,13); (13,12);
   (14,14)].

Definition Clockwise_rotation : list (Z * Z) :=
  [(0,14); (1,12); (2,9); (3,5); (4,0);
   (5,13); (6,10); (7,6); (8,1);
   (9,11); (10,7); (11,2);
   (12,8); (13,3);
   (14,4)].

Definition Counter_clockwise_rotation : list (Z * Z) :=
  [(0,4); (1,8); (2,11); (3,13); (4,14);
   (5,3); (6,7); (7,10); (8,12);
   (9,2); (10,6); (11,9);
   (12,1); (13,5);
   (14,0)].

Definition Clockwise_rotation_and_reflection : list (Z * Z) :=
  [(0,0); (1,5); (2,9); (3,12); (4,14);
   (5,1); (6,6); (7,10); (8,13);
   (9,2); (10,7); (11,11);
   (12,3); (13,8);
   (14,4)].

Definition Counter_clockwise_rotation_and_reflection : list (Z * Z) :=
  [(0,14); (1,13); (2,11); (3,8); (4,4);
   (5,12); (6,10); (7,7); (8,3);
   (9,9); (10,6); (11,2);
   (12,5); (13,1);
   (14,0)].

Definition valid_transformations : list (string * list (Z * Z)) :=
  [("Reflection"%string, Reflection);
   ("Clockwise rotation"%string, Clockwise_rotation);
   ("Counter-clockwise rotation"%string, Counter_clockwise_rotation);
   ("Clockwise rotation and reflection"%string, Clockwise_rotation_and_reflection);
   ("Counter-clockwise rotation and reflection"%string,
    Counter_clockwise_rotation_and_reflection)].

(** ** Encoding *)

(** ['{:015b}'.format(conf_id)]: binary digits, zero-padded to width 15 after
    the sign. *)
Fixpoint bin_of_pos (p : positive) (acc : string) : string :=
  match p with
  | xH => String "1" acc
  | xO q => bin_of_pos q (String "0" acc)
  | xI q => bin_of_pos q (String "1" acc)
  end.

Definition bin_digits (n : Z) : string :=
  match n with
  | Z0 => "0"%string
  | Zpos p | Zneg p => bin_of_pos p EmptyString
  end.

Fixpoint zeros (n : nat) (acc : string) : string :=
  match n with
  | O => acc
  | S n' => String "0" (zeros n' acc)
  end.

Definition zfill (width : nat) (digits : string) : string :=
  zeros (width - String.length digits)%nat digits.

Definition format_015b (conf_id : Z) : string :=
  if conf_id <? 0 then String "-" (zfill 14 (bin_digits conf_id))
  else zfill 15 (bin_digits conf_id).

(** [enumerate(key)] *)
Definition enumerate (key : string) : list (Z * ascii) :=
  imap (fun i c => (Z.of_nat i, c)) (list_ascii_of_string key).

(** [Board.from_configuration_id] *)
Definition from_configuration_id (conf_id : Z) : result Board :=
  let key := format_015b conf_id in
  board ← Board_init 14 None;
  for_each (fun board '(pos, char) =>
              if Ascii.eqb char "1" then run_on (set_pin_status pos true) board
              else if Ascii.eqb char "0" then run_on (set_pin_status pos false) board
              else Raise (ValueError
                            (String.append "Invalid character in key: "
                                           (String char EmptyString))))
           (enumerate key) board.

(** [int(s, 2)] on the strings [Board.__str__] produces: a non-empty run of
    the digits 0 and 1.  [None] stands for any other string, which is outside
    the modelled fragment of the built-in. *)
Fixpoint int_base2_from (acc : Z) (s : string) : option Z :=
  match s with
  | EmptyString => Some acc
  | String c s' =>
      if Ascii.eqb c "1" then int_base2_from (2 * acc + 1) s'
      else if Ascii.eqb c "0" then int_base2_from (2 * acc) s'
      else None
  end.

Definition int_base2 (s : string) : option Z :=
  match s with
  | EmptyString => None
  | _ => int_base2_from 0 s
  end.

(** [int(str(board), 2)], the configuration id of a board ([save_boards]). *)
Definition configuration_id (board : Board) : option Z :=
  int_base2 (Board_str board).

(** ** The search *)

(** The body of the loop [for start, end, jump in moves:], which reads the
    same in [increment_boards] of [commands.py] and of [core.py]: clone the
    board, make the move on the clone, and file the clone under the won boards
    or under the new boards. *)
Definition make_move (board : Board) (acc : list Board * list Board)
           (m : Z * Z * Z) : result (list Board * list Board) :=
  let '(new_boards, won_boards) := acc in
  let '(start, end_, jump) := m in
  new_board ← copy board;
  new_board ← run_on (move start end_ jump) new_board;
  if is_won new_board
  then Ok (new_boards, won_boards ++ [new_board])
  else Ok (new_boards ++ [new_board], won_boards).

(** ** The search of [commands.py] *)

Module commands.

(** [increment_boards] *)
Definition increment_boards (boards : list Board)
  : result (list Board * list Board * list Board) :=
  for_each
    (fun '(new_boards, won_boards, lost_boards) board =>
       ms ← moves board;
       if Z.of_nat (length ms) <? 1 then
         Ok (new_boards, won_boards, lost_boards ++ [board])
       else
         '(new_boards, won_boards) ←
           for_each (make_move board) ms (new_boards, won_boards);
         Ok (new_boards, won_boards, lost_boards))
    boards ([], [], []).

(** The [while boards:] loop of [solve].  [fuel] bounds the number of
    iterations; [None] means the bound was reached with [boards] non-empty. *)
Fixpoint solve_loop (fuel : nat) (boards won_boards lost_boards : list Board)
  : option (result (list Board * list Board)) :=
  match boards with
  | [] => Some (Ok (won_boards, lost_boards))
  | _ :: _ =>
      match fuel with
      | O => None
      | S fuel' =>
          match increment_boards boards with
          | Raise e => Some (Raise e)
          | Ok (boards', new_won_boards, new_lost_boards) =>
              let won_boards :=
                match new_won_boards with
                | [] => won_boards
                | _ :: _ => won_boards ++ new_won_boards
                end in
              let lost_boards :=
                match new_lost_boards with
                | [] => lost_boards
                | _ :: _ => lost_boards ++ new_lost_boards
                end in
              solve_loop fuel' boards' won_boards lost_boards
          end
      end
  end.

(** [solve], up to the two lists handed to [save_boards]. *)
Definition solve (fuel : nat) (empty_position : Z)
  : option (result (list Board * list Board)) :=
  match Board_init empty_position None with
  | Raise e => Some (Raise e)
  | Ok root => solve_loop fuel [root] [] []
  end.

(** A row of the table [configurations]. *)
Record Configuration : Type := mkConfiguration { id : Z; won : bool }.

(** The loop [for unique_conf, unique_board in unique_configurations:] of
    [check_transformation], with its [return] on the first equal board, and
    [None] after the loop. *)
Fixpoint first_equal (t_board : Board)
         (unique_configurations : list (Configuration * Board))
  : result (option Configuration) :=
  match unique_configurations with
  | [] => Ok None
  | (unique_conf, unique_board) :: rest =>
      same ← Board_eq t_board unique_board;
      if same : bool then Ok (Some unique_conf) else first_equal t_board rest
  end.

(** [check_transformation] *)
Definition check_transformation (board : Board) (tx : list (Z * Z))
           (unique_configurations : list (Configuration * Board))
  : result (option Configuration) :=
  t_board ← copy board;
  t_board ← run_on (transform tx) t_board;
  first_equal t_board unique_configurations.

(** A row of the table [transformations]. *)
Record Transformation : Type := mkTransformation {
  to_configuration : Configuration;
  from_configuration : Configuration;
  desc : string
}.

(** The loop [for working_conf in bar:] of [findtransformations], over the
    rows of [session.query(Configuration).all()]: the rows added to the session
    with [session.add], in the order they are added, and the final list of
    unique configurations. *)
Definition findtransformations_loop (configurations : list Configuration)
  : result (list Transformation * list (Configuration * Board)) :=
  for_each
    (fun '(session, unique_configurations) working_conf =>
       board ← from_configuration_id (id working_conf);
       '(unique, session) ←
         match unique_configurations with
         | [] => Ok (true, session)
         | _ :: _ =>
             for_each
               (fun '(unique, session) '(desc, tx) =>
                  matched_conf ← check_transformation board tx unique_configurations;
                  match matched_conf with
                  | Some matched_conf =>
                      Ok (false,
                          session ++ [mkTransformation matched_conf working_conf desc])
                  | None => Ok (unique, session)
                  end)
               valid_transformations (true, session)
         end;
       if unique : bool
       then Ok (session, unique_configurations ++ [(working_conf, board)])
       else Ok (session, unique_configurations))
    configurations ([], []).

(** The primary key of a row of [transformations], as [persistance.py]
    declares it: the ids of the two configurations. *)
Definition primary_key (row : Transformation) : Z * Z :=
  (id (from_configuration row), id (to_configuration row)).

(** [session.commit()] on a session that holds the added rows [session]:
    the rows are inserted into the stored rows [table] of [transformations],
    and the database refuses a row whose primary key the table holds already,
    be it a row stored earlier or one inserted just before; SQLAlchemy passes
    that on as [IntegrityError], and nothing is stored. *)
Fixpoint commit (table session : list Transformation)
  : result (list Transformation) :=
  match session with
  | [] => Ok table
  | row :: session =>
      if bool_decide (primary_key row ∈ map primary_key table)
      then Raise IntegrityError
      else commit (table ++ [row]) session
  end.

(** [findtransformations], on a database whose table [transformations]
    holds the rows [table] and whose table [configurations] holds the rows
    [configurations]: the loop, then the commit.  The result is the table
    after the commit and the list of unique configurations, whose length the
    last message of the command gives. *)
Definition findtransformations (table : list Transformation)
           (configurations : list Configuration)
  : result (list Transformation * list (Configuration * Board)) :=
  '(session, unique_configurations) ← findtransformations_loop configurations;
  table ← commit table session;
  Ok (table, unique_configurations).

(** [save_boards], for one board: the list [sequenced_boards] its [while]
    loop collects by following [previous_board], and the pairs
    [(order, int(str(board), 2))] its second loop goes through, root first.
    What is done with them on the session is storage and is not modelled. *)
Fixpoint sequenced_boards (board : Board) : list Board :=
  match board with
  | mkBoard _ previous _ =>
      board :: match previous with
               | Some previous => sequenced_boards previous
               | None => []
               end
  end.

Definition ordered_configuration_ids (board : Board) : list (Z * option Z) :=
  imap (fun order board => (Z.of_nat order, configuration_id board))
       (rev (sequenced_boards board)).

End commands.

(** ** The search of [core.py] *)

Module core.

(** [increment_boards] *)
Definition increment_boards (boards : list Board)
  : result (list Board * list Board) :=
  for_each
    (fun '(new_boards, won_boards) board =>
       ms ← moves board;
       if Z.of_nat (length ms) <? 1 then Ok (new_boards, won_boards)
       else
         for_each (make_move board) ms (new_boards, won_boards))
    boards ([], []).

(** The [while len(boards) > 0:] loop of [find_solutions]; the progress line
    it prints is not modelled. *)
Fixpoint find_solutions_loop (fuel : nat) (boards won_boards : list Board)
  : option (result (list Board)) :=
  if Z.of_nat (length boards) >? 0 then
    match fuel with
    | O => None
    | S fuel' =>
        match increment_boards boards with
        | Raise e => Some (Raise e)
        | Ok (boards', won_boards') => find_solutions_loop fuel' boards' won_boards'
        end
    end
  else Some (Ok won_boards).

(** [find_solutions] *)
Definition find_solutions (fuel : nat) (board : Board)
  : option (result (list Board)) :=
  find_solutions_loop fuel [board] [].

(** [consolidate_solutions].  The function hands back either the list of
    solution sets or, from its first loop, an exception object as an ordinary
    return value; [object_id] stands for the built-in [id] used by
    [Board.__repr__]. *)
Inductive returned : Type :=
| ErrorObject (e : exn)
| SolutionSets (solution_sets : list (list Board)).

Section consolidate.

Variable object_id : Board -> Z.

Definition Board_repr (self : Board) : string :=
  String.append "<Board at "
    (String.append (NilZero.string_of_int (Z.to_int (object_id self)))
       (String.append ", won="
          (String.append (if is_won self then "True" else "False") ">"))).

(** The [for solution_set in solution_sets: ... else: ...] statement. *)
Fixpoint place (board : Board) (solution_sets : list (list Board))
  : result (option (list (list Board))) :=
  match solution_sets with
  | [] => Ok None
  | solution_set :: rest =>
      match solution_set with
      | [] => Raise IndexError
      | first :: _ =>
          same ← Board_eq board first;
          if same : bool then Ok (Some ((solution_set ++ [board]) :: rest))
          else
            placed ← place board rest;
            Ok (option_map (cons solution_set) placed)
      end
  end.

Definition consolidate_solutions (boards : list Board) : result returned :=
  match List.find (fun board => negb (is_won board)) boards with
  | Some board =>
      Ok (ErrorObject
            (ValueError
               (String.append "Board "
                  (String.append (Board_repr board) " has not been won"))))
  | None =>
      solution_sets ← for_each
        (fun solution_sets board =>
           match solution_sets with
           | [] => Ok [[board]]
           | _ :: _ =>
               placed ← place board solution_sets;
               match placed with
               | Some solution_sets' => Ok solution_sets'
               | None => Ok (solution_sets ++ [[board]])
               end
           end)
        boards [];
      Ok (SolutionSets solution_sets)
  end.

End consolidate.

End core.


(** ** Well-formed boards *)

Definition in_range (position : Z) : Prop := 0 <= position <= 14.

(** The class invariant of [Board]: fifteen pins, and the [empty_position]
    the constructor accepted. *)
Definition wf (self : Board) : Prop :=
  length (pins self) = 15%nat /\ in_range (empty_position self).

(** The value stored at a position, for stating results. *)
Definition occupied (position : Z) (self : Board) : bool :=
  nth (Z.to_nat position) (pins self) false.

(** The board [Board()] of the default start, position 14 empty. *)
Definition board14 : Board :=
  mkBoard [true; true; true; true; true; true; true; true; true; true; true;
           true; true; true; false] None 14.

(** ** The generation step in closed form

    The loops above thread accumulators through [for_each].  The definitions
    below say what one generation computes, board by board, in the words of
    the search: the moves available on a board, the child a move leads to, and
    the three classes a generation sorts boards into. *)

Definition rule_table (position : Z) : list (Z * Z * Z) :=
  match valid_moves_for_position position with
  | Ok rules => rules
  | Raise _ => []
  end.

Definition available (self : Board) (m : Z * Z * Z) : bool :=
  let '(_, end_, jump) := m in
  negb (occupied end_ self) && occupied jump self.

Definition moves_from (position : Z) (self : Board) : list (Z * Z * Z) :=
  if negb (occupied position self) then []
  else List.filter (available self) (rule_table position).

Definition all_moves (self : Board) : list (Z * Z * Z) :=
  flat_map (fun position => moves_from position self) (occupied_positions self).

(** The clone of [self] after one move. *)
Definition child (self : Board) (m : Z * Z * Z) : Board :=
  let '(start, end_, jump) := m in
  mkBoard (<[Z.to_nat end_ := true]>
             (<[Z.to_nat jump := false]>
                (<[Z.to_nat start := false]> (pins self))))
          (Some self) (empty_position self).

Definition children (self : Board) : list Board :=
  map (child self) (all_moves self).

Definition is_dead_end (self : Board) : bool :=
  match all_moves self with [] => true | _ :: _ => false end.

Definition next_frontier (boards : list Board) : list Board :=
  flat_map (fun b => List.filter (fun c => negb (is_won c)) (children b)) boards.

Definition newly_won (boards : list Board) : list Board :=
  flat_map (fun b => List.filter is_won (children b)) boards.

Definition dead_ends (boards : list Board) : list Board :=
  List.filter is_dead_end boards.

(** The frontier after [n] generation steps. *)
Fixpoint frontier (n : nat) (boards : list Board) : list Board :=
  match n with
  | O => boards
  | S n' => frontier n' (next_frontier boards)
  end.

(** Everything classified as won, and as a dead end, in the first [n]
    generation steps. *)
Fixpoint all_won (n : nat) (boards : list Board) : list Board :=
  match n with
  | O => []
  | S n' => newly_won boards ++ all_won n' (next_frontier boards)
  end.

Fixpoint all_dead_ends (n : nat) (boards : list Board) : list Board :=
  match n with
  | O => []
  | S n' => dead_ends boards ++ all_dead_ends n' (next_frontier boards)
  end.

(** Number of pins on the board. *)
Definition occupied_count (self : Board) : nat :=
  length (occupied_positions self).

(** ** Transformations as permutations *)

Definition all_positions : list Z := map Z.of_nat (seq 0 15).

(** A pair list in which every position occurs exactly once as a source and
    exactly once as a target. *)
Definition valid_permutation (pairs : list (Z * Z)) : Prop :=
  map fst pairs ≡ₚ all_positions /\ map snd pairs ≡ₚ all_positions.

Definition pair_in_range (pair : Z * Z) : Prop :=
  in_range (fst pair) /\ in_range (snd pair).

(** The transformation with the pairs swapped. *)
Definition inverse (pairs : list (Z * Z)) : list (Z * Z) :=
  map (fun '(prev_pos, new_pos) => (new_pos, prev_pos)) pairs.

(** The assignments of [transform], all reading the snapshot [prev_pins]. *)
Definition substitute (prev_pins : list bool) (pairs : list (Z * Z))
           (p : list bool) : list bool :=
  fold_left (fun p '(prev_pos, new_pos) =>
               <[Z.to_nat new_pos := nth (Z.to_nat prev_pos) prev_pins false]> p)
            pairs p.

(** ** Checking the encoding on every 15-bit value *)

(** [start, start + 1, ..., start + n - 1] *)
Fixpoint range_from (start : Z) (n : nat) : list Z :=
  match n with
  | O => []
  | S n' => start :: range_from (start + 1) n'
  end.

(** Decoding [x] gives a board of fifteen pins whose pin at position [i] is
    bit [14 - i] of [x], whose string has fifteen characters, and whose
    configuration id is [x] again. *)
Definition round_trips (x : Z) : bool :=
  match from_configuration_id x with
  | Ok board =>
      Nat.eqb (length (pins board)) 15 && (empty_position board =? 14) &&
      forallb (fun position =>
                 Bool.eqb (occupied position board) (Z.testbit x (14 - position)))
              all_positions &&
      Nat.eqb (String.length (Board_str board)) 15 &&
      match configuration_id board with
      | Some y => y =? x
      | None => false
      end
  | Raise _ => false
  end.

(** The board reached from [self] by a sequence of moves, each made on a
    clone of the board before it. *)
Definition play (self : Board) (ms : list (Z * Z * Z)) : Board :=
  fold_left child ms self.

(** Six moves from [board14] after which eight pins are left and none can
    jump. *)
Definition stuck_board : Board :=
  play board14 [(9, 14, 12); (2, 9, 6); (8, 6, 7); (5, 7, 6); (11, 2, 7); (14, 11, 13)].

Definition move_eqb (m m' : Z * Z * Z) : bool :=
  let '(s, e, j) := m in
  let '(s', e', j') := m' in
  (s =? s') && (e =? e') && (j =? j').

(** Every move of the sequence is available when it is made and none of the
    boards on the way is won. *)
Fixpoint playable (self : Board) (ms : list (Z * Z * Z)) : bool :=
  match ms with
  | [] => true
  | m :: ms' =>
      existsb (move_eqb m) (all_moves self) &&
      negb (is_won (child self m)) &&
      playable (child self m) ms'
  end.

(** ** Checking the encoding on every board *)

(** All lists of [n] pins. *)
Fixpoint all_pins (n : nat) : list (list bool) :=
  match n with
  | O => [[]]
  | S n' => flat_map (fun l => [true :: l; false :: l]) (all_pins n')
  end.

(** The configuration id of a board with pins [l] is a 15-bit value, and
    decoding it gives the pins [l] back on a board with no history. *)
Definition decodes_back (l : list bool) : bool :=
  match configuration_id (mkBoard l None 14) with
  | Some x =>
      (0 <=? x) && (x <? 2 ^ 15) &&
      match from_configuration_id x with
      | Ok board =>
          bool_decide (pins board = l) && (empty_position board =? 14) &&
          match previous_board board with None => true | Some _ => false end
      | Raise _ => false
      end
  | None => false
  end.

(** ** Transformations acting on positions and on moves *)

(** Where a table of pairs sends a position. *)
Definition image (tx : list (Z * Z)) (position : Z) : Z :=
  match List.find (fun '(prev_pos, _) => prev_pos =? position) tx with
  | Some (_, new_pos) => new_pos
  | None => position
  end.

Definition image_move (tx : list (Z * Z)) (m : Z * Z * Z) : Z * Z * Z :=
  let '(start, end_, jump) := m in (image tx start, image tx end_, image tx jump).

(** All triples of the rule table. *)
Definition all_rules : list (Z * Z * Z) := flat_map rule_table all_positions.

(** ** The boards behind a board *)

(** The boards met when the moves [ms] are made one after the other from
    [self], [self] first. *)
Fixpoint trail (self : Board) (ms : list (Z * Z * Z)) : list Board :=
  self :: match ms with
          | [] => []
          | m :: ms' => trail (child self m) ms'
          end.

(** Each move of [ms] is available on the board it is made on. *)
Fixpoint legal_path (self : Board) (ms : list (Z * Z * Z)) : Prop :=
  match ms with
  | [] => True
  | m :: ms' => In m (all_moves self) /\ legal_path (child self m) ms'
  end.

(** ** Canonicalisation in closed form *)

(** The test [check_transformation] makes between a working board and a unique
    board: is the transformed copy equal to it? *)
Definition carries (tx : list (Z * Z)) (board target : Board) : Prop :=
  exists t_board,
    (t_board ← copy board; run_on (transform tx) t_board) = Ok t_board /\
    Board_eq t_board target = Ok true.

(** The rows of a session can be committed when their primary keys are all
    different and none is the key of a stored row. *)
Definition new_keys (table session : list commands.Transformation) : Prop :=
  NoDup (map commands.primary_key session) /\
  forall row, In row session ->
              ~ In (commands.primary_key row) (map commands.primary_key table).

(** For each transformation, in order, the first unique configuration whose
    board is the transformed working board, when there is one. *)
Definition matches (board : Board)
           (unique_configurations : list (commands.Configuration * Board))
  : list (string * commands.Configuration) :=
  flat_map
    (fun '(desc, tx) =>
       match List.find
               (fun entry =>
                  bool_decide (substitute (pins board) tx (pins board) = pins (snd entry)))
               unique_configurations with
       | Some entry => [(desc, fst entry)]
       | None => []
       end)
    valid_transformations.

(** What one round of the loop of [findtransformations] does to the rows of
    the session and to the unique configurations. *)
Definition canonical_step
           (acc : list commands.Transformation * list (commands.Configuration * Board))
           (working_conf : commands.Configuration) (board : Board)
  : list commands.Transformation * list (commands.Configuration * Board) :=
  let '(session, unique_configurations) := acc in
  match matches board unique_configurations with
  | [] => (session, unique_configurations ++ [(working_conf, board)])
  | found =>
      (session ++
         map (fun '(desc, matched_conf) =>
                commands.mkTransformation matched_conf working_conf desc) found,
       unique_configurations)
  end.

(** * Properties *)

(** ** Basic facts about the accessors *)

Lemma validate_ok position name :
  in_range position -> _validate_position position name = Ok tt.
Proof.
  intros [H0 H14]. unfold _validate_position.
  destruct (Z.leb_spec 0 position), (Z.leb_spec position 14); try lia.
  reflexivity.
Qed.

Lemma validate_raises position name :
  ~ in_range position ->
  exists msg, _validate_position position name = Raise (ValueError msg).
Proof.
  intros H. unfold _validate_position, in_range in *.
  destruct (Z.leb_spec 0 position), (Z.leb_spec position 14); try lia;
    cbn [andb negb]; eauto.
Qed.

Lemma in_range_dec position : {in_range position} + {~ in_range position}.
Proof.
  unfold in_range.
  destruct (Z_le_dec 0 position), (Z_le_dec position 14); (left; lia) || (right; lia).
Qed.

Lemma pins_getitem_ok (p : list bool) position :
  in_range position -> length p = 15%nat ->
  pins_getitem p position = Ok (nth (Z.to_nat position) p false).
Proof.
  intros Hr Hl. unfold pins_getitem.
  destruct (p !! Z.to_nat position) as [s|] eqn:E.
  - f_equal. symmetry. apply nth_lookup_Some with (d := false) in E. exact E.
  - apply lookup_ge_None in E. unfold in_range in Hr. lia.
Qed.

Lemma pin_status_ok position self :
  wf self -> in_range position ->
  pin_status position self = Ok (occupied position self).
Proof.
  intros [Hl _] Hr. unfold pin_status.
  rewrite validate_ok by assumption. cbn.
  apply pins_getitem_ok; assumption.
Qed.

Lemma pin_status_raises position self :
  ~ in_range position ->
  exists msg, pin_status position self = Raise (ValueError msg).
Proof.
  intros Hr. unfold pin_status.
  destruct (validate_raises position None Hr) as [msg ->]. cbn. eauto.
Qed.

Lemma set_pin_status_ok position status self :
  in_range position ->
  set_pin_status position status self =
  (Ok tt, with_pins self (<[Z.to_nat position := status]> (pins self))).
Proof.
  intros Hr. unfold set_pin_status, mbind, meth_bind, mbind_meth, reading.
  rewrite validate_ok by assumption. reflexivity.
Qed.

Lemma set_pin_status_raises position status self :
  ~ in_range position ->
  exists msg, set_pin_status position status self = (Raise (ValueError msg), self).
Proof.
  intros Hr. unfold set_pin_status, mbind, meth_bind, mbind_meth, reading.
  destruct (validate_raises position None Hr) as [msg ->]. eauto.
Qed.

Lemma wf_with_pins self p :
  wf self -> length p = 15%nat -> wf (with_pins self p).
Proof. intros [_ He] Hl. split; [exact Hl | exact He]. Qed.

Lemma occupied_with_pins_insert self position q status :
  wf self -> in_range position -> in_range q ->
  occupied q (with_pins self (<[Z.to_nat position := status]> (pins self))) =
  if Z.eq_dec q position then status else occupied q self.
Proof.
  intros [Hl _] Hp Hq. unfold occupied, with_pins, in_range in *. cbn [pins].
  destruct (Z.eq_dec q position) as [->|Hne].
  - apply nth_lookup_Some with (d := false).
    apply list_lookup_insert_eq. lia.
  - destruct (pins self !! Z.to_nat q) as [v|] eqn:E.
    + rewrite (nth_lookup_Some _ _ false _ E).
      apply nth_lookup_Some.
      rewrite list_lookup_insert_ne by lia. exact E.
    + apply lookup_ge_None in E. lia.
Qed.

(** ** [Board.move] *)

Lemma move_unfold self start end_ jump :
  wf self -> in_range start -> in_range end_ -> in_range jump ->
  move start end_ jump self =
  if negb (occupied start self) then (Raise (ValueError "start is empty"), self)
  else if occupied end_ self then (Raise (ValueError "end is occupied"), self)
  else if negb (occupied jump self) then (Raise (ValueError "jump is empty"), self)
  else (Ok tt,
        with_pins self
          (<[Z.to_nat end_ := true]>
             (<[Z.to_nat jump := false]>
                (<[Z.to_nat start := false]> (pins self))))).
Proof.
  intros Hwf Hs He Hj.
  unfold move, mbind, meth_bind, mbind_meth, reading, raise_meth.
  rewrite !validate_ok by assumption.
  rewrite (pin_status_ok start) by assumption.
  destruct (occupied start self); cbn [negb]; [|reflexivity].
  rewrite (pin_status_ok end_) by assumption.
  destruct (occupied end_ self); [reflexivity|].
  rewrite (pin_status_ok jump) by assumption.
  destruct (occupied jump self); cbn [negb]; [|reflexivity].
  rewrite !set_pin_status_ok by assumption.
  reflexivity.
Qed.

(** C4.  On a well-formed board and in-range positions, [move] raises
    [ValueError] and leaves the board as it was when [start] is empty, [end] is
    occupied or [jump] is empty; otherwise it returns normally with [start] and
    [jump] empty, [end] occupied and every other position unchanged. *)
Theorem move_raises_or_jumps (self : Board) (start end_ jump : Z) :
  wf self -> in_range start -> in_range end_ -> in_range jump ->
  exists s e j,
    pin_status start self = Ok s /\
    pin_status end_ self = Ok e /\
    pin_status jump self = Ok j /\
    if negb s || e || negb j
    then exists msg, move start end_ jump self = (Raise (ValueError msg), self)
    else exists self',
        move start end_ jump self = (Ok tt, self') /\
        wf self' /\
        pin_status start self' = Ok false /\
        pin_status jump self' = Ok false /\
        pin_status end_ self' = Ok true /\
        (forall q, in_range q -> q <> start -> q <> jump -> q <> end_ ->
                   pin_status q self' = pin_status q self) /\
        previous_board self' = previous_board self /\
        empty_position self' = empty_position self.
Proof.
  intros Hwf Hs He Hj.
  exists (occupied start self), (occupied end_ self), (occupied jump self).
  rewrite !pin_status_ok by assumption.
  repeat split.
  rewrite move_unfold by assumption.
  destruct (occupied start self) eqn:Es; cbn [negb orb]; [|eauto].
  destruct (occupied end_ self) eqn:Ee; cbn [orb]; [eauto|].
  destruct (occupied jump self) eqn:Ej; cbn [negb]; [|eauto].
  assert (Hse : start <> end_) by (intros ->; congruence).
  assert (Hje : jump <> end_) by (intros ->; congruence).
  set (b1 := with_pins self (<[Z.to_nat start := false]> (pins self))).
  set (b2 := with_pins b1 (<[Z.to_nat jump := false]> (pins b1))).
  set (b3 := with_pins b2 (<[Z.to_nat end_ := true]> (pins b2))).
  assert (W1 : wf b1).
  { apply wf_with_pins; [assumption|]. rewrite length_insert. apply Hwf. }
  assert (W2 : wf b2).
  { apply wf_with_pins; [assumption|]. rewrite length_insert. apply W1. }
  assert (W3 : wf b3).
  { apply wf_with_pins; [assumption|]. rewrite length_insert. apply W2. }
  assert (Hocc : forall q, in_range q ->
             occupied q b3 =
             if Z.eq_dec q end_ then true
             else if Z.eq_dec q jump then false
             else if Z.eq_dec q start then false
             else occupied q self).
  { intros q Hq. unfold b3, b2, b1.
    rewrite !occupied_with_pins_insert by assumption. reflexivity. }
  exists b3. split; [reflexivity|].
  split; [exact W3|].
  rewrite !pin_status_ok by assumption.
  rewrite !Hocc by assumption.
  repeat split.
  - destruct (Z.eq_dec start end_); [contradiction|].
    destruct (Z.eq_dec start jump); [reflexivity|].
    destruct (Z.eq_dec start start); [reflexivity|contradiction].
  - destruct (Z.eq_dec jump end_); [contradiction|].
    destruct (Z.eq_dec jump jump); [reflexivity|contradiction].
  - destruct (Z.eq_dec end_ end_); [reflexivity|contradiction].
  - intros q Hq Hqs Hqj Hqe.
    rewrite !pin_status_ok by assumption. rewrite Hocc by assumption.
    destruct (Z.eq_dec q end_); [contradiction|].
    destruct (Z.eq_dec q jump); [contradiction|].
    destruct (Z.eq_dec q start); [contradiction|reflexivity].
Qed.

Lemma bind_Ok {A B : Type} (a : A) (k : A -> result B) : (Ok a ≫= k) = k a.
Proof. reflexivity. Qed.

(** ** Loops that only append *)

Lemma for_each_append {A B : Type} (f : A -> result (list B)) (g : A -> list B)
      (l : list A) (acc : list B) :
  (forall a, In a l -> f a = Ok (g a)) ->
  for_each (fun acc a => ms ← f a; Ok (acc ++ ms)) l acc = Ok (acc ++ flat_map g l).
Proof.
  revert acc. induction l as [|a l IH]; intros acc H; cbn [for_each flat_map].
  - rewrite app_nil_r. reflexivity.
  - rewrite (H a) by (left; reflexivity). cbn.
    rewrite IH by (intros; apply H; right; assumption).
    rewrite app_assoc. reflexivity.
Qed.

(** ** The rule table *)

Lemma in_range_cases position :
  in_range position ->
  position = 0 \/ position = 1 \/ position = 2 \/ position = 3 \/ position = 4 \/
  position = 5 \/ position = 6 \/ position = 7 \/ position = 8 \/ position = 9 \/
  position = 10 \/ position = 11 \/ position = 12 \/ position = 13 \/ position = 14.
Proof. unfold in_range. lia. Qed.

Ltac each_position H :=
  apply in_range_cases in H;
  repeat (destruct H as [H|H]; [subst|]); [..|subst].

Lemma valid_moves_for_position_ok position :
  in_range position ->
  valid_moves_for_position position = Ok (rule_table position).
Proof.
  intros H. unfold rule_table, valid_moves_for_position.
  rewrite validate_ok by assumption. reflexivity.
Qed.

Lemma rule_table_shape position start end_ jump :
  in_range position -> In (start, end_, jump) (rule_table position) ->
  start = position /\ in_range end_ /\ in_range jump /\
  start <> end_ /\ start <> jump /\ end_ <> jump.
Proof.
  intros H Hin. unfold in_range.
  each_position H; vm_compute in Hin;
    repeat (destruct Hin as [Hin|Hin]; [inversion Hin; subst; lia|]);
    contradiction.
Qed.

(** C10.  For every position [p] of the board, each triple [(s, e, j)] of
    [valid_moves_for_position p] starts at [p], names three distinct positions
    of the board, and its reversal [(e, s, j)] is a triple of
    [valid_moves_for_position e]. *)
Theorem valid_moves_reversible (position : Z) :
  in_range position ->
  exists rules,
    valid_moves_for_position position = Ok rules /\
    forall start end_ jump,
      In (start, end_, jump) rules ->
      start = position /\
      start <> end_ /\ start <> jump /\ end_ <> jump /\
      in_range start /\ in_range end_ /\ in_range jump /\
      exists rules',
        valid_moves_for_position end_ = Ok rules' /\
        In (end_, start, jump) rules'.
Proof.
  intros H. exists (rule_table position).
  split; [apply valid_moves_for_position_ok; assumption|].
  intros start end_ jump Hin.
  destruct (rule_table_shape _ _ _ _ H Hin) as (Hs & He & Hj & D1 & D2 & D3).
  repeat (split; [assumption || (subst; assumption)|]).
  exists (rule_table end_).
  split; [apply valid_moves_for_position_ok; assumption|].
  clear He Hj D1 D2 D3 Hs.
  each_position H; vm_compute in Hin;
    repeat (destruct Hin as [Hin|Hin];
            [inversion Hin; subst; vm_compute; tauto|]);
    contradiction.
Qed.

(** ** Available moves *)

Lemma items_lookup (l : list bool) position status :
  In (position, status) (items l) <->
  exists i, position = Z.of_nat i /\ l !! i = Some status.
Proof.
  unfold items. rewrite <- list_elem_of_In, elem_of_lookup_imap.
  split.
  - intros (i & y & Heq & Hl). inversion Heq; subst. eauto.
  - intros (i & -> & Hl). eauto.
Qed.

Lemma occupied_positions_spec self position :
  wf self ->
  In position (occupied_positions self) <->
  in_range position /\ occupied position self = true.
Proof.
  intros [Hl _]. unfold occupied_positions, occupied, in_range.
  rewrite in_map_iff. split.
  - intros ([q st] & Hq & Hin). cbn in Hq. subst q.
    apply filter_In in Hin. destruct Hin as [Hin Hst].
    apply items_lookup in Hin. destruct Hin as (i & -> & Hi).
    pose proof (lookup_lt_Some _ _ _ Hi) as Hlt.
    rewrite Nat2Z.id. rewrite (nth_lookup_Some _ _ false _ Hi).
    destruct st; [|discriminate]. split; [lia|reflexivity].
  - intros [Hr Hocc]. exists (position, true). split; [reflexivity|].
    apply filter_In. split; [|reflexivity].
    apply items_lookup. exists (Z.to_nat position). split; [lia|].
    destruct (pins self !! Z.to_nat position) as [v|] eqn:E.
    + rewrite (nth_lookup_Some _ _ false _ E) in Hocc. congruence.
    + apply lookup_ge_None in E. lia.
Qed.

Lemma rules_loop self (rules : list (Z * Z * Z)) acc :
  wf self ->
  (forall s e j, In (s, e, j) rules -> in_range e /\ in_range j) ->
  for_each (fun moves '(start, end_, jump) =>
              e ← pin_status end_ self;
              if e : bool then Ok moves else
              j ← pin_status jump self;
              if negb j then Ok moves else
              Ok (moves ++ [(start, end_, jump)]))
           rules acc
  = Ok (acc ++ List.filter (available self) rules).
Proof.
  intros Hwf. revert acc.
  induction rules as [|[[s e] j] rules IH]; intros acc H; cbn [for_each List.filter].
  - rewrite app_nil_r. reflexivity.
  - destruct (H s e j (or_introl eq_refl)) as [He Hj].
    rewrite (pin_status_ok e) by assumption. rewrite !bind_Ok.
    assert (IH' := fun acc => IH acc (fun s e j Hin => H s e j (or_intror Hin))).
    change (available self (s, e, j))
      with (negb (occupied e self) && occupied j self).
    destruct (occupied e self); cbn [negb andb]; [rewrite bind_Ok; apply IH'|].
    rewrite (pin_status_ok j) by assumption. rewrite !bind_Ok.
    destruct (occupied j self); cbn [negb]; rewrite bind_Ok; [|apply IH'].
    rewrite IH'. rewrite <- app_assoc. reflexivity.
Qed.

Lemma moves_for_position_ok self position :
  wf self -> in_range position ->
  moves_for_position position self = Ok (moves_from position self).
Proof.
  intros Hwf Hr. unfold moves_for_position, moves_from.
  rewrite validate_ok by assumption. rewrite bind_Ok.
  rewrite pins_getitem_ok by (assumption || apply Hwf). rewrite bind_Ok.
  fold (occupied position self).
  destruct (occupied position self); cbn [negb]; [|reflexivity].
  rewrite valid_moves_for_position_ok by assumption. rewrite bind_Ok.
  rewrite rules_loop; [reflexivity|assumption|].
  intros s e j Hin.
  destruct (rule_table_shape _ _ _ _ Hr Hin) as (_ & He & Hj & _). auto.
Qed.

Lemma moves_ok self : wf self -> moves self = Ok (all_moves self).
Proof.
  intros Hwf. unfold moves, all_moves.
  rewrite (for_each_append (fun position => moves_for_position position self)
                           (fun position => moves_from position self)).
  - reflexivity.
  - intros p Hin. apply occupied_positions_spec in Hin; [|assumption].
    apply moves_for_position_ok; tauto.
Qed.

(** What it takes for a triple to be among the available moves. *)
Lemma all_moves_spec self start end_ jump :
  wf self ->
  In (start, end_, jump) (all_moves self) <->
  in_range start /\ In (start, end_, jump) (rule_table start) /\
  occupied start self = true /\ occupied end_ self = false /\
  occupied jump self = true.
Proof.
  intros Hwf. unfold all_moves. rewrite in_flat_map. split.
  - intros (p & Hp & Hin). apply occupied_positions_spec in Hp; [|assumption].
    destruct Hp as [Hr Hocc]. unfold moves_from in Hin. rewrite Hocc in Hin.
    cbn [negb] in Hin. apply filter_In in Hin. destruct Hin as [Hin Hav].
    destruct (rule_table_shape _ _ _ _ Hr Hin) as (-> & _).
    cbn in Hav. apply andb_prop in Hav. destruct Hav as [He Hj].
    apply negb_true_iff in He. tauto.
  - intros (Hr & Hin & Hs & He & Hj). exists start. split.
    + apply occupied_positions_spec; tauto.
    + unfold moves_from. rewrite Hs. cbn [negb]. apply filter_In.
      split; [assumption|]. cbn. rewrite He, Hj. reflexivity.
Qed.

(** ** Counting pins *)

Lemma filter_imap_length {A : Type} (f : nat -> bool -> A * bool) (l : list bool) :
  (forall i s, snd (f i s) = s) ->
  length (List.filter (fun '(_, status) => Bool.eqb status true) (imap f l)) =
  length (List.filter (fun s => s) l).
Proof.
  revert f. induction l as [|x l IH]; intros f Hf; [reflexivity|].
  cbn [imap List.filter].
  specialize (Hf 0%nat x) as Hx. destruct (f 0%nat x) as [p s]. cbn in Hx. subst s.
  specialize (IH (f ∘ S) (fun i s => Hf (S i) s)).
  destruct x; cbn [Bool.eqb length]; rewrite IH; reflexivity.
Qed.

Lemma occupied_count_pins self :
  occupied_count self = length (List.filter (fun s => s) (pins self)).
Proof.
  unfold occupied_count, occupied_positions, items.
  rewrite length_map. apply filter_imap_length. reflexivity.
Qed.

Lemma count_insert (l : list bool) (i : nat) (v : bool) :
  (i < length l)%nat ->
  (length (List.filter (fun s => s) (<[i := v]> l)) + (if nth i l false then 1 else 0) =
   length (List.filter (fun s => s) l) + (if v then 1 else 0))%nat.
Proof.
  revert i. induction l as [|x l IH]; intros i Hi; cbn [length] in Hi; [lia|].
  destruct i as [|i].
  - cbn. destruct x, v; cbn; lia.
  - cbn [nth]. change (<[S i := v]> (x :: l)) with (x :: <[i := v]> l).
    specialize (IH i ltac:(lia)). destruct x; cbn [List.filter length]; lia.
Qed.

Lemma sum_from (l : list Z) (acc : Z) : fold_left Z.add l acc = acc + sum l.
Proof.
  unfold sum. revert acc. induction l as [|x l IH]; intros acc; cbn [fold_left].
  - lia.
  - rewrite IH, (IH (0 + x)). lia.
Qed.

Lemma is_won_count self : is_won self = Nat.eqb (occupied_count self) 1.
Proof.
  unfold is_won. rewrite occupied_count_pins.
  assert (H : forall l : list bool,
             sum (map (fun v => if Bool.eqb v true then 1 else 0) l) =
             Z.of_nat (length (List.filter (fun s => s) l))).
  { induction l as [|x l IH]; [reflexivity|].
    unfold sum in *. cbn [map fold_left]. rewrite sum_from. unfold sum.
    rewrite IH. destruct x; cbn [Bool.eqb List.filter length]; lia. }
  rewrite H.
  destruct (Nat.eqb_spec (length (List.filter (fun s => s) (pins self))) 1) as [->|Hne].
  - reflexivity.
  - apply Z.eqb_neq. lia.
Qed.

(** ** [Board.copy] and the child of a move *)

Lemma fifteen_pins (l : list bool) :
  length l = 15%nat ->
  exists a0 a1 a2 a3 a4 a5 a6 a7 a8 a9 a10 a11 a12 a13 a14,
    l = [a0; a1; a2; a3; a4; a5; a6; a7; a8; a9; a10; a11; a12; a13; a14].
Proof.
  intros H.
  do 15 (destruct l as [|? l]; [discriminate H|]).
  destruct l; [|discriminate H].
  repeat eexists.
Qed.

Lemma Board_init_ok position previous :
  in_range position ->
  exists board,
    Board_init position previous = Ok board /\ wf board /\
    previous_board board = previous /\ empty_position board = position /\
    (forall q, in_range q -> occupied q board = negb (q =? position)) /\
    occupied_count board = 14%nat.
Proof.
  intros H. unfold Board_init. rewrite validate_ok by assumption.
  eexists. split; [reflexivity|].
  split; [split; [reflexivity|exact H]|].
  split; [reflexivity|]. split; [reflexivity|].
  split.
  - intros q Hq. unfold occupied. cbn [pins].
    each_position Hq; reflexivity.
  - each_position H; reflexivity.
Qed.

Lemma copy_ok self :
  wf self ->
  copy self = Ok (mkBoard (pins self) (Some self) (empty_position self)).
Proof.
  intros [Hl He]. unfold copy, Board_init.
  rewrite validate_ok by assumption. rewrite bind_Ok.
  destruct (fifteen_pins _ Hl) as
    (a0 & a1 & a2 & a3 & a4 & a5 & a6 & a7 & a8 & a9 & a10 & a11 & a12 & a13 & a14 & ->).
  reflexivity.
Qed.

Lemma wf_copy self :
  wf self -> wf (mkBoard (pins self) (Some self) (empty_position self)).
Proof. intros [Hl He]. split; assumption. Qed.

Lemma child_ok self start end_ jump :
  wf self -> In (start, end_, jump) (all_moves self) ->
  (new_board ← copy self; run_on (move start end_ jump) new_board)
  = Ok (child self (start, end_, jump)).
Proof.
  intros Hwf Hin. apply all_moves_spec in Hin; [|assumption].
  destruct Hin as (Hr & Ht & Hs & He & Hj).
  destruct (rule_table_shape _ _ _ _ Hr Ht) as (_ & Hre & Hrj & _).
  rewrite copy_ok by assumption. rewrite bind_Ok.
  unfold run_on. rewrite move_unfold by (try apply wf_copy; assumption).
  unfold occupied in *. cbn [pins]. rewrite Hs, He, Hj. reflexivity.
Qed.

Lemma child_count self start end_ jump :
  wf self -> In (start, end_, jump) (all_moves self) ->
  wf (child self (start, end_, jump)) /\
  (occupied_count (child self (start, end_, jump)) + 1 = occupied_count self)%nat.
Proof.
  intros Hwf Hin. apply all_moves_spec in Hin; [|assumption].
  destruct Hin as (Hr & Ht & Hs & He & Hj).
  destruct (rule_table_shape _ _ _ _ Hr Ht) as (_ & Hre & Hrj & D1 & D2 & D3).
  destruct Hwf as [Hl Hep]. unfold in_range in *.
  split.
  - split; [|exact Hep]. cbn [child pins]. rewrite !length_insert. exact Hl.
  - rewrite !occupied_count_pins. cbn [child pins]. unfold occupied in *.
    set (p0 := pins self) in *.
    set (p1 := <[Z.to_nat start := false]> p0).
    set (p2 := <[Z.to_nat jump := false]> p1).
    pose proof (count_insert p0 (Z.to_nat start) false ltac:(lia)) as C1.
    pose proof (count_insert p1 (Z.to_nat jump) false
                  ltac:(unfold p1; rewrite length_insert; lia)) as C2.
    pose proof (count_insert p2 (Z.to_nat end_) true
                  ltac:(unfold p2, p1; rewrite !length_insert; lia)) as C3.
    fold p1 p2 in C1, C2, C3 |- *.
    rewrite Hs in C1.
    assert (E2 : nth (Z.to_nat jump) p1 false = true).
    { transitivity (nth (Z.to_nat jump) p0 false); [|exact Hj]. unfold p1.
      rewrite !nth_lookup. rewrite list_lookup_insert_ne by lia. reflexivity. }
    assert (E3 : nth (Z.to_nat end_) p2 false = false).
    { transitivity (nth (Z.to_nat end_) p0 false); [|exact He]. unfold p2, p1.
      rewrite !nth_lookup. rewrite !list_lookup_insert_ne by lia. reflexivity. }
    rewrite E2 in C2. rewrite E3 in C3. lia.
Qed.

(** C5.  On a well-formed board [moves] returns a list, and every move of that
    list, applied to the board, returns normally and leaves one pin fewer. *)
Theorem moves_apply_and_remove_one_pin (self : Board) :
  wf self ->
  exists ms,
    moves self = Ok ms /\
    forall start end_ jump,
      In (start, end_, jump) ms ->
      exists self',
        move start end_ jump self = (Ok tt, self') /\
        (occupied_count self' + 1 = occupied_count self)%nat.
Proof.
  intros Hwf. exists (all_moves self). split; [apply moves_ok; assumption|].
  intros start end_ jump Hin.
  destruct (child_count _ _ _ _ Hwf Hin) as [_ Hcount].
  apply all_moves_spec in Hin; [|assumption].
  destruct Hin as (Hr & Ht & Hs & He & Hj).
  destruct (rule_table_shape _ _ _ _ Hr Ht) as (_ & Hre & Hrj & _).
  rewrite move_unfold by assumption. rewrite Hs, He, Hj. cbn [negb].
  eexists. split; [reflexivity|].
  rewrite occupied_count_pins in *. exact Hcount.
Qed.

(** C8.  The board constructed with [empty_position=14] has exactly the two
    moves [(9, 14, 12)] and [(11, 14, 13)], in that order. *)
Theorem moves_of_initial_board_14 :
  exists board,
    Board_init 14 None = Ok board /\
    occupied_positions board = [0; 1; 2; 3; 4; 5; 6; 7; 8; 9; 10; 11; 12; 13] /\
    moves board = Ok [(9, 14, 12); (11, 14, 13)].
Proof. exists board14. repeat split. Qed.

(** ** [Board.transform] *)

Lemma with_pins_pins self : with_pins self (pins self) = self.
Proof. destruct self; reflexivity. Qed.

Lemma length_substitute prev pairs p : length (substitute prev pairs p) = length p.
Proof.
  unfold substitute. revert p.
  induction pairs as [|[f t] pairs IH]; intros p; cbn [fold_left]; [reflexivity|].
  rewrite IH. apply length_insert.
Qed.

Lemma transform_body_ok prev f t self :
  length prev = 15%nat -> in_range f -> in_range t ->
  transform_body prev (f, t) self =
  (Ok tt, with_pins self (<[Z.to_nat t := nth (Z.to_nat f) prev false]> (pins self))).
Proof.
  intros Hprev Hf Ht.
  unfold transform_body, mbind, meth_bind, mbind_meth, reading.
  rewrite !validate_ok by assumption.
  rewrite pins_getitem_ok by assumption.
  apply set_pin_status_ok. assumption.
Qed.

Lemma transform_body_raises prev pair self :
  ~ pair_in_range pair ->
  exists msg, transform_body prev pair self = (Raise (ValueError msg), self).
Proof.
  destruct pair as [f t]. unfold pair_in_range. cbn [fst snd]. intros Hbad.
  unfold transform_body, mbind, meth_bind, mbind_meth, reading.
  destruct (in_range_dec f) as [Hf|Hf].
  - rewrite (validate_ok f) by assumption.
    destruct (validate_raises t (Some "new_pos"%string)) as [msg ->]; [tauto|].
    eauto.
  - destruct (validate_raises f (Some "prev_pos"%string) Hf) as [msg ->]. eauto.
Qed.

Lemma for_each_meth_cons {A : Type} (body : A -> meth unit) a l self :
  for_each_meth body (a :: l) self =
  match body a self with
  | (Ok _, self') => for_each_meth body l self'
  | (Raise e, self') => (Raise e, self')
  end.
Proof. reflexivity. Qed.

Lemma transform_loop_ok prev pairs self :
  length prev = 15%nat -> Forall pair_in_range pairs ->
  for_each_meth (transform_body prev) pairs self
  = (Ok tt, with_pins self (substitute prev pairs (pins self))).
Proof.
  intros Hprev H. revert self.
  induction H as [|[f t] pairs [Hf Ht] _ IH]; intros self.
  - cbn. rewrite with_pins_pins. reflexivity.
  - rewrite for_each_meth_cons.
    rewrite transform_body_ok by assumption.
    rewrite IH. reflexivity.
Qed.

Lemma transform_loop_raises prev good bad rest self :
  length prev = 15%nat -> Forall pair_in_range good -> ~ pair_in_range bad ->
  exists msg,
    for_each_meth (transform_body prev) (good ++ bad :: rest) self
    = (Raise (ValueError msg), with_pins self (substitute prev good (pins self))).
Proof.
  intros Hprev H Hbad. revert self.
  induction H as [|[f t] pairs [Hf Ht] _ IH]; intros self.
  - cbn [app substitute fold_left]. rewrite with_pins_pins.
    rewrite for_each_meth_cons.
    destruct (transform_body_raises prev bad self Hbad) as [msg ->]. eauto.
  - cbn [app]. rewrite for_each_meth_cons.
    rewrite transform_body_ok by assumption.
    destruct (IH (with_pins self
                    (<[Z.to_nat t := nth (Z.to_nat f) prev false]> (pins self))))
      as [msg ->].
    exists msg. reflexivity.
Qed.

Lemma not_all_in_range (pairs : list (Z * Z)) :
  ~ Forall pair_in_range pairs ->
  exists good bad rest,
    pairs = good ++ bad :: rest /\ Forall pair_in_range good /\ ~ pair_in_range bad.
Proof.
  induction pairs as [|pair pairs IH]; intros H.
  - exfalso. apply H. constructor.
  - destruct (in_range_dec (fst pair)) as [Hf|Hf];
      [destruct (in_range_dec (snd pair)) as [Ht|Ht]|].
    + destruct IH as (good & bad & rest & -> & Hg & Hb).
      { intros HF. apply H. constructor; [split|]; assumption. }
      exists (pair :: good), bad, rest.
      repeat split; [constructor; [split|]|]; assumption.
    + exists [], pair, pairs. repeat split; [constructor|].
      intros [_ ?]. contradiction.
    + exists [], pair, pairs. repeat split; [constructor|].
      intros [? _]. contradiction.
Qed.

Lemma substitute_untouched prev pairs p q :
  ~ In q (map (fun pair => Z.to_nat (snd pair)) pairs) ->
  nth q (substitute prev pairs p) false = nth q p false.
Proof.
  unfold substitute. revert p.
  induction pairs as [|[f t] pairs IH]; intros p Hq; cbn [fold_left]; [reflexivity|].
  cbn [map In snd] in Hq.
  rewrite IH by tauto.
  rewrite !nth_lookup. rewrite list_lookup_insert_ne by tauto. reflexivity.
Qed.

Lemma substitute_reads_snapshot prev pairs p f t :
  length p = 15%nat -> Forall pair_in_range pairs ->
  NoDup (map snd pairs) -> In (f, t) pairs ->
  nth (Z.to_nat t) (substitute prev pairs p) false = nth (Z.to_nat f) prev false.
Proof.
  intros Hp HF. revert p Hp.
  induction HF as [|[f0 t0] pairs [Hf0 Ht0] HF IH]; intros p Hp Hnd Hin;
    [destruct Hin|].
  cbn [map snd fst] in *. apply NoDup_cons in Hnd. destruct Hnd as [Hnotin Hnd].
  change (substitute prev ((f0, t0) :: pairs) p)
    with (substitute prev pairs
            (<[Z.to_nat t0 := nth (Z.to_nat f0) prev false]> p)).
  destruct Hin as [Heq|Hin].
  - inversion Heq; subst f0 t0.
    rewrite substitute_untouched.
    + rewrite nth_lookup, list_lookup_insert_eq; [reflexivity|].
      unfold in_range in Ht0. lia.
    + intros Hin. apply in_map_iff in Hin. destruct Hin as ([f1 t1] & Heq1 & Hin1).
      cbn [snd] in Heq1.
      rewrite List.Forall_forall in HF. destruct (HF _ Hin1) as [_ Ht1].
      unfold in_range in *. cbn [snd] in Ht1.
      assert (t1 = t) by lia. subst t1.
      apply Hnotin. apply list_elem_of_In. apply in_map_iff.
      exists (f1, t). split; [reflexivity|assumption].
  - apply IH; [rewrite length_insert|..]; assumption.
Qed.

Lemma valid_permutation_in_range pairs :
  valid_permutation pairs -> Forall pair_in_range pairs /\ NoDup (map snd pairs).
Proof.
  intros [Hf Ht]. split.
  - apply List.Forall_forall. intros [f t] Hin.
    assert (Hpos : forall q, q ∈ all_positions -> in_range q).
    { intros q Hq. apply list_elem_of_In in Hq. unfold all_positions in Hq.
      apply in_map_iff in Hq. destruct Hq as (i & <- & Hi).
      apply in_seq in Hi. unfold in_range. lia. }
    split; apply Hpos; cbn [fst snd].
    + rewrite <- Hf. apply list_elem_of_In, in_map_iff. exists (f, t). auto.
    + rewrite <- Ht. apply list_elem_of_In, in_map_iff. exists (f, t). auto.
  - rewrite Ht. unfold all_positions.
    apply NoDup_fmap_2; [intros x y; apply Nat2Z.inj|]. apply NoDup_seq.
Qed.

Lemma transform_ok self pairs :
  wf self -> Forall pair_in_range pairs ->
  transform pairs self =
  (Ok tt, with_pins self (substitute (pins self) pairs (pins self))).
Proof.
  intros [Hl _] HF. unfold transform. apply transform_loop_ok; assumption.
Qed.

(** C3, as the code has it.  [transform] raises [ValueError] exactly when some
    pair names a position outside [0, 14]; it makes no other check, so every
    list of in-range pairs is accepted, a permutation or not.  When it returns
    normally every assignment has read the snapshot taken on entry, and for a
    valid permutation the pin at each [to] is the former pin at its [from]. *)
Theorem transform_checks_range_only (self : Board) (pairs : list (Z * Z)) :
  wf self ->
  ((exists msg self', transform pairs self = (Raise (ValueError msg), self'))
   <-> ~ Forall pair_in_range pairs) /\
  (Forall pair_in_range pairs ->
   exists self',
     transform pairs self = (Ok tt, self') /\ wf self' /\
     pins self' = substitute (pins self) pairs (pins self)) /\
  (valid_permutation pairs ->
   exists self',
     transform pairs self = (Ok tt, self') /\
     forall prev_pos new_pos,
       In (prev_pos, new_pos) pairs ->
       pin_status new_pos self' = pin_status prev_pos self).
Proof.
  intros Hwf. split; [|split].
  - split.
    + intros (msg & self' & Hr) HF.
      rewrite transform_ok in Hr by assumption. discriminate Hr.
    + intros HF. apply not_all_in_range in HF.
      destruct HF as (good & bad & rest & -> & Hg & Hb).
      unfold transform.
      destruct (transform_loop_raises (pins self) good bad rest self) as [msg ->];
        [apply Hwf|assumption..|].
      eauto.
  - intros HF. eexists. split; [apply transform_ok; assumption|].
    split; [|reflexivity].
    apply wf_with_pins; [assumption|]. rewrite length_substitute. apply Hwf.
  - intros Hv. destruct (valid_permutation_in_range _ Hv) as [HF Hnd].
    eexists. split; [apply transform_ok; assumption|].
    intros f t Hin.
    rewrite List.Forall_forall in HF. destruct (HF _ Hin) as [Hf Ht].
    cbn [fst snd] in Hf, Ht.
    rewrite !pin_status_ok; try assumption.
    + unfold occupied at 1. cbn [with_pins pins]. f_equal.
      apply substitute_reads_snapshot; try assumption; [apply Hwf|].
      apply List.Forall_forall. assumption.
    + apply wf_with_pins; [assumption|]. rewrite length_substitute. apply Hwf.
Qed.

(** C3, the claim as stated fails: the single pair [(14, 0)] is no permutation
    of the fifteen positions, yet [transform] accepts it and a pin is lost. *)
Lemma transform_accepts_non_permutation :
  ~ valid_permutation [(14, 0)] /\
  transform [(14, 0)] board14 =
  (Ok tt,
   mkBoard [false; true; true; true; true; true; true; true; true; true; true;
            true; true; true; false] None 14).
Proof.
  split; [|reflexivity].
  intros [Hf _]. apply Permutation_length in Hf. discriminate Hf.
Qed.

(** ** [Board.__eq__] *)

Lemma Board_eq_spec self board :
  wf self -> wf board ->
  Board_eq self board = Ok (bool_decide (pins self = pins board)).
Proof.
  intros [Hs _] [Hb _].
  destruct self as [ps pbs eps], board as [pb pbb epb]. cbn [pins] in *.
  destruct (fifteen_pins _ Hs) as
    (a0 & a1 & a2 & a3 & a4 & a5 & a6 & a7 & a8 & a9 & a10 & a11 & a12 & a13 & a14 & ->).
  destruct (fifteen_pins _ Hb) as
    (b0 & b1 & b2 & b3 & b4 & b5 & b6 & b7 & b8 & b9 & b10 & b11 & b12 & b13 & b14 & ->).
  transitivity
    (Ok (negb (existsb negb
       [Bool.eqb a0 b0; Bool.eqb a1 b1; Bool.eqb a2 b2; Bool.eqb a3 b3;
        Bool.eqb a4 b4; Bool.eqb a5 b5; Bool.eqb a6 b6; Bool.eqb a7 b7;
        Bool.eqb a8 b8; Bool.eqb a9 b9; Bool.eqb a10 b10; Bool.eqb a11 b11;
        Bool.eqb a12 b12; Bool.eqb a13 b13; Bool.eqb a14 b14])));
    [reflexivity|].
  f_equal. cbn [existsb].
  repeat match goal with
         | |- context [Bool.eqb ?a ?b] =>
             destruct (Bool.eqb_spec a b) as [->|?];
               [cbn [negb orb]
               |cbn [negb orb]; symmetry; apply bool_decide_eq_false; congruence]
         end.
  symmetry. apply bool_decide_eq_true. reflexivity.
Qed.

(** ** The five transformations and their inverses *)

Lemma transform_inverse_pins (tx : list (Z * Z)) (name : string) :
  In (name, tx) valid_transformations ->
  forall a0 a1 a2 a3 a4 a5 a6 a7 a8 a9 a10 a11 a12 a13 a14 : bool,
    let p := [a0; a1; a2; a3; a4; a5; a6; a7; a8; a9; a10; a11; a12; a13; a14] in
    Forall pair_in_range tx /\ Forall pair_in_range (inverse tx) /\
    let p1 := substitute p tx p in
    substitute p1 (inverse tx) p1 = p.
Proof.
  intros Hin. cbn [valid_transformations In] in Hin.
  assert (R : forall pairs, forallb (fun '(f, t) => (0 <=? f) && (f <=? 14) &&
                                               ((0 <=? t) && (t <=? 14))) pairs = true ->
                       Forall pair_in_range pairs).
  { intros pairs H. apply List.Forall_forall. intros [f t] Hp.
    rewrite forallb_forall in H. specialize (H _ Hp). cbn in H.
    unfold pair_in_range, in_range. cbn [fst snd]. lia. }
  repeat (destruct Hin as [Hin|Hin];
          [inversion Hin; subst; intros;
           split; [apply R; reflexivity|split; [apply R; reflexivity|reflexivity]]|]).
  contradiction.
Qed.

(** C7.  For each of the five transformations, on every well-formed board,
    transforming and then transforming with the swapped pairs gives back a
    board equal to the first; as sets of pairs, [Reflection] and the two
    rotation-and-reflection tables are their own inverses and the two rotation
    tables are each other's. *)
Theorem transform_then_inverse (self : Board) (name : string) (tx : list (Z * Z)) :
  wf self -> In (name, tx) valid_transformations ->
  (exists t_board back,
      transform tx self = (Ok tt, t_board) /\
      transform (inverse tx) t_board = (Ok tt, back) /\
      Board_eq back self = Ok true /\
      back = self) /\
  inverse Reflection ≡ₚ Reflection /\
  inverse Clockwise_rotation_and_reflection ≡ₚ Clockwise_rotation_and_reflection /\
  inverse Counter_clockwise_rotation_and_reflection
    ≡ₚ Counter_clockwise_rotation_and_reflection /\
  inverse Clockwise_rotation ≡ₚ Counter_clockwise_rotation /\
  inverse Counter_clockwise_rotation ≡ₚ Clockwise_rotation.
Proof.
  intros Hwf Hin. split.
  - destruct (fifteen_pins _ (proj1 Hwf)) as
      (a0 & a1 & a2 & a3 & a4 & a5 & a6 & a7 & a8 & a9 & a10 & a11 & a12 & a13 & a14 & Hp).
    destruct (transform_inverse_pins tx name Hin
                a0 a1 a2 a3 a4 a5 a6 a7 a8 a9 a10 a11 a12 a13 a14)
      as (HF & HFi & Hback).
    cbn zeta in Hback. rewrite <- Hp in Hback.
    set (t_board := with_pins self (substitute (pins self) tx (pins self))).
    assert (Wt : wf t_board).
    { apply wf_with_pins; [assumption|]. rewrite length_substitute. apply Hwf. }
    assert (Hself : with_pins t_board
                      (substitute (pins t_board) (inverse tx) (pins t_board)) = self).
    { unfold t_board. cbn [pins with_pins]. rewrite Hback.
      destruct self; reflexivity. }
    exists t_board, self.
    split; [apply transform_ok; assumption|].
    split; [rewrite transform_ok by assumption; rewrite Hself; reflexivity|].
    split; [|reflexivity].
    rewrite Board_eq_spec by assumption.
    f_equal. apply bool_decide_eq_true. reflexivity.
  - repeat split; apply (bool_decide_unpack _); vm_compute; exact I.
Qed.

(** ** Encoding and decoding *)

Lemma in_range_from (x start : Z) (n : nat) :
  start <= x < start + Z.of_nat n -> In x (range_from start n).
Proof.
  revert start. induction n as [|n IH]; intros start H; [lia|].
  cbn [range_from]. destruct (Z.eq_dec start x) as [->|Hne].
  - left. reflexivity.
  - right. apply IH. lia.
Qed.

Lemma round_trips_everywhere : forallb round_trips (range_from 0 (Z.to_nat (2 ^ 15))) = true.
Proof. vm_compute. reflexivity. Qed.

(** C6.  For every [x] with [0 <= x < 2^15], [from_configuration_id x] returns
    a board whose pin at position [i] is bit [14 - i] of [x] (position 0 is the
    most significant bit), [str] of that board has fifteen characters, and
    [int(str(board), 2)] is [x]. *)
Theorem decode_encode_round_trip (x : Z) :
  0 <= x < 2 ^ 15 ->
  exists board,
    from_configuration_id x = Ok board /\
    wf board /\
    (forall position, in_range position ->
                      pin_status position board = Ok (Z.testbit x (14 - position))) /\
    String.length (Board_str board) = 15%nat /\
    configuration_id board = Some x.
Proof.
  intros Hx.
  pose proof round_trips_everywhere as H. rewrite forallb_forall in H.
  specialize (H x (in_range_from x 0 (Z.to_nat (2 ^ 15)) ltac:(lia))).
  unfold round_trips in H.
  destruct (from_configuration_id x) as [board|]; [|discriminate H].
  exists board. split; [reflexivity|].
  repeat (apply andb_prop in H; destruct H as [H ?]).
  match goal with Hl : Nat.eqb (length _) _ = true |- _ => apply Nat.eqb_eq in Hl end.
  match goal with He : (empty_position _ =? 14) = true |- _ => apply Z.eqb_eq in He end.
  assert (Hwf : wf board).
  { split; [assumption|]. unfold in_range. lia. }
  split; [exact Hwf|].
  split; [|split].
  - intros position Hp. rewrite pin_status_ok by assumption. f_equal.
    match goal with Hb : forallb _ all_positions = true |- _ =>
      rewrite forallb_forall in Hb; apply Bool.eqb_prop; apply Hb end.
    unfold all_positions. apply in_map_iff. exists (Z.to_nat position).
    unfold in_range in Hp. split; [lia|]. apply in_seq. lia.
  - apply Nat.eqb_eq. assumption.
  - destruct (configuration_id board) as [y|]; [|discriminate].
    f_equal. apply Z.eqb_eq. assumption.
Qed.

(** ** One generation of the search *)

Lemma make_move_ok board new_boards won_boards m :
  wf board -> In m (all_moves board) ->
  make_move board (new_boards, won_boards) m =
  Ok (new_boards ++ List.filter (fun c => negb (is_won c)) [child board m],
      won_boards ++ List.filter is_won [child board m]).
Proof.
  intros Hwf Hin. destruct m as [[s e] j]. unfold make_move.
  pose proof (child_ok board s e j Hwf Hin) as Hc.
  rewrite copy_ok in Hc by assumption. rewrite bind_Ok in Hc.
  rewrite copy_ok by assumption. rewrite bind_Ok.
  rewrite Hc. rewrite bind_Ok. cbn [List.filter].
  destruct (is_won (child board (s, e, j))); cbn [negb];
    rewrite app_nil_r; reflexivity.
Qed.

Lemma moves_loop_ok board ms new_boards won_boards :
  wf board -> (forall m, In m ms -> In m (all_moves board)) ->
  for_each (make_move board) ms (new_boards, won_boards) =
  Ok (new_boards ++ List.filter (fun c => negb (is_won c)) (map (child board) ms),
      won_boards ++ List.filter is_won (map (child board) ms)).
Proof.
  intros Hwf. revert new_boards won_boards.
  induction ms as [|m ms IH]; intros new_boards won_boards H.
  - cbn. rewrite !app_nil_r. reflexivity.
  - cbn [for_each]. rewrite make_move_ok by (try apply H; auto using in_eq).
    rewrite bind_Ok. rewrite IH by (intros; apply H; right; assumption).
    cbn [map]. rewrite <- !app_assoc.
    change (child board m :: map (child board) ms)
      with ([child board m] ++ map (child board) ms).
    rewrite !List.filter_app. reflexivity.
Qed.

Lemma no_moves_iff board :
  (Z.of_nat (length (all_moves board)) <? 1) = is_dead_end board.
Proof.
  unfold is_dead_end. destruct (all_moves board); cbn [length]; [reflexivity|].
  apply Z.ltb_ge. lia.
Qed.

Lemma dead_end_children board : is_dead_end board = true -> children board = [].
Proof.
  unfold is_dead_end, children. destruct (all_moves board); [reflexivity|discriminate].
Qed.

Lemma commands_increment_loop boards new_boards won_boards lost_boards :
  Forall wf boards ->
  for_each
    (fun '(new_boards, won_boards, lost_boards) board =>
       ms ← moves board;
       if Z.of_nat (length ms) <? 1 then
         Ok (new_boards, won_boards, lost_boards ++ [board])
       else
         '(new_boards, won_boards) ←
           for_each (make_move board) ms (new_boards, won_boards);
         Ok (new_boards, won_boards, lost_boards))
    boards (new_boards, won_boards, lost_boards)
  = Ok (new_boards ++ next_frontier boards,
        won_boards ++ newly_won boards,
        lost_boards ++ dead_ends boards).
Proof.
  intros H. revert new_boards won_boards lost_boards.
  induction H as [|board boards Hwf _ IH]; intros new_boards won_boards lost_boards.
  - cbn. rewrite !app_nil_r. reflexivity.
  - cbn [for_each]. rewrite moves_ok by assumption. rewrite bind_Ok.
    rewrite no_moves_iff.
    unfold next_frontier, newly_won, dead_ends. cbn [flat_map List.filter].
    fold (next_frontier boards) (newly_won boards) (dead_ends boards).
    destruct (is_dead_end board) eqn:Hd.
    + rewrite bind_Ok, IH. rewrite (dead_end_children _ Hd). cbn [List.filter app].
      rewrite <- app_assoc. reflexivity.
    + rewrite moves_loop_ok by auto. rewrite !bind_Ok. rewrite IH.
      unfold children. rewrite <- !app_assoc. reflexivity.
Qed.

Lemma commands_increment_boards_ok boards :
  Forall wf boards ->
  commands.increment_boards boards =
  Ok (next_frontier boards, newly_won boards, dead_ends boards).
Proof.
  intros H. unfold commands.increment_boards.
  rewrite commands_increment_loop by assumption. reflexivity.
Qed.

Lemma core_increment_loop boards new_boards won_boards :
  Forall wf boards ->
  for_each
    (fun '(new_boards, won_boards) board =>
       ms ← moves board;
       if Z.of_nat (length ms) <? 1 then Ok (new_boards, won_boards)
       else for_each (make_move board) ms (new_boards, won_boards))
    boards (new_boards, won_boards)
  = Ok (new_boards ++ next_frontier boards, won_boards ++ newly_won boards).
Proof.
  intros H. revert new_boards won_boards.
  induction H as [|board boards Hwf _ IH]; intros new_boards won_boards.
  - cbn. rewrite !app_nil_r. reflexivity.
  - cbn [for_each]. rewrite moves_ok by assumption. rewrite bind_Ok.
    rewrite no_moves_iff.
    unfold next_frontier, newly_won. cbn [flat_map].
    fold (next_frontier boards) (newly_won boards).
    destruct (is_dead_end board) eqn:Hd.
    + rewrite bind_Ok, IH. rewrite (dead_end_children _ Hd). reflexivity.
    + rewrite moves_loop_ok by auto. rewrite !bind_Ok. rewrite IH.
      unfold children. rewrite <- !app_assoc. reflexivity.
Qed.

Lemma core_increment_boards_ok boards :
  Forall wf boards ->
  core.increment_boards boards = Ok (next_frontier boards, newly_won boards).
Proof.
  intros H. unfold core.increment_boards.
  rewrite core_increment_loop by assumption. reflexivity.
Qed.

(** ** Generations keep boards well formed and lose a pin each *)

Lemma children_spec board c :
  wf board -> In c (children board) ->
  wf c /\ (occupied_count c + 1 = occupied_count board)%nat.
Proof.
  intros Hwf Hin. unfold children in Hin. apply in_map_iff in Hin.
  destruct Hin as ([[s e] j] & <- & Hm). apply child_count; assumption.
Qed.

Lemma in_next_frontier boards c :
  In c (next_frontier boards) <->
  exists board, In board boards /\ In c (children board) /\ is_won c = false.
Proof.
  unfold next_frontier. rewrite in_flat_map. split.
  - intros (board & Hb & Hc). apply filter_In in Hc. destruct Hc as [Hc Hw].
    apply negb_true_iff in Hw. eauto.
  - intros (board & Hb & Hc & Hw). exists board. split; [assumption|].
    apply filter_In. split; [assumption|]. rewrite Hw. reflexivity.
Qed.

Lemma in_newly_won boards c :
  In c (newly_won boards) <->
  exists board, In board boards /\ In c (children board) /\ is_won c = true.
Proof.
  unfold newly_won. rewrite in_flat_map. split.
  - intros (board & Hb & Hc). apply filter_In in Hc. destruct Hc as [Hc Hw]. eauto.
  - intros (board & Hb & Hc & Hw). exists board. split; [assumption|].
    apply filter_In. split; assumption.
Qed.

Lemma next_frontier_wf boards :
  Forall wf boards -> Forall wf (next_frontier boards).
Proof.
  intros H. apply List.Forall_forall. intros c Hc.
  apply in_next_frontier in Hc. destruct Hc as (board & Hb & Hc & _).
  rewrite List.Forall_forall in H. apply (children_spec board c); auto.
Qed.

Lemma next_frontier_count boards n :
  Forall wf boards ->
  Forall (fun b => (occupied_count b <= n)%nat) boards ->
  Forall (fun b => (occupied_count b <= pred n)%nat) (next_frontier boards) /\
  (n = 0%nat -> next_frontier boards = []).
Proof.
  intros Hwf Hn. rewrite List.Forall_forall in Hwf, Hn.
  assert (H : forall c, In c (next_frontier boards) ->
                        (occupied_count c + 1 <= n)%nat).
  { intros c Hc. apply in_next_frontier in Hc. destruct Hc as (board & Hb & Hc & _).
    destruct (children_spec board c (Hwf _ Hb) Hc) as [_ Hcount].
    specialize (Hn _ Hb). lia. }
  split.
  - apply List.Forall_forall. intros c Hc. specialize (H c Hc). lia.
  - intros ->. destruct (next_frontier boards) as [|c l]; [reflexivity|].
    specialize (H c (or_introl eq_refl)). lia.
Qed.

Lemma frontier_nil n : frontier n [] = [].
Proof. induction n as [|n IH]; [reflexivity|exact IH]. Qed.

(** The frontier is empty after as many steps as the fullest board has pins. *)
Lemma frontier_runs_out n boards :
  Forall wf boards ->
  Forall (fun b => (occupied_count b <= n)%nat) boards ->
  frontier (S n) boards = [].
Proof.
  revert boards. induction n as [|n IH]; intros boards Hwf Hn.
  - cbn [frontier].
    destruct (next_frontier_count boards 0 Hwf Hn) as [_ H]. apply H. reflexivity.
  - change (frontier (S (S n)) boards) with (frontier (S n) (next_frontier boards)).
    apply IH; [apply next_frontier_wf; assumption|].
    apply (next_frontier_count boards (S n)); assumption.
Qed.

Lemma occupied_count_le self : wf self -> (occupied_count self <= 15)%nat.
Proof.
  intros [Hl _]. rewrite occupied_count_pins. rewrite <- Hl.
  apply List.filter_length_le.
Qed.

Lemma frontier_add i j boards :
  frontier (i + j) boards = frontier j (frontier i boards).
Proof.
  revert boards. induction i as [|i IH]; intros boards; [reflexivity|].
  cbn [Nat.add frontier]. apply IH.
Qed.

Lemma frontier_stays_empty i k boards :
  (i <= k)%nat -> frontier i boards = [] -> frontier k boards = [].
Proof.
  intros Hle H. replace k with (i + (k - i))%nat by lia.
  rewrite frontier_add, H. apply frontier_nil.
Qed.

(** ** The loop of [solve] *)

Lemma solve_loop_ok fuel boards won_boards lost_boards :
  Forall wf boards -> frontier fuel boards = [] ->
  exists k,
    (k <= fuel)%nat /\ frontier k boards = [] /\
    (forall i, (i < k)%nat -> frontier i boards <> []) /\
    commands.solve_loop fuel boards won_boards lost_boards =
    Some (Ok (won_boards ++ all_won k boards, lost_boards ++ all_dead_ends k boards)).
Proof.
  revert boards won_boards lost_boards.
  induction fuel as [|fuel IH]; intros boards won_boards lost_boards Hwf Hend.
  - cbn [frontier] in Hend. subst boards. exists 0%nat.
    cbn. rewrite !app_nil_r. repeat split; [lia|]. intros i Hi. lia.
  - destruct boards as [|board boards'] eqn:Hb.
    + exists 0%nat. cbn. rewrite !app_nil_r. repeat split; [lia|]. intros i Hi. lia.
    + rewrite <- Hb in *. cbn [frontier] in Hend.
      destruct (IH (next_frontier boards)
                   (won_boards ++ newly_won boards)
                   (lost_boards ++ dead_ends boards)
                   (next_frontier_wf _ Hwf) Hend)
        as (k & Hk & Hempty & Hbefore & Hrun).
      exists (S k). split; [lia|]. split; [exact Hempty|]. split.
      * intros [|i] Hi; [cbn [frontier]; rewrite Hb; discriminate|].
        cbn [frontier]. apply Hbefore. lia.
      * rewrite Hb at 1. cbn [commands.solve_loop]. rewrite <- Hb.
        rewrite commands_increment_boards_ok by assumption.
        replace (match newly_won boards with
                 | [] => won_boards
                 | _ :: _ => won_boards ++ newly_won boards
                 end) with (won_boards ++ newly_won boards)
          by (destruct (newly_won boards); [apply app_nil_r|reflexivity]).
        replace (match dead_ends boards with
                 | [] => lost_boards
                 | _ :: _ => lost_boards ++ dead_ends boards
                 end) with (lost_boards ++ dead_ends boards)
          by (destruct (dead_ends boards); [apply app_nil_r|reflexivity]).
        rewrite Hrun. cbn [all_won all_dead_ends]. rewrite <- !app_assoc.
        reflexivity.
Qed.

(** [solve] on a valid start: the loop stops at the first generation [k] whose
    frontier is empty, and hands over the boards won and the dead ends of all
    [k] generation steps, in generation order. *)
Lemma solve_collects_every_generation (empty_position : Z) :
  in_range empty_position ->
  exists root k,
    Board_init empty_position None = Ok root /\
    (k <= 15)%nat /\ frontier k [root] = [] /\
    (forall i, (i < k)%nat -> frontier i [root] <> []) /\
    forall fuel, (15 <= fuel)%nat ->
      commands.solve fuel empty_position =
      Some (Ok (all_won k [root], all_dead_ends k [root])).
Proof.
  intros Hp.
  destruct (Board_init_ok empty_position None Hp)
    as (root & Hinit & Hwf & _ & _ & _ & Hcount).
  assert (Hwfs : Forall wf [root]) by (constructor; [assumption|constructor]).
  assert (Hend : frontier 15 [root] = []).
  { apply frontier_runs_out; [assumption|].
    constructor; [lia|constructor]. }
  destruct (solve_loop_ok 15 [root] [] [] Hwfs Hend) as (k & Hk & Hempty & Hbefore & _).
  exists root, k. repeat (split; [assumption|]).
  intros fuel Hfuel. unfold commands.solve. rewrite Hinit.
  destruct (solve_loop_ok fuel [root] [] [] Hwfs
              (frontier_stays_empty 15 fuel _ Hfuel Hend))
    as (k' & _ & Hempty' & Hbefore' & Hrun).
  assert (k' = k).
  { destruct (Nat.lt_trichotomy k' k) as [Hlt|[Heq|Hgt]]; [|exact Heq|].
    - exfalso. apply (Hbefore k' Hlt). exact Hempty'.
    - exfalso. apply (Hbefore' k Hgt). exact Hempty. }
  subst k'. exact Hrun.
Qed.

(** From any well-formed board the loop of [solve] ends within sixteen
    iterations, a board having at most fifteen pins. *)
Lemma solve_loop_terminates (board : Board) (fuel : nat) :
  wf board -> (16 <= fuel)%nat ->
  exists k,
    frontier k [board] = [] /\
    commands.solve_loop fuel [board] [] [] =
    Some (Ok (all_won k [board], all_dead_ends k [board])).
Proof.
  intros Hwf Hfuel.
  assert (Hwfs : Forall wf [board]) by (constructor; [assumption|constructor]).
  assert (Hend : frontier 16 [board] = []).
  { apply frontier_runs_out; [assumption|].
    constructor; [apply occupied_count_le; assumption|constructor]. }
  destruct (solve_loop_ok fuel [board] [] [] Hwfs
              (frontier_stays_empty 16 fuel _ Hfuel Hend))
    as (k & _ & Hempty & _ & Hrun).
  exists k. split; assumption.
Qed.

(** ** The loop of [find_solutions] *)

Lemma find_solutions_loop_ok fuel boards won_boards :
  Forall wf boards -> frontier fuel boards = [] ->
  exists k,
    (k <= fuel)%nat /\ frontier k boards = [] /\
    (forall i, (i < k)%nat -> frontier i boards <> []) /\
    core.find_solutions_loop fuel boards won_boards =
    Some (Ok (match k with
              | O => won_boards
              | S k' => newly_won (frontier k' boards)
              end)).
Proof.
  revert boards won_boards.
  induction fuel as [|fuel IH]; intros boards won_boards Hwf Hend.
  - cbn [frontier] in Hend. subst boards. exists 0%nat.
    repeat split; [lia|]. intros i Hi. lia.
  - destruct boards as [|board boards'] eqn:Hb.
    + exists 0%nat. repeat split; [lia|]. intros i Hi. lia.
    + rewrite <- Hb in *. cbn [frontier] in Hend.
      destruct (IH (next_frontier boards) (newly_won boards)
                   (next_frontier_wf _ Hwf) Hend)
        as (k & Hk & Hempty & Hbefore & Hrun).
      exists (S k). split; [lia|]. split; [exact Hempty|]. split.
      * intros [|i] Hi; [cbn [frontier]; rewrite Hb; discriminate|].
        cbn [frontier]. apply Hbefore. lia.
      * cbn [core.find_solutions_loop].
        replace (Z.of_nat (length boards) >? 0) with true
          by (rewrite Hb; cbn [length]; symmetry; apply Z.gtb_lt; lia).
        rewrite core_increment_boards_ok by assumption.
        rewrite Hrun. destruct k; reflexivity.
Qed.

(** When all boards of a frontier carry the same number of pins, boards are
    won in one generation step only, the last one. *)
Lemma all_won_is_last_generation k boards c :
  Forall wf boards ->
  Forall (fun b => occupied_count b = c) boards ->
  frontier k boards = [] ->
  (forall i, (i < k)%nat -> frontier i boards <> []) ->
  all_won k boards =
  match k with
  | O => []
  | S k' => newly_won (frontier k' boards)
  end.
Proof.
  revert boards c. induction k as [|k IH]; intros boards c Hwf Hc Hempty Hbefore;
    [reflexivity|].
  cbn [all_won].
  assert (Hc' : Forall (fun b => occupied_count b = pred c) (next_frontier boards)).
  { apply List.Forall_forall. intros b Hb. apply in_next_frontier in Hb.
    destruct Hb as (board & Hin & Hch & _).
    rewrite List.Forall_forall in Hwf, Hc.
    destruct (children_spec board b (Hwf _ Hin) Hch) as [_ Hcount].
    rewrite <- (Hc _ Hin). lia. }
  rewrite (IH (next_frontier boards) (pred c) (next_frontier_wf _ Hwf) Hc' Hempty)
    by (intros i Hi; apply (Hbefore (S i)); lia).
  destruct k as [|k]; [apply app_nil_r|].
  cbn [frontier].
  replace (newly_won boards) with (@nil Board); [reflexivity|].
  destruct (newly_won boards) as [|w ws] eqn:Hw; [reflexivity|]. exfalso.
  assert (Hin : In w (newly_won boards)) by (rewrite Hw; left; reflexivity).
  apply in_newly_won in Hin. destruct Hin as (board & Hin & Hch & Hwon).
  rewrite List.Forall_forall in Hwf, Hc.
  destruct (children_spec board w (Hwf _ Hin) Hch) as [_ Hcount].
  rewrite is_won_count in Hwon. apply Nat.eqb_eq in Hwon.
  specialize (Hbefore 1%nat ltac:(lia)). cbn [frontier] in Hbefore.
  rewrite List.Forall_forall in Hc'.
  destruct (next_frontier boards) as [|b bs] eqn:Hnf; [contradiction|].
  pose proof (Hc' b (or_introl eq_refl)) as Hbc.
  assert (Hb : In b (next_frontier boards)) by (rewrite Hnf; left; reflexivity).
  apply in_next_frontier in Hb. destruct Hb as (_ & _ & _ & Hnot).
  rewrite is_won_count in Hnot. apply Nat.eqb_neq in Hnot.
  rewrite (Hc _ Hin) in Hcount. lia.
Qed.

(** ** Boards on a path of moves *)

Lemma move_eqb_eq m m' : move_eqb m m' = true -> m = m'.
Proof.
  destruct m as [[s e] j], m' as [[s' e'] j']. cbn.
  intros H. apply andb_prop in H. destruct H as [H Hj].
  apply andb_prop in H. destruct H as [Hs He].
  apply Z.eqb_eq in Hs, He, Hj. congruence.
Qed.

Lemma playable_in_frontier ms board boards :
  In board boards -> playable board ms = true ->
  In (play board ms) (frontier (length ms) boards).
Proof.
  revert board boards. induction ms as [|m ms IH]; intros board boards Hin Hp.
  - exact Hin.
  - cbn [playable] in Hp. apply andb_prop in Hp. destruct Hp as [Hp Hrest].
    apply andb_prop in Hp. destruct Hp as [Hm Hw].
    apply existsb_exists in Hm. destruct Hm as (m' & Hm' & Heq).
    apply move_eqb_eq in Heq. subst m'.
    cbn [length frontier play fold_left]. apply (IH (child board m)); [|assumption].
    apply in_next_frontier. exists board. split; [assumption|].
    split; [apply in_map; assumption|].
    apply negb_true_iff. assumption.
Qed.

Lemma in_all_dead_ends i k boards d :
  (i < k)%nat -> In d (dead_ends (frontier i boards)) ->
  In d (all_dead_ends k boards).
Proof.
  revert i boards. induction k as [|k IH]; intros i boards Hi Hd; [lia|].
  cbn [all_dead_ends]. apply in_or_app. destruct i as [|i].
  - left. exact Hd.
  - right. apply (IH i); [lia|exact Hd].
Qed.

Lemma newly_won_all_won boards : Forall (fun b => is_won b = true) (newly_won boards).
Proof.
  apply List.Forall_forall. intros b Hb. apply in_newly_won in Hb.
  destruct Hb as (_ & _ & _ & H). exact H.
Qed.

Lemma frontier_step i boards :
  frontier (S i) boards = next_frontier (frontier i boards).
Proof.
  replace (S i) with (i + 1)%nat by lia. rewrite frontier_add. reflexivity.
Qed.

Lemma frontier_wf i boards : Forall wf boards -> Forall wf (frontier i boards).
Proof.
  revert boards. induction i as [|i IH]; intros boards H; [exact H|].
  cbn [frontier]. apply IH. apply next_frontier_wf. exact H.
Qed.

(** The won boards and the dead ends of the generation steps [0 .. k - 1]. *)
Lemma all_won_by_generation k boards :
  all_won k boards =
  concat (map (fun i => newly_won (frontier i boards)) (seq 0 k)).
Proof.
  revert boards. induction k as [|k IH]; intros boards; [reflexivity|].
  cbn [all_won seq map concat]. rewrite IH. f_equal. f_equal.
  rewrite <- seq_shift, List.map_map. reflexivity.
Qed.

Lemma all_dead_ends_by_generation k boards :
  all_dead_ends k boards =
  concat (map (fun i => dead_ends (frontier i boards)) (seq 0 k)).
Proof.
  revert boards. induction k as [|k IH]; intros boards; [reflexivity|].
  cbn [all_dead_ends seq map concat]. rewrite IH. f_equal. f_equal.
  rewrite <- seq_shift, List.map_map. reflexivity.
Qed.

(** C1, on [solve].  From every valid starting position the loop ends, at
    the first generation whose frontier is empty and within fifteen rounds.
    Round [i] calls [increment_boards] on the frontier of generation [i],
    which gives the next frontier, the boards won and the dead ends of that
    generation; what [solve] hands over is the won boards of all the rounds
    and the dead ends of all the rounds, in the order of the rounds.  The
    older search [find_solutions] of [core.py], run from the same root, ends
    after the same rounds and returns the first of the two lists. *)
Theorem solve_returns_the_boards_of_every_generation
        (empty_position : Z) (fuel : nat) :
  in_range empty_position -> (15 <= fuel)%nat ->
  exists root generations,
    Board_init empty_position None = Ok root /\
    (length generations <= 15)%nat /\
    (forall i, (i < length generations)%nat -> frontier i [root] <> []) /\
    frontier (length generations) [root] = [] /\
    (forall i won_boards lost_boards,
       generations !! i = Some (won_boards, lost_boards) ->
       commands.increment_boards (frontier i [root]) =
       Ok (frontier (S i) [root], won_boards, lost_boards)) /\
    commands.solve fuel empty_position =
    Some (Ok (concat (map fst generations), concat (map snd generations))) /\
    core.find_solutions fuel root = Some (Ok (concat (map fst generations))).
Proof.
  intros Hp Hfuel.
  destruct (solve_collects_every_generation empty_position Hp)
    as (root & k & Hinit & Hk & Hempty & Hbefore & Hsolve).
  destruct (Board_init_ok empty_position None Hp)
    as (root' & Hinit' & Hwf & _ & _ & _ & Hcount).
  assert (root' = root) by congruence. subst root'.
  assert (Hwfs : Forall wf [root]) by (constructor; [assumption|constructor]).
  set (generations :=
         map (fun i => (newly_won (frontier i [root]), dead_ends (frontier i [root])))
             (seq 0 k)).
  assert (Hlen : length generations = k).
  { unfold generations. rewrite length_map, length_seq. reflexivity. }
  assert (Hfst : concat (map fst generations) = all_won k [root]).
  { unfold generations. rewrite List.map_map. cbn [fst].
    symmetry. apply all_won_by_generation. }
  assert (Hsnd : concat (map snd generations) = all_dead_ends k [root]).
  { unfold generations. rewrite List.map_map. cbn [snd].
    symmetry. apply all_dead_ends_by_generation. }
  exists root, generations. rewrite Hlen, Hfst, Hsnd.
  split; [exact Hinit|]. split; [exact Hk|]. split; [exact Hbefore|].
  split; [exact Hempty|]. split; [|split].
  - intros i won_boards lost_boards Hi. unfold generations in Hi.
    change (map ?f ?l) with (f <$> l) in Hi.
    rewrite list_lookup_fmap in Hi.
    destruct (seq 0 k !! i) as [n|] eqn:En; [|discriminate Hi].
    apply lookup_seq in En. destruct En as [-> _]. cbn in Hi.
    injection Hi as <- <-.
    rewrite commands_increment_boards_ok by (apply frontier_wf; exact Hwfs).
    rewrite frontier_step. reflexivity.
  - apply Hsolve. exact Hfuel.
  - assert (Hend : frontier fuel [root] = []).
    { apply (frontier_stays_empty k fuel); [lia|exact Hempty]. }
    destruct (find_solutions_loop_ok fuel [root] [] Hwfs Hend)
      as (k' & _ & Hempty' & Hbefore' & Hrun').
    assert (k' = k).
    { destruct (Nat.lt_trichotomy k' k) as [Hlt|[Heq|Hgt]]; [|exact Heq|].
      - exfalso. apply (Hbefore k' Hlt). exact Hempty'.
      - exfalso. apply (Hbefore' k Hgt). exact Hempty. }
    subst k'. unfold core.find_solutions. rewrite Hrun'.
    rewrite (all_won_is_last_generation k [root] 14 Hwfs); try assumption;
      [reflexivity|].
    constructor; [exact Hcount|constructor].
Qed.

(** ** [consolidate_solutions] *)

(** C9.  When some board of the list is not won, [consolidate_solutions]
    returns normally, and what it returns is a [ValueError] object in place of
    the solution sets. *)
Theorem consolidate_solutions_returns_error
        (object_id : Board -> Z) (boards : list Board) :
  (exists board, In board boards /\ is_won board = false) ->
  exists msg,
    core.consolidate_solutions object_id boards = Ok (core.ErrorObject (ValueError msg)).
Proof.
  intros (board & Hin & Hw). unfold core.consolidate_solutions.
  destruct (List.find (fun board => negb (is_won board)) boards) as [b|] eqn:E.
  - eauto.
  - exfalso. pose proof (find_none _ _ E board Hin) as H. cbn beta in H.
    rewrite Hw in H. discriminate H.
Qed.

(** ** [findtransformations] *)

(** For one transformation, the scan of the unique configurations hands back
    the first entry, in list order, whose board equals the transformed board. *)
Lemma check_transformation_first_match board tx unique_configurations :
  wf board -> Forall pair_in_range tx ->
  Forall (fun entry => wf (snd entry)) unique_configurations ->
  commands.check_transformation board tx unique_configurations =
  Ok (option_map fst
        (List.find
           (fun entry =>
              bool_decide (substitute (pins board) tx (pins board) = pins (snd entry)))
           unique_configurations)).
Proof.
  intros Hwf Htx Hu. unfold commands.check_transformation.
  rewrite copy_ok by assumption. rewrite bind_Ok.
  unfold run_on. rewrite transform_ok by (try apply wf_copy; assumption).
  rewrite bind_Ok.
  set (t_board := with_pins _ _).
  assert (Wt : wf t_board).
  { apply wf_with_pins; [apply wf_copy; assumption|].
    rewrite length_substitute. apply Hwf. }
  induction Hu as [|[unique_conf unique_board] rest Hb _ IH]; [reflexivity|].
  cbn [snd] in Hb. cbn [List.find snd commands.first_equal].
  rewrite Board_eq_spec by assumption. rewrite bind_Ok.
  change (pins t_board) with (substitute (pins board) tx (pins board)).
  destruct (bool_decide (substitute (pins board) tx (pins board) = pins unique_board));
    [reflexivity|exact IH].
Qed.

(** C2, on the stored configurations 16383 (position 0 empty) and 32766
    (position 14 empty).  The first is unique; for the second the loop over
    the transformations does not stop at its first match, and two rows are
    added to the session, one for each transformation that matches.  The two
    rows have the same primary key, so the commit that follows the loop fails
    with [IntegrityError], whatever the table held before. *)
Theorem findtransformations_records_every_match :
  let unique_conf := commands.mkConfiguration 16383 false in
  let working_conf := commands.mkConfiguration 32766 false in
  commands.findtransformations_loop [unique_conf; working_conf] =
  Ok ([commands.mkTransformation unique_conf working_conf
         "Counter-clockwise rotation";
       commands.mkTransformation unique_conf working_conf
         "Counter-clockwise rotation and reflection"],
      [(unique_conf,
        mkBoard [false; true; true; true; true; true; true; true; true; true;
                 true; true; true; true; true] None 14)]) /\
  forall table,
    commands.findtransformations table [unique_conf; working_conf] =
    Raise IntegrityError.
Proof.
  cbv zeta.
  assert (Hloop : commands.findtransformations_loop
                    [commands.mkConfiguration 16383 false;
                     commands.mkConfiguration 32766 false] =
                  Ok ([commands.mkTransformation
                         (commands.mkConfiguration 16383 false)
                         (commands.mkConfiguration 32766 false)
                         "Counter-clockwise rotation";
                       commands.mkTransformation
                         (commands.mkConfiguration 16383 false)
                         (commands.mkConfiguration 32766 false)
                         "Counter-clockwise rotation and reflection"],
                      [(commands.mkConfiguration 16383 false,
                        mkBoard [false; true; true; true; true; true; true; true;
                                 true; true; true; true; true; true; true]
                                None 14)]))
    by (vm_compute; reflexivity).
  split; [exact Hloop|].
  intros table. unfold commands.findtransformations.
  rewrite Hloop, bind_Ok. cbn [commands.commit].
  destruct (bool_decide _); [reflexivity|].
  rewrite bool_decide_eq_true_2; [reflexivity|].
  rewrite map_app. apply elem_of_app. right. cbn. left.
Qed.

(** * The theorems at work on the initial board *)

Lemma wf_board14 : wf board14.
Proof. split; [reflexivity|]. unfold in_range. cbn. lia. Defined.

Lemma solve_returns_the_boards_of_every_generation_witness :
  exists root generations,
    Board_init 14 None = Ok root /\
    (length generations <= 15)%nat /\
    (forall i, (i < length generations)%nat -> frontier i [root] <> []) /\
    frontier (length generations) [root] = [] /\
    (forall i won_boards lost_boards,
       generations !! i = Some (won_boards, lost_boards) ->
       commands.increment_boards (frontier i [root]) =
       Ok (frontier (S i) [root], won_boards, lost_boards)) /\
    commands.solve 15 14 =
    Some (Ok (concat (map fst generations), concat (map snd generations))) /\
    core.find_solutions 15 root = Some (Ok (concat (map fst generations))).
Proof.
  apply (solve_returns_the_boards_of_every_generation 14 15);
    [unfold in_range|]; lia.
Defined.

Lemma transform_checks_range_only_witness :
  wf board14 /\ valid_permutation Reflection /\
  exists self',
    transform Reflection board14 = (Ok tt, self') /\
    forall prev_pos new_pos,
      In (prev_pos, new_pos) Reflection ->
      pin_status new_pos self' = pin_status prev_pos board14.
Proof.
  assert (Hv : valid_permutation Reflection).
  { split; apply (bool_decide_unpack _); vm_compute; exact I. }
  split; [exact wf_board14|]. split; [exact Hv|].
  exact (proj2 (proj2 (transform_checks_range_only board14 Reflection wf_board14)) Hv).
Defined.

Lemma move_raises_or_jumps_witness :
  exists s e j,
    pin_status 9 board14 = Ok s /\
    pin_status 14 board14 = Ok e /\
    pin_status 12 board14 = Ok j /\
    if negb s || e || negb j
    then exists msg, move 9 14 12 board14 = (Raise (ValueError msg), board14)
    else exists self',
        move 9 14 12 board14 = (Ok tt, self') /\
        wf self' /\
        pin_status 9 self' = Ok false /\
        pin_status 12 self' = Ok false /\
        pin_status 14 self' = Ok true /\
        (forall q, in_range q -> q <> 9 -> q <> 12 -> q <> 14 ->
                   pin_status q self' = pin_status q board14) /\
        previous_board self' = previous_board board14 /\
        empty_position self' = empty_position board14.
Proof.
  apply (move_raises_or_jumps board14 9 14 12 wf_board14);
    unfold in_range; lia.
Defined.

Lemma moves_apply_and_remove_one_pin_witness :
  exists ms,
    moves board14 = Ok ms /\
    forall start end_ jump,
      In (start, end_, jump) ms ->
      exists self',
        move start end_ jump board14 = (Ok tt, self') /\
        (occupied_count self' + 1 = occupied_count board14)%nat.
Proof. exact (moves_apply_and_remove_one_pin board14 wf_board14). Defined.

Lemma decode_encode_round_trip_witness :
  exists board,
    from_configuration_id 32766 = Ok board /\
    wf board /\
    (forall position, in_range position ->
                      pin_status position board = Ok (Z.testbit 32766 (14 - position))) /\
    String.length (Board_str board) = 15%nat /\
    configuration_id board = Some 32766.
Proof. apply (decode_encode_round_trip 32766). lia. Defined.

Lemma transform_then_inverse_witness :
  exists t_board back,
    transform Clockwise_rotation board14 = (Ok tt, t_board) /\
    transform (inverse Clockwise_rotation) t_board = (Ok tt, back) /\
    Board_eq back board14 = Ok true /\
    back = board14.
Proof.
  apply (transform_then_inverse board14 "Clockwise rotation" Clockwise_rotation
           wf_board14).
  right. left. reflexivity.
Defined.

Lemma consolidate_solutions_returns_error_witness :
  exists msg,
    core.consolidate_solutions (fun _ => 0) [board14] =
    Ok (core.ErrorObject (ValueError msg)).
Proof.
  apply (consolidate_solutions_returns_error (fun _ => 0) [board14]).
  exists board14. split; [left; reflexivity|reflexivity].
Defined.

Lemma valid_moves_reversible_witness :
  exists rules,
    valid_moves_for_position 9 = Ok rules /\
    forall start end_ jump,
      In (start, end_, jump) rules ->
      start = 9 /\
      start <> end_ /\ start <> jump /\ end_ <> jump /\
      in_range start /\ in_range end_ /\ in_range jump /\
      exists rules',
        valid_moves_for_position end_ = Ok rules' /\
        In (end_, start, jump) rules'.
Proof. apply (valid_moves_reversible 9). unfold in_range. lia. Defined.

(** * Further properties of the code *)

(** ** Constructing a board *)

Lemma validate_message position :
  ~ in_range position ->
  _validate_position position None =
  Raise (ValueError "position out of range (must be 0 through 14)").
Proof.
  intros H. unfold _validate_position, in_range in *.
  destruct (Z.leb_spec 0 position), (Z.leb_spec position 14); try lia; reflexivity.
Qed.

Lemma validate_named_message position (name : string) :
  ~ in_range position -> name <> EmptyString ->
  _validate_position position (Some name) =
  Raise (ValueError (String.append name " out of range (must be 0 through 14)")).
Proof.
  intros H Hn. unfold _validate_position, in_range in *.
  destruct name as [|c n]; [congruence|].
  destruct (Z.leb_spec 0 position), (Z.leb_spec position 14); try lia; reflexivity.
Qed.

(** [Board(empty_position, previous_board)] with a valid position: the pin at
    [empty_position] is missing and the fourteen others are set, so the board
    is not won; the two arguments are kept as given. *)
Theorem Board_init_fresh (empty_pos : Z) (previous : option Board) :
  in_range empty_pos ->
  exists board,
    Board_init empty_pos previous = Ok board /\
    wf board /\
    previous_board board = previous /\
    empty_position board = empty_pos /\
    (forall q, in_range q -> pin_status q board = Ok (negb (q =? empty_pos))) /\
    length (occupied_positions board) = 14%nat /\
    ~ In empty_pos (occupied_positions board) /\
    is_won board = false.
Proof.
  intros H.
  destruct (Board_init_ok empty_pos previous H)
    as (board & Hinit & Hwf & Hprev & Hep & Hocc & Hcount).
  exists board. repeat (split; [assumption|]).
  split; [intros q Hq; rewrite pin_status_ok by assumption; f_equal; auto|].
  split; [exact Hcount|].
  split.
  - intros Hin. apply occupied_positions_spec in Hin; [|assumption].
    destruct Hin as [_ Hin]. rewrite Hocc in Hin by assumption.
    rewrite Z.eqb_refl in Hin. discriminate Hin.
  - rewrite is_won_count. rewrite Hcount. reflexivity.
Qed.

Lemma Board_init_fresh_witness :
  exists board,
    Board_init 4 (Some board14) = Ok board /\
    wf board /\
    previous_board board = Some board14 /\
    empty_position board = 4 /\
    (forall q, in_range q -> pin_status q board = Ok (negb (q =? 4))) /\
    length (occupied_positions board) = 14%nat /\
    ~ In 4 (occupied_positions board) /\
    is_won board = false.
Proof. apply (Board_init_fresh 4 (Some board14)). unfold in_range. lia. Defined.

(** A start position outside [0, 14] is refused by the constructor with a
    [ValueError] naming [empty_position], and [solve] passes that exception on
    before any generation is computed, whatever the bound on its loop. *)
Theorem invalid_start_is_refused (empty_pos : Z) (previous : option Board) (fuel : nat) :
  ~ in_range empty_pos ->
  Board_init empty_pos previous =
  Raise (ValueError "empty_position out of range (must be 0 through 14)") /\
  commands.solve fuel empty_pos =
  Some (Raise (ValueError "empty_position out of range (must be 0 through 14)")).
Proof.
  intros H.
  assert (E : forall prev, Board_init empty_pos prev =
            Raise (ValueError "empty_position out of range (must be 0 through 14)")).
  { intros prev. unfold Board_init.
    rewrite (validate_named_message empty_pos "empty_position" H) by discriminate.
    reflexivity. }
  split; [apply E|]. unfold commands.solve. rewrite E. reflexivity.
Qed.

Lemma invalid_start_is_refused_witness :
  Board_init 15 None =
  Raise (ValueError "empty_position out of range (must be 0 through 14)") /\
  commands.solve 3 15 =
  Some (Raise (ValueError "empty_position out of range (must be 0 through 14)")).
Proof. apply (invalid_start_is_refused 15 None 3). unfold in_range. lia. Defined.

(** ** Reading and writing pins *)

(** Outside [0, 14] every accessor raises the same [ValueError]; the setter
    does so before it touches the board. *)
Theorem accessors_refuse_positions_out_of_range
        (position : Z) (status : bool) (self : Board) :
  ~ in_range position ->
  let e := ValueError "position out of range (must be 0 through 14)" in
  pin_status position self = Raise e /\
  set_pin_status position status self = (Raise e, self) /\
  moves_for_position position self = Raise e /\
  valid_moves_for_position position = Raise e.
Proof.
  intros H e. pose proof (validate_message position H) as E.
  unfold pin_status, set_pin_status, moves_for_position, valid_moves_for_position,
    mbind, meth_bind, mbind_meth, reading.
  rewrite E. repeat split.
Qed.

Lemma accessors_refuse_positions_out_of_range_witness :
  pin_status (-1) board14 =
  Raise (ValueError "position out of range (must be 0 through 14)") /\
  set_pin_status (-1) true board14 =
  (Raise (ValueError "position out of range (must be 0 through 14)"), board14) /\
  moves_for_position (-1) board14 =
  Raise (ValueError "position out of range (must be 0 through 14)") /\
  valid_moves_for_position (-1) =
  Raise (ValueError "position out of range (must be 0 through 14)").
Proof.
  apply (accessors_refuse_positions_out_of_range (-1) true board14).
  unfold in_range. lia.
Defined.

(** [set_pin_status] then [pin_status]: the written position reads back the
    written value, every other position reads as before, and the history
    fields of the board are not touched. *)
Theorem set_then_get (self : Board) (position : Z) (status : bool) :
  wf self -> in_range position ->
  exists self',
    set_pin_status position status self = (Ok tt, self') /\
    wf self' /\
    pin_status position self' = Ok status /\
    (forall q, q <> position -> pin_status q self' = pin_status q self) /\
    previous_board self' = previous_board self /\
    empty_position self' = empty_position self.
Proof.
  intros Hwf Hp. eexists. split; [apply set_pin_status_ok; assumption|].
  assert (W : wf (with_pins self (<[Z.to_nat position := status]> (pins self)))).
  { apply wf_with_pins; [assumption|]. rewrite length_insert. apply Hwf. }
  split; [exact W|]. split; [|split; [|split; reflexivity]].
  - rewrite pin_status_ok by assumption.
    rewrite occupied_with_pins_insert by assumption.
    destruct (Z.eq_dec position position); [reflexivity|contradiction].
  - intros q Hq. destruct (in_range_dec q) as [Hr|Hr].
    + rewrite !pin_status_ok by assumption.
      rewrite occupied_with_pins_insert by assumption.
      destruct (Z.eq_dec q position); [contradiction|reflexivity].
    + unfold pin_status. rewrite (validate_message q Hr). reflexivity.
Qed.

Lemma set_then_get_witness :
  exists self',
    set_pin_status 14 true board14 = (Ok tt, self') /\
    wf self' /\
    pin_status 14 self' = Ok true /\
    (forall q, q <> 14 -> pin_status q self' = pin_status q board14) /\
    previous_board self' = previous_board board14 /\
    empty_position self' = empty_position board14.
Proof.
  apply (set_then_get board14 14 true wf_board14). unfold in_range. lia.
Defined.

(** [Board.move] with a position outside [0, 14]: a [ValueError] and an
    unchanged board, whatever the pins are. *)
Theorem move_refuses_positions_out_of_range (self : Board) (start end_ jump : Z) :
  ~ (in_range start /\ in_range end_ /\ in_range jump) ->
  exists msg, move start end_ jump self = (Raise (ValueError msg), self).
Proof.
  intros H. unfold move, mbind, meth_bind, mbind_meth, reading.
  destruct (in_range_dec start) as [Hs|Hs].
  - rewrite (validate_ok start) by assumption.
    destruct (in_range_dec end_) as [He|He].
    + rewrite (validate_ok end_) by assumption.
      destruct (in_range_dec jump) as [Hj|Hj]; [tauto|].
      destruct (validate_raises jump (Some "jump"%string) Hj) as [msg ->]. eauto.
    + destruct (validate_raises end_ (Some "end"%string) He) as [msg ->]. eauto.
  - destruct (validate_raises start (Some "start"%string) Hs) as [msg ->]. eauto.
Qed.

Lemma move_refuses_positions_out_of_range_witness :
  exists msg, move 9 15 12 board14 = (Raise (ValueError msg), board14).
Proof.
  apply (move_refuses_positions_out_of_range board14 9 15 12).
  unfold in_range. lia.
Defined.

(** ** Equality and copies *)

Lemma pins_eq_iff (a b : Board) :
  wf a -> wf b ->
  pins a = pins b <-> forall q, in_range q -> occupied q a = occupied q b.
Proof.
  intros [Ha _] [Hb _]. unfold occupied, in_range. split.
  - intros -> q _. reflexivity.
  - intros H. apply list_eq. intros i.
    destruct (Nat.lt_ge_cases i 15) as [Hi|Hi].
    + specialize (H (Z.of_nat i) ltac:(lia)). rewrite Nat2Z.id in H.
      rewrite !nth_lookup in H.
      destruct (lookup_lt_is_Some_2 (pins a) i ltac:(lia)) as [x Hx].
      destruct (lookup_lt_is_Some_2 (pins b) i ltac:(lia)) as [y Hy].
      rewrite Hx, Hy in *. cbn in H. congruence.
    + rewrite !(proj2 (lookup_ge_None _ _)) by lia. reflexivity.
Qed.

(** [a == b] on two boards never raises, and is [True] exactly when the two
    boards agree at each of the fifteen positions; where the boards come from
    ([previous_board]) and how they started ([empty_position]) is not
    compared. *)
Theorem Board_eq_compares_pins_only (a b : Board) :
  wf a -> wf b ->
  exists r,
    Board_eq a b = Ok r /\
    (r = true <-> forall q, in_range q -> pin_status q a = pin_status q b).
Proof.
  intros Ha Hb. exists (bool_decide (pins a = pins b)).
  split; [apply Board_eq_spec; assumption|].
  rewrite bool_decide_eq_true, (pins_eq_iff a b Ha Hb). split.
  - intros H q Hq. rewrite !pin_status_ok by assumption. f_equal. auto.
  - intros H q Hq. specialize (H q Hq). rewrite !pin_status_ok in H by assumption.
    congruence.
Qed.

Lemma Board_eq_compares_pins_only_witness :
  exists r,
    Board_eq board14 (mkBoard (pins board14) (Some board14) 3) = Ok r /\
    (r = true <->
     forall q, in_range q ->
               pin_status q board14 =
               pin_status q (mkBoard (pins board14) (Some board14) 3)).
Proof.
  apply (Board_eq_compares_pins_only board14 _ wf_board14).
  split; [reflexivity|]. unfold in_range. cbn. lia.
Defined.

(** [copy] returns a board that compares equal to the original, remembers the
    original as its [previous_board] and keeps its [empty_position]. *)
Theorem copy_is_an_equal_board_with_history (self : Board) :
  wf self ->
  exists board,
    copy self = Ok board /\
    wf board /\
    previous_board board = Some self /\
    empty_position board = empty_position self /\
    (forall q, pin_status q board = pin_status q self) /\
    Board_eq board self = Ok true /\
    Board_str board = Board_str self.
Proof.
  intros Hwf. eexists. split; [apply copy_ok; assumption|].
  pose proof (wf_copy self Hwf) as W.
  split; [exact W|]. split; [reflexivity|]. split; [reflexivity|].
  split; [reflexivity|]. split; [|reflexivity].
  rewrite Board_eq_spec by assumption. f_equal.
  apply bool_decide_eq_true. reflexivity.
Qed.

Lemma copy_is_an_equal_board_with_history_witness :
  exists board,
    copy board14 = Ok board /\
    wf board /\
    previous_board board = Some board14 /\
    empty_position board = empty_position board14 /\
    (forall q, pin_status q board = pin_status q board14) /\
    Board_eq board board14 = Ok true /\
    Board_str board = Board_str board14.
Proof. exact (copy_is_an_equal_board_with_history board14 wf_board14). Defined.

(** ** Winning and moving *)

(** [is_won] holds exactly when [occupied_positions] has one element. *)
Theorem is_won_iff_one_pin (self : Board) :
  is_won self = true <-> exists position, occupied_positions self = [position].
Proof.
  rewrite is_won_count, Nat.eqb_eq. unfold occupied_count.
  destruct (occupied_positions self) as [|p [|q l]]; cbn [length]; split.
  - discriminate.
  - intros [p H]. discriminate H.
  - eauto.
  - reflexivity.
  - discriminate.
  - intros [r H]. discriminate H.
Qed.

(** [moves] returns exactly the legal jumps: the triples of the rule table of
    their start whose start and jumped positions hold a pin and whose end
    position holds none. *)
Theorem moves_are_exactly_the_legal_jumps (self : Board) :
  wf self ->
  exists ms,
    moves self = Ok ms /\
    forall start end_ jump,
      In (start, end_, jump) ms <->
      (exists rules,
          valid_moves_for_position start = Ok rules /\
          In (start, end_, jump) rules) /\
      pin_status start self = Ok true /\
      pin_status end_ self = Ok false /\
      pin_status jump self = Ok true.
Proof.
  intros Hwf. exists (all_moves self). split; [apply moves_ok; assumption|].
  intros s e j. rewrite all_moves_spec by assumption. split.
  - intros (Hr & Hin & Hs & He & Hj).
    destruct (rule_table_shape _ _ _ _ Hr Hin) as (_ & Hre & Hrj & _).
    rewrite !pin_status_ok by assumption. rewrite Hs, He, Hj.
    split; [|auto]. exists (rule_table s).
    split; [apply valid_moves_for_position_ok|]; assumption.
  - intros ((rules & Hrules & Hin) & Hs & He & Hj).
    destruct (in_range_dec s) as [Hr|Hr].
    + rewrite valid_moves_for_position_ok in Hrules by assumption.
      inversion Hrules; subst rules.
      destruct (rule_table_shape _ _ _ _ Hr Hin) as (_ & Hre & Hrj & _).
      rewrite pin_status_ok in Hs by assumption.
      rewrite pin_status_ok in He by assumption.
      rewrite pin_status_ok in Hj by assumption.
      split; [exact Hr|]. split; [exact Hin|]. repeat split; congruence.
    + unfold pin_status in Hs. destruct (validate_raises s None Hr) as [msg E].
      rewrite E in Hs. discriminate Hs.
Qed.

Lemma moves_are_exactly_the_legal_jumps_witness :
  exists ms,
    moves board14 = Ok ms /\
    forall start end_ jump,
      In (start, end_, jump) ms <->
      (exists rules,
          valid_moves_for_position start = Ok rules /\
          In (start, end_, jump) rules) /\
      pin_status start board14 = Ok true /\
      pin_status end_ board14 = Ok false /\
      pin_status jump board14 = Ok true.
Proof. exact (moves_are_exactly_the_legal_jumps board14 wf_board14). Defined.

Lemma occupied_counts (l : list bool) (i : nat) :
  nth i l false = true -> (1 <= length (List.filter (fun s => s) l))%nat.
Proof.
  revert i. induction l as [|x l IH]; intros i H.
  - destruct i; discriminate H.
  - destruct i as [|i]; cbn [nth] in H.
    + subst x. cbn. lia.
    + specialize (IH i H). destruct x; cbn [List.filter length]; lia.
Qed.

Lemma a_move_needs_two_pins self m :
  wf self -> In m (all_moves self) -> (2 <= occupied_count self)%nat.
Proof.
  intros Hwf Hin. destruct m as [[s e] j].
  destruct (child_count self s e j Hwf Hin) as [Wc Hcount].
  apply all_moves_spec in Hin; [|assumption].
  destruct Hin as (Hr & Ht & _).
  destruct (rule_table_shape _ _ _ _ Hr Ht) as (_ & Hre & _).
  assert (H1 : (1 <= occupied_count (child self (s, e, j)))%nat).
  { rewrite occupied_count_pins. apply (occupied_counts _ (Z.to_nat e)).
    cbn [child pins]. rewrite nth_lookup, list_lookup_insert_eq; [reflexivity|].
    rewrite !length_insert. destruct Hwf as [Hl _]. unfold in_range in *. lia. }
  lia.
Qed.

Lemma no_moves_below_two_pins self :
  wf self -> (occupied_count self < 2)%nat -> moves self = Ok [].
Proof.
  intros Hwf Hlt. rewrite moves_ok by assumption.
  destruct (all_moves self) as [|m ms] eqn:E; [reflexivity|].
  pose proof (a_move_needs_two_pins self m Hwf) as H2.
  rewrite E in H2. specialize (H2 (or_introl eq_refl)). lia.
Qed.

(** A board with fewer than two pins has no moves; in particular a won board
    has none. *)
Theorem no_moves_with_fewer_than_two_pins (self : Board) :
  wf self ->
  ((length (occupied_positions self) < 2)%nat -> moves self = Ok []) /\
  (is_won self = true -> moves self = Ok []).
Proof.
  intros Hwf. split; [apply no_moves_below_two_pins; assumption|].
  intros Hw. apply no_moves_below_two_pins; [assumption|].
  rewrite is_won_count in Hw. apply Nat.eqb_eq in Hw. lia.
Qed.

Lemma no_moves_with_fewer_than_two_pins_witness :
  ((length (occupied_positions (mkBoard 
      [false; false; false; true; false; false; false; false; false; false; false; false; false; false; false] None 14)) < 2)%nat ->
   moves (mkBoard 
      [false; false; false; true; false; false; false; false; false; false; false; false; false; false; false] None 14) = Ok []) /\
  (is_won (mkBoard 
      [false; false; false; true; false; false; false; false; false; false; false; false; false; false; false] None 14) = true ->
   moves (mkBoard 
      [false; false; false; true; false; false; false; false; false; false; false; false; false; false; false] None 14) = Ok []).
Proof.
  apply (no_moves_with_fewer_than_two_pins
           (mkBoard 
      [false; false; false; true; false; false; false; false; false; false; false; false; false; false; false] None 14)).
  split; [reflexivity|]. unfold in_range. cbn. lia.
Defined.

Lemma flat_map_occupied {B : Type} (f : Z -> list B) (l : list bool) (k : nat) :
  (forall i, (i < length l)%nat -> nth i l false = false -> f (Z.of_nat (k + i)) = []) ->
  flat_map f
    (map fst (List.filter (fun '(_, status) => Bool.eqb status true)
                          (imap (fun i s => (Z.of_nat (k + i), s)) l)))
  = flat_map f (map Z.of_nat (seq k (length l))).
Proof.
  revert k. induction l as [|x l IH]; intros k H; [reflexivity|].
  cbn [imap List.filter length seq map flat_map].
  assert (Hrest :
    flat_map f
      (map fst (List.filter (fun '(_, status) => Bool.eqb status true)
                  (imap ((fun i s => (Z.of_nat (k + i), s)) ∘ S) l)))
    = flat_map f (map Z.of_nat (seq (S k) (length l)))).
  { rewrite <- (IH (S k)).
    - f_equal. f_equal. f_equal. apply imap_ext. intros i y _. cbn.
      f_equal. f_equal. lia.
    - intros i Hi Hn. replace (S k + i)%nat with (k + S i)%nat by lia.
      apply H; [cbn [length]; lia|exact Hn]. }
  replace (k + 0)%nat with k by lia.
  destruct x; cbn [Bool.eqb map fst flat_map].
  - rewrite Hrest. reflexivity.
  - rewrite Hrest.
    specialize (H 0%nat ltac:(cbn [length]; lia) eq_refl).
    replace (k + 0)%nat with k in H by lia. rewrite H. reflexivity.
Qed.

(** [moves] lists the moves position by position, from 0 to 14, and for each
    position in the order of its rules: it is the concatenation of
    [moves_for_position], which is empty where no pin stands and otherwise
    holds, in their order, the rules of [valid_moves_for_position] for that
    position whose end position holds no pin and whose jumped position holds
    one; they all start at that position. *)
Theorem moves_go_position_by_position (self : Board) :
  wf self ->
  exists per_position : Z -> list (Z * Z * Z),
    (forall position, in_range position ->
       moves_for_position position self = Ok (per_position position)) /\
    (forall position, in_range position -> pin_status position self = Ok false ->
       per_position position = []) /\
    (forall position, in_range position -> pin_status position self = Ok true ->
       exists rules,
         valid_moves_for_position position = Ok rules /\
         per_position position =
         List.filter (fun '(_, end_, jump) =>
                        negb (occupied end_ self) && occupied jump self) rules /\
         forall start end_ jump, In (start, end_, jump) rules ->
           pin_status end_ self = Ok (occupied end_ self) /\
           pin_status jump self = Ok (occupied jump self)) /\
    (forall position start end_ jump,
       in_range position -> In (start, end_, jump) (per_position position) ->
       start = position) /\
    moves self = Ok (flat_map per_position all_positions).
Proof.
  intros Hwf. exists (fun position => moves_from position self).
  split; [intros; apply moves_for_position_ok; assumption|].
  split; [|split; [|split]].
  - intros position Hr Hp. rewrite pin_status_ok in Hp by assumption.
    unfold moves_from. inversion Hp as [Hocc]. rewrite Hocc. reflexivity.
  - intros position Hr Hp. rewrite pin_status_ok in Hp by assumption.
    exists (rule_table position).
    split; [apply valid_moves_for_position_ok; exact Hr|]. split.
    + unfold moves_from. inversion Hp as [Hocc]. rewrite Hocc. cbn [negb].
      apply List.filter_ext. intros [[s e] j]. reflexivity.
    + intros s e j Hin.
      destruct (rule_table_shape _ _ _ _ Hr Hin) as (_ & He & Hj & _).
      split; apply pin_status_ok; assumption.
  - intros position s e j Hr Hin. unfold moves_from in Hin.
    destruct (occupied position self); cbn [negb] in Hin; [|destruct Hin].
    apply filter_In in Hin. destruct Hin as [Hin _].
    apply (rule_table_shape _ _ _ _ Hr Hin).
  - rewrite moves_ok by assumption. unfold all_moves, occupied_positions, items.
    destruct Hwf as [Hl _].
    pose proof (flat_map_occupied (fun position => moves_from position self)
                                  (pins self) 0) as E.
    cbn [Nat.add] in E. rewrite E.
    + rewrite Hl. reflexivity.
    + intros i Hi Hn. unfold moves_from, occupied.
      rewrite Nat2Z.id, Hn. reflexivity.
Qed.

Lemma moves_go_position_by_position_witness :
  exists per_position : Z -> list (Z * Z * Z),
    (forall position, in_range position ->
       moves_for_position position board14 = Ok (per_position position)) /\
    (forall position, in_range position -> pin_status position board14 = Ok false ->
       per_position position = []) /\
    (forall position, in_range position -> pin_status position board14 = Ok true ->
       exists rules,
         valid_moves_for_position position = Ok rules /\
         per_position position =
         List.filter (fun '(_, end_, jump) =>
                        negb (occupied end_ board14) && occupied jump board14) rules /\
         forall start end_ jump, In (start, end_, jump) rules ->
           pin_status end_ board14 = Ok (occupied end_ board14) /\
           pin_status jump board14 = Ok (occupied jump board14)) /\
    (forall position start end_ jump,
       in_range position -> In (start, end_, jump) (per_position position) ->
       start = position) /\
    moves board14 = Ok (flat_map per_position all_positions).
Proof. exact (moves_go_position_by_position board14 wf_board14). Defined.

(** ** Encoding a board and decoding an id *)

Lemma all_pins_complete (l : list bool) : In l (all_pins (length l)).
Proof.
  induction l as [|x l IH]; [left; reflexivity|].
  cbn [length all_pins]. apply in_flat_map. exists l. split; [exact IH|].
  destruct x; cbn; auto.
Qed.

Lemma decodes_back_everywhere : forallb decodes_back (all_pins 15) = true.
Proof. vm_compute. reflexivity. Qed.

Lemma decodes_back_spec (self : Board) :
  wf self ->
  exists x board,
    configuration_id self = Some x /\ 0 <= x < 2 ^ 15 /\
    from_configuration_id x = Ok board /\
    pins board = pins self /\ previous_board board = None /\
    empty_position board = 14.
Proof.
  intros [Hl _].
  pose proof decodes_back_everywhere as H. rewrite forallb_forall in H.
  specialize (H (pins self)). rewrite <- Hl in H at 1.
  specialize (H (all_pins_complete (pins self))).
  unfold decodes_back in H.
  change (configuration_id (mkBoard (pins self) None 14))
    with (configuration_id self) in H.
  destruct (configuration_id self) as [x|] eqn:Hid; [|discriminate H].
  apply andb_prop in H. destruct H as [Hx H].
  apply andb_prop in Hx. destruct Hx as [H0 H15].
  destruct (from_configuration_id x) as [board|] eqn:Hd; [|discriminate H].
  apply andb_prop in H. destruct H as [H Hprev].
  apply andb_prop in H. destruct H as [Hp He].
  apply bool_decide_eq_true in Hp. apply Z.eqb_eq in He.
  exists x, board. split; [reflexivity|]. split; [lia|]. split; [exact Hd|].
  split; [exact Hp|]. split; [|exact He].
  destruct (previous_board board); [discriminate Hprev|reflexivity].
Qed.

(** Encoding then decoding: the configuration id of a board is a 15-bit
    value, and [from_configuration_id] of it is a board equal to the first,
    without history and with [empty_position] 14, whatever those were on the
    first board. *)
Theorem encode_decode_round_trip (self : Board) :
  wf self ->
  exists x board,
    configuration_id self = Some x /\ 0 <= x < 2 ^ 15 /\
    from_configuration_id x = Ok board /\
    Board_eq board self = Ok true /\
    (forall q, pin_status q board = pin_status q self) /\
    previous_board board = None /\
    empty_position board = 14.
Proof.
  intros Hwf.
  destruct (decodes_back_spec self Hwf) as (x & board & Hid & Hx & Hd & Hp & Hprev & He).
  exists x, board. repeat (split; [assumption|]).
  assert (W : wf board).
  { split; [rewrite Hp; apply Hwf|]. rewrite He. unfold in_range. lia. }
  split; [|split; [|split; assumption]].
  - rewrite Board_eq_spec by assumption. f_equal. apply bool_decide_eq_true. exact Hp.
  - intros q. unfold pin_status. rewrite Hp. reflexivity.
Qed.

Lemma encode_decode_round_trip_witness :
  exists x board,
    configuration_id stuck_board = Some x /\ 0 <= x < 2 ^ 15 /\
    from_configuration_id x = Ok board /\
    Board_eq board stuck_board = Ok true /\
    (forall q, pin_status q board = pin_status q stuck_board) /\
    previous_board board = None /\
    empty_position board = 14.
Proof.
  apply (encode_decode_round_trip stuck_board).
  split; [reflexivity|]. unfold in_range. cbn. lia.
Defined.

(** The configuration id tells boards apart exactly as [==] does: two boards
    have the same id if and only if they compare equal. *)
Theorem configuration_id_identifies_the_board (a b : Board) :
  wf a -> wf b ->
  configuration_id a = configuration_id b <-> Board_eq a b = Ok true.
Proof.
  intros Ha Hb. rewrite Board_eq_spec by assumption. split.
  - intros H.
    destruct (decodes_back_spec a Ha) as (x & ba & Hx & _ & Hda & Hpa & _).
    destruct (decodes_back_spec b Hb) as (y & bb & Hy & _ & Hdb & Hpb & _).
    rewrite Hx, Hy in H. inversion H; subst y.
    rewrite Hda in Hdb. inversion Hdb; subst bb.
    f_equal. apply bool_decide_eq_true. congruence.
  - intros H. inversion H as [Hp]. apply bool_decide_eq_true in Hp.
    unfold configuration_id, Board_str. rewrite Hp. reflexivity.
Qed.

Lemma configuration_id_identifies_the_board_witness :
  configuration_id board14 = configuration_id (mkBoard (pins board14) (Some stuck_board) 2)
  <-> Board_eq board14 (mkBoard (pins board14) (Some stuck_board) 2) = Ok true.
Proof.
  apply (configuration_id_identifies_the_board board14 _ wf_board14).
  split; [reflexivity|]. unfold in_range. cbn. lia.
Defined.


(** *** Ids that do not decode *)

Lemma size_nat_bound (p : positive) : Z.pos p < 2 ^ Z.of_nat (Pos.size_nat p).
Proof.
  induction p as [p IH|p IH|]; cbn [Pos.size_nat];
    rewrite ?Nat2Z.inj_succ, ?Z.pow_succ_r by lia; lia.
Qed.

Lemma bin_of_pos_chars (p : positive) (acc : string) :
  Forall (fun c => c = "0"%char \/ c = "1"%char) (list_ascii_of_string acc) ->
  Forall (fun c => c = "0"%char \/ c = "1"%char)
         (list_ascii_of_string (bin_of_pos p acc)) /\
  length (list_ascii_of_string (bin_of_pos p acc)) =
  (Pos.size_nat p + length (list_ascii_of_string acc))%nat.
Proof.
  revert acc. induction p as [p IH|p IH|]; intros acc H; cbn [bin_of_pos Pos.size_nat].
  - destruct (IH (String "1" acc)) as [H1 H2]; [constructor; auto|].
    split; [exact H1|]. rewrite H2. cbn [list_ascii_of_string length]. lia.
  - destruct (IH (String "0" acc)) as [H1 H2]; [constructor; auto|].
    split; [exact H1|]. rewrite H2. cbn [list_ascii_of_string length]. lia.
  - split; [constructor; auto|]. reflexivity.
Qed.

Lemma string_length_list (s : string) :
  String.length s = length (list_ascii_of_string s).
Proof. induction s as [|c s IH]; [reflexivity|]. cbn. rewrite IH. reflexivity. Qed.

Lemma decoding_too_many_digits (cs : list ascii) (k : nat) (board : Board) :
  Forall (fun c => c = "0"%char \/ c = "1"%char) cs ->
  (k <= 15)%nat -> (15 < k + length cs)%nat ->
  for_each (fun board '(pos, char) =>
              if Ascii.eqb char "1" then run_on (set_pin_status pos true) board
              else if Ascii.eqb char "0" then run_on (set_pin_status pos false) board
              else Raise (ValueError
                            (String.append "Invalid character in key: "
                                           (String char EmptyString))))
           (imap (fun i c => (Z.of_nat (k + i), c)) cs) board
  = Raise (ValueError "position out of range (must be 0 through 14)").
Proof.
  intros H. revert k board.
  induction H as [|c cs Hc _ IH]; intros k board Hk Hlen; cbn [length] in Hlen; [lia|].
  cbn [imap for_each]. replace (k + 0)%nat with k by lia.
  destruct (Nat.eq_dec k 15%nat) as [->|Hne].
  - assert (Hstep : forall v,
      run_on (set_pin_status (Z.of_nat 15%nat) v) board =
      Raise (ValueError "position out of range (must be 0 through 14)")).
    { intros v. unfold run_on, set_pin_status, mbind, meth_bind, mbind_meth, reading.
      rewrite validate_message by (unfold in_range; lia). reflexivity. }
    destruct Hc as [->| ->]; cbn [Ascii.eqb Bool.eqb andb]; rewrite Hstep; reflexivity.
  - assert (Hstep : forall v,
      run_on (set_pin_status (Z.of_nat k) v) board =
      Ok (with_pins board (<[Z.to_nat (Z.of_nat k) := v]> (pins board)))).
    { intros v. unfold run_on.
      rewrite set_pin_status_ok by (unfold in_range; lia). reflexivity. }
    assert (Hrest : forall board',
      for_each (fun board '(pos, char) =>
                  if Ascii.eqb char "1" then run_on (set_pin_status pos true) board
                  else if Ascii.eqb char "0" then run_on (set_pin_status pos false) board
                  else Raise (ValueError
                                (String.append "Invalid character in key: "
                                               (String char EmptyString))))
               (imap ((fun i c => (Z.of_nat (k + i), c)) ∘ S) cs) board'
      = Raise (ValueError "position out of range (must be 0 through 14)")).
    { intros board'. rewrite <- (IH (S k) board') by lia.
      f_equal. apply imap_ext. intros i y _. cbn. f_equal. f_equal. lia. }
    destruct Hc as [->| ->]; cbn [Ascii.eqb Bool.eqb andb]; rewrite Hstep;
      rewrite bind_Ok; apply Hrest.
Qed.

Lemma from_configuration_id_negative (x : Z) :
  x < 0 ->
  from_configuration_id x = Raise (ValueError "Invalid character in key: -").
Proof.
  intros Hx. unfold from_configuration_id, format_015b.
  rewrite (proj2 (Z.ltb_lt x 0) Hx). reflexivity.
Qed.

Lemma from_configuration_id_big (x : Z) :
  2 ^ 15 <= x ->
  from_configuration_id x =
  Raise (ValueError "position out of range (must be 0 through 14)").
Proof.
  intros Hx. unfold from_configuration_id, format_015b.
  rewrite (proj2 (Z.ltb_ge x 0)) by lia.
  destruct x as [|p|p]; try lia. cbn [bin_digits].
  destruct (bin_of_pos_chars p EmptyString (List.Forall_nil _)) as [Hbits Hlen].
  cbn [list_ascii_of_string length] in Hlen.
  pose proof (size_nat_bound p) as Hsize.
  assert (H16 : (16 <= Pos.size_nat p)%nat).
  { destruct (Nat.le_gt_cases 16 (Pos.size_nat p)) as [H|H]; [exact H|].
    assert (2 ^ Z.of_nat (Pos.size_nat p) <= 2 ^ 15)
      by (apply Z.pow_le_mono_r; lia).
    lia. }
  unfold zfill. rewrite string_length_list, Hlen.
  replace (15 - (Pos.size_nat p + 0))%nat with 0%nat by lia.
  cbn [zeros]. change (Board_init 14 None) with (Ok board14).
  rewrite bind_Ok. unfold enumerate.
  apply (decoding_too_many_digits _ 0); [exact Hbits|lia|lia].
Qed.

Lemma from_configuration_id_small (x : Z) :
  0 <= x < 2 ^ 15 -> exists board, from_configuration_id x = Ok board /\ wf board.
Proof.
  intros Hx.
  pose proof round_trips_everywhere as R. rewrite forallb_forall in R.
  specialize (R x (in_range_from x 0 (Z.to_nat (2 ^ 15)) ltac:(lia))).
  unfold round_trips in R.
  destruct (from_configuration_id x) as [board|]; [|discriminate R].
  exists board. split; [reflexivity|].
  repeat (apply andb_prop in R; destruct R as [R ?]).
  match goal with Hl : Nat.eqb (length _) _ = true |- _ => apply Nat.eqb_eq in Hl end.
  match goal with He : (empty_position _ =? 14) = true |- _ => apply Z.eqb_eq in He end.
  split; [assumption|]. unfold in_range. lia.
Qed.

(** Which ids decode: [from_configuration_id] returns a board exactly for the
    15-bit values.  A negative id fails on the sign of its formatted key, an id
    of [2^15] or more on the sixteenth digit of its key, whose position is out
    of range. *)
Theorem from_configuration_id_decodes_15_bits_only (x : Z) :
  (x < 0 ->
   from_configuration_id x = Raise (ValueError "Invalid character in key: -")) /\
  (2 ^ 15 <= x ->
   from_configuration_id x =
   Raise (ValueError "position out of range (must be 0 through 14)")) /\
  ((exists board, from_configuration_id x = Ok board) <-> 0 <= x < 2 ^ 15).
Proof.
  split; [apply from_configuration_id_negative|].
  split; [apply from_configuration_id_big|]. split.
  - intros [board Hb].
    destruct (Z.lt_ge_cases x 0) as [H0|H0];
      [rewrite from_configuration_id_negative in Hb by lia; discriminate|].
    destruct (Z.lt_ge_cases x (2 ^ 15)) as [H1|H1]; [lia|].
    rewrite from_configuration_id_big in Hb by lia. discriminate.
  - intros Hx. destruct (from_configuration_id_small x Hx) as (board & H & _). eauto.
Qed.

(** ** The five transformations as symmetries of the game *)

Lemma count_as_sum (l : list bool) :
  length (List.filter (fun s => s) l) = list_sum (map Nat.b2n l).
Proof.
  induction l as [|x l IH]; [reflexivity|].
  destruct x; simpl; lia.
Qed.

Lemma five_tables (name : string) (tx : list (Z * Z)) :
  In (name, tx) valid_transformations ->
  tx = Reflection \/ tx = Clockwise_rotation \/ tx = Counter_clockwise_rotation \/
  tx = Clockwise_rotation_and_reflection \/
  tx = Counter_clockwise_rotation_and_reflection.
Proof.
  intros H. cbn [valid_transformations In] in H.
  repeat (destruct H as [H|H]; [inversion H; tauto|]). contradiction.
Qed.

Lemma five_tables_in_range (name : string) (tx : list (Z * Z)) :
  In (name, tx) valid_transformations ->
  Forall pair_in_range tx /\ NoDup (map snd tx) /\
  forall q, in_range q -> In (q, image tx q) tx /\ in_range (image tx q).
Proof.
  intros H. apply five_tables in H.
  assert (R : forall pairs,
             forallb (fun '(f, t) => (0 <=? f) && (f <=? 14) &&
                                     ((0 <=? t) && (t <=? 14))) pairs = true ->
             Forall pair_in_range pairs).
  { intros pairs Hp. apply List.Forall_forall. intros [f t] Hin.
    rewrite forallb_forall in Hp. specialize (Hp _ Hin). cbn in Hp.
    unfold pair_in_range, in_range. cbn [fst snd]. lia. }
  repeat (destruct H as [H|H]); subst tx;
    (split; [apply R; reflexivity|];
     split; [apply (bool_decide_unpack _); vm_compute; exact I|];
     intros q Hq; unfold in_range; each_position Hq; vm_compute;
     (split; [tauto|split; discriminate])).
Qed.

(** Each of the five transformations moves the pins without adding or
    removing any: the transformed board has as many pins as the board it came
    from, and is won exactly when that board is. *)
Theorem transformations_keep_the_number_of_pins
        (self : Board) (name : string) (tx : list (Z * Z)) :
  wf self -> In (name, tx) valid_transformations ->
  exists t_board,
    transform tx self = (Ok tt, t_board) /\
    wf t_board /\
    length (occupied_positions t_board) = length (occupied_positions self) /\
    is_won t_board = is_won self.
Proof.
  intros Hwf Hin.
  destruct (five_tables_in_range name tx Hin) as (HF & _ & _).
  eexists. split; [apply transform_ok; assumption|].
  assert (W : wf (with_pins self (substitute (pins self) tx (pins self)))).
  { apply wf_with_pins; [assumption|]. rewrite length_substitute. apply Hwf. }
  split; [exact W|].
  assert (Hcount : occupied_count
                     (with_pins self (substitute (pins self) tx (pins self))) =
                   occupied_count self).
  { rewrite !occupied_count_pins, !count_as_sum. cbn [with_pins pins].
    destruct (fifteen_pins _ (proj1 Hwf)) as
      (a0 & a1 & a2 & a3 & a4 & a5 & a6 & a7 & a8 & a9 & a10 & a11 & a12 & a13 & a14 & ->).
    apply five_tables in Hin.
    repeat (destruct Hin as [Hin|Hin]); subst tx;
      match goal with
      | |- list_sum (map Nat.b2n ?l) = _ =>
          let r := eval vm_compute in l in change l with r
      end;
      cbn [map list_sum fold_right]; lia. }
  split; [exact Hcount|].
  rewrite !is_won_count, Hcount. reflexivity.
Qed.

Lemma transformations_keep_the_number_of_pins_witness :
  exists t_board,
    transform Clockwise_rotation stuck_board = (Ok tt, t_board) /\
    wf t_board /\
    length (occupied_positions t_board) = length (occupied_positions stuck_board) /\
    is_won t_board = is_won stuck_board.
Proof.
  apply (transformations_keep_the_number_of_pins
           stuck_board "Clockwise rotation" Clockwise_rotation).
  - split; [reflexivity|]. unfold in_range. cbn. lia.
  - right. left. reflexivity.
Defined.

Lemma all_rules_spec (m : Z * Z * Z) :
  In m all_rules <->
  in_range (fst (fst m)) /\ In m (rule_table (fst (fst m))).
Proof.
  unfold all_rules. rewrite in_flat_map. destruct m as [[s e] j]. cbn [fst]. split.
  - intros (p & Hp & Hin).
    assert (Hr : in_range p).
    { unfold all_positions in Hp. apply in_map_iff in Hp.
      destruct Hp as (i & <- & Hi). apply in_seq in Hi. unfold in_range. lia. }
    destruct (rule_table_shape _ _ _ _ Hr Hin) as (-> & _). tauto.
  - intros [Hr Hin]. exists s. split; [|exact Hin].
    unfold all_positions. apply in_map_iff. exists (Z.to_nat s).
    unfold in_range in Hr. split; [lia|]. apply in_seq. lia.
Qed.

Lemma rules_are_symmetric (name : string) (tx : list (Z * Z)) :
  In (name, tx) valid_transformations ->
  (forall m, In m all_rules -> In (image_move tx m) all_rules) /\
  (forall m', In m' all_rules -> exists m, In m all_rules /\ image_move tx m = m').
Proof.
  intros H. apply five_tables in H.
  assert (F : forall tx,
    forallb (fun m => existsb (move_eqb (image_move tx m)) all_rules) all_rules = true ->
    forall m, In m all_rules -> In (image_move tx m) all_rules).
  { intros t Hc m Hm. rewrite forallb_forall in Hc. specialize (Hc m Hm).
    apply existsb_exists in Hc. destruct Hc as (m' & Hm' & Heq).
    apply move_eqb_eq in Heq. congruence. }
  assert (G : forall tx,
    forallb (fun m' => existsb (fun m => move_eqb (image_move tx m) m') all_rules)
            all_rules = true ->
    forall m', In m' all_rules -> exists m, In m all_rules /\ image_move tx m = m').
  { intros t Hc m' Hm'. rewrite forallb_forall in Hc. specialize (Hc m' Hm').
    apply existsb_exists in Hc. destruct Hc as (m & Hm & Heq).
    apply move_eqb_eq in Heq. eauto. }
  repeat (destruct H as [H|H]); subst tx;
    (split; [apply F|apply G]; vm_compute; reflexivity).
Qed.

(** The five transformations are symmetries of the rules: on the transformed
    board every pin sits where the table sends its position, and the moves of
    the transformed board are exactly the images of the moves of the board.
    So a board is a dead end exactly when its transformed board is. *)
Theorem moves_follow_the_transformation
        (self : Board) (name : string) (tx : list (Z * Z)) :
  wf self -> In (name, tx) valid_transformations ->
  exists t_board ms t_ms,
    transform tx self = (Ok tt, t_board) /\
    (forall q, in_range q -> pin_status (image tx q) t_board = pin_status q self) /\
    moves self = Ok ms /\
    moves t_board = Ok t_ms /\
    (forall m, In m ms -> In (image_move tx m) t_ms) /\
    (forall m', In m' t_ms -> exists m, In m ms /\ image_move tx m = m') /\
    (ms = [] <-> t_ms = []).
Proof.
  intros Hwf Hin.
  destruct (five_tables_in_range name tx Hin) as (HF & Hnd & Himg).
  destruct (rules_are_symmetric name tx Hin) as (Hfwd & Hbwd).
  set (t_board := with_pins self (substitute (pins self) tx (pins self))).
  assert (W : wf t_board).
  { apply wf_with_pins; [assumption|]. rewrite length_substitute. apply Hwf. }
  assert (Hocc : forall q, in_range q ->
                           occupied (image tx q) t_board = occupied q self).
  { intros q Hq. destruct (Himg q Hq) as [Hpair _].
    unfold occupied, t_board. cbn [with_pins pins].
    apply substitute_reads_snapshot; try assumption. apply Hwf. }
  assert (Hto : forall m, In m (all_moves self) -> In (image_move tx m) (all_moves t_board)).
  { intros [[s e] j] Hm. apply all_moves_spec in Hm; [|assumption].
    destruct Hm as (Hr & Ht & Hs & He & Hj).
    destruct (rule_table_shape _ _ _ _ Hr Ht) as (_ & Hre & Hrj & _).
    assert (Hrule : In (image_move tx (s, e, j)) all_rules).
    { apply Hfwd. apply all_rules_spec. cbn [fst]. tauto. }
    apply all_rules_spec in Hrule. cbn [image_move fst] in Hrule |- *.
    apply all_moves_spec; [assumption|].
    rewrite !Hocc by assumption. tauto. }
  assert (Hfrom : forall m', In m' (all_moves t_board) ->
                             exists m, In m (all_moves self) /\ image_move tx m = m').
  { intros [[s' e'] j'] Hm'. apply all_moves_spec in Hm'; [|assumption].
    destruct Hm' as (Hr' & Ht' & Hs' & He' & Hj').
    destruct (Hbwd (s', e', j')) as ([[s e] j] & Hm & Heq).
    { apply all_rules_spec. cbn [fst]. tauto. }
    exists (s, e, j). split; [|exact Heq].
    apply all_rules_spec in Hm. cbn [fst] in Hm. destruct Hm as [Hr Ht].
    destruct (rule_table_shape _ _ _ _ Hr Ht) as (_ & Hre & Hrj & _).
    cbn [image_move] in Heq. inversion Heq; subst s' e' j'.
    rewrite !Hocc in * by assumption.
    apply all_moves_spec; [assumption|]. tauto. }
  exists t_board, (all_moves self), (all_moves t_board).
  split; [apply transform_ok; assumption|].
  split.
  { intros q Hq. destruct (Himg q Hq) as [_ Hq'].
    rewrite !pin_status_ok by assumption. f_equal. apply Hocc. assumption. }
  split; [apply moves_ok; assumption|].
  split; [apply moves_ok; assumption|].
  split; [exact Hto|]. split; [exact Hfrom|].
  split; intros E.
  - destruct (all_moves t_board) as [|m' l] eqn:E'; [reflexivity|].
    destruct (Hfrom m' (or_introl eq_refl)) as (m & Hm & _).
    rewrite E in Hm. destruct Hm.
  - destruct (all_moves self) as [|m l] eqn:E'; [reflexivity|].
    specialize (Hto m (or_introl eq_refl)). rewrite E in Hto. destruct Hto.
Qed.

Lemma moves_follow_the_transformation_witness :
  exists t_board ms t_ms,
    transform Reflection board14 = (Ok tt, t_board) /\
    (forall q, in_range q ->
               pin_status (image Reflection q) t_board = pin_status q board14) /\
    moves board14 = Ok ms /\
    moves t_board = Ok t_ms /\
    (forall m, In m ms -> In (image_move Reflection m) t_ms) /\
    (forall m', In m' t_ms -> exists m, In m ms /\ image_move Reflection m = m') /\
    (ms = [] <-> t_ms = []).
Proof.
  apply (moves_follow_the_transformation board14 "Reflection" Reflection wf_board14).
  left. reflexivity.
Defined.

(** The five transformations with the identity are closed under composition:
    transforming twice gives either the board one started from or the board a
    single one of the five transformations gives. *)
Theorem two_transformations_make_one
        (self : Board) (name1 name2 : string) (tx1 tx2 : list (Z * Z)) :
  wf self ->
  In (name1, tx1) valid_transformations ->
  In (name2, tx2) valid_transformations ->
  exists once twice,
    transform tx1 self = (Ok tt, once) /\
    transform tx2 once = (Ok tt, twice) /\
    (twice = self \/
     exists name tx,
       In (name, tx) valid_transformations /\ transform tx self = (Ok tt, twice)).
Proof.
  intros Hwf H1 H2.
  destruct (five_tables_in_range name1 tx1 H1) as (HF1 & _).
  destruct (five_tables_in_range name2 tx2 H2) as (HF2 & _).
  set (once := with_pins self (substitute (pins self) tx1 (pins self))).
  assert (W : wf once).
  { apply wf_with_pins; [assumption|]. rewrite length_substitute. apply Hwf. }
  exists once, (with_pins once (substitute (pins once) tx2 (pins once))).
  split; [apply transform_ok; assumption|].
  split; [apply transform_ok; assumption|].
  assert (E : forall name tx,
             In (name, tx) valid_transformations ->
             substitute (pins once) tx2 (pins once) = substitute (pins self) tx (pins self) ->
             exists name tx,
               In (name, tx) valid_transformations /\
               transform tx self =
               (Ok tt, with_pins once (substitute (pins once) tx2 (pins once)))).
  { intros name tx Hin Heq. exists name, tx. split; [exact Hin|].
    destruct (five_tables_in_range name tx Hin) as (HF & _).
    rewrite transform_ok by assumption. rewrite Heq. reflexivity. }
  assert (I : substitute (pins once) tx2 (pins once) = pins self ->
              with_pins once (substitute (pins once) tx2 (pins once)) = self).
  { intros Heq. rewrite Heq. unfold once. destruct self; reflexivity. }
  unfold once in E, I |- *. cbn [pins with_pins] in E, I |- *.
  destruct (fifteen_pins _ (proj1 Hwf)) as
    (a0 & a1 & a2 & a3 & a4 & a5 & a6 & a7 & a8 & a9 & a10 & a11 & a12 & a13 & a14 & Hp).
  rewrite Hp in E, I |- *.
  apply five_tables in H1. apply five_tables in H2.
  repeat (destruct H1 as [H1|H1]); subst tx1;
    repeat (destruct H2 as [H2|H2]); subst tx2;
    first
      [ left; apply I; reflexivity
      | right; apply (E "Reflection"%string Reflection);
        [cbn; tauto|reflexivity]
      | right; apply (E "Clockwise rotation"%string Clockwise_rotation);
        [cbn; tauto|reflexivity]
      | right; apply (E "Counter-clockwise rotation"%string Counter_clockwise_rotation);
        [cbn; tauto|reflexivity]
      | right; apply (E "Clockwise rotation and reflection"%string
                        Clockwise_rotation_and_reflection);
        [cbn; tauto|reflexivity]
      | right; apply (E "Counter-clockwise rotation and reflection"%string
                        Counter_clockwise_rotation_and_reflection);
        [cbn; tauto|reflexivity] ].
Qed.

Lemma two_transformations_make_one_witness :
  exists once twice,
    transform Reflection board14 = (Ok tt, once) /\
    transform Clockwise_rotation once = (Ok tt, twice) /\
    (twice = board14 \/
     exists name tx,
       In (name, tx) valid_transformations /\ transform tx board14 = (Ok tt, twice)).
Proof.
  apply (two_transformations_make_one
           board14 "Reflection" "Clockwise rotation" Reflection Clockwise_rotation
           wf_board14).
  - left. reflexivity.
  - right. left. reflexivity.
Defined.

(** ** One generation, in terms of the board operations *)

(** [increment_boards] of [commands.py] sorts as follows: a board of the
    input without moves goes to the lost boards; for a board with moves, each
    move is made on a copy, and the copy goes to the won boards when it is won
    and to the new boards otherwise.  Every move gives one board, and
    [increment_boards] of [core.py] returns the same new and won boards. *)
Theorem increment_boards_sorts_the_children (boards : list Board) :
  Forall wf boards ->
  exists new_boards won_boards lost_boards,
    commands.increment_boards boards = Ok (new_boards, won_boards, lost_boards) /\
    core.increment_boards boards = Ok (new_boards, won_boards) /\
    (forall x, In x lost_boards <-> In x boards /\ moves x = Ok []) /\
    (forall x, In x new_boards <->
       exists board ms start end_ jump,
         In board boards /\ moves board = Ok ms /\ In (start, end_, jump) ms /\
         (new_board ← copy board; run_on (move start end_ jump) new_board) = Ok x /\
         is_won x = false) /\
    (forall x, In x won_boards <->
       exists board ms start end_ jump,
         In board boards /\ moves board = Ok ms /\ In (start, end_, jump) ms /\
         (new_board ← copy board; run_on (move start end_ jump) new_board) = Ok x /\
         is_won x = true) /\
    (length new_boards + length won_boards =
     list_sum (map (fun board => length (all_moves board)) boards))%nat.
Proof.
  intros Hwf.
  exists (next_frontier boards), (newly_won boards), (dead_ends boards).
  split; [apply commands_increment_boards_ok; assumption|].
  split; [apply core_increment_boards_ok; assumption|].
  rewrite List.Forall_forall in Hwf.
  assert (Hchild : forall board x (won : bool),
    In board boards ->
    (In x (children board) /\ is_won x = won <->
     exists ms start end_ jump,
       moves board = Ok ms /\ In (start, end_, jump) ms /\
       (new_board ← copy board; run_on (move start end_ jump) new_board) = Ok x /\
       is_won x = won)).
  { intros board x won Hb. specialize (Hwf _ Hb). split.
    - intros [Hc Hw]. unfold children in Hc. apply in_map_iff in Hc.
      destruct Hc as ([[s e] j] & <- & Hm).
      exists (all_moves board), s, e, j.
      split; [apply moves_ok; assumption|]. split; [exact Hm|].
      split; [apply child_ok; assumption|exact Hw].
    - intros (ms & s & e & j & Hms & Hm & Hx & Hw).
      rewrite moves_ok in Hms by assumption. inversion Hms; subst ms.
      rewrite (child_ok board s e j Hwf Hm) in Hx.
      assert (x = child board (s, e, j)) by congruence. subst x.
      split; [|exact Hw]. unfold children. apply (in_map (child board)). exact Hm. }
  split; [|split; [|split]].
  - intros x. unfold dead_ends. rewrite filter_In. split.
    + intros [Hx Hd]. split; [exact Hx|]. rewrite moves_ok by auto.
      unfold is_dead_end in Hd. destruct (all_moves x); [reflexivity|discriminate].
    + intros [Hx Hm]. split; [exact Hx|]. rewrite moves_ok in Hm by auto.
      unfold is_dead_end. inversion Hm as [E]. rewrite E. reflexivity.
  - intros x. rewrite in_next_frontier. split.
    + intros (board & Hb & Hc & Hw).
      destruct (proj1 (Hchild board x false Hb) (conj Hc Hw))
        as (ms & s & e & j & H). exists board, ms, s, e, j. tauto.
    + intros (board & ms & s & e & j & Hb & H).
      exists board. split; [exact Hb|]. apply (Hchild board x false Hb). eauto 10.
  - intros x. rewrite in_newly_won. split.
    + intros (board & Hb & Hc & Hw).
      destruct (proj1 (Hchild board x true Hb) (conj Hc Hw))
        as (ms & s & e & j & H). exists board, ms, s, e, j. tauto.
    + intros (board & ms & s & e & j & Hb & H).
      exists board. split; [exact Hb|]. apply (Hchild board x true Hb). eauto 10.
  - clear. unfold next_frontier, newly_won.
    induction boards as [|b boards IH]; [reflexivity|].
    cbn [flat_map map list_sum fold_right]. rewrite !length_app.
    assert (E : forall l : list Board,
      (length (List.filter (fun c => negb (is_won c)) l) +
       length (List.filter is_won l) = length l)%nat).
    { induction l as [|x l IHl]; [reflexivity|].
      cbn [List.filter]. destruct (is_won x); cbn [negb length]; lia. }
    specialize (E (children b)). unfold children in E at 3. rewrite length_map in E.
    unfold list_sum in IH. lia.
Qed.

Lemma increment_boards_sorts_the_children_witness :
  exists new_boards won_boards lost_boards,
    commands.increment_boards [board14; stuck_board] =
    Ok (new_boards, won_boards, lost_boards) /\
    core.increment_boards [board14; stuck_board] = Ok (new_boards, won_boards) /\
    (forall x, In x lost_boards <-> In x [board14; stuck_board] /\ moves x = Ok []) /\
    (forall x, In x new_boards <->
       exists board ms start end_ jump,
         In board [board14; stuck_board] /\ moves board = Ok ms /\
         In (start, end_, jump) ms /\
         (new_board ← copy board; run_on (move start end_ jump) new_board) = Ok x /\
         is_won x = false) /\
    (forall x, In x won_boards <->
       exists board ms start end_ jump,
         In board [board14; stuck_board] /\ moves board = Ok ms /\
         In (start, end_, jump) ms /\
         (new_board ← copy board; run_on (move start end_ jump) new_board) = Ok x /\
         is_won x = true) /\
    (length new_boards + length won_boards =
     list_sum (map (fun board => length (all_moves board)) [board14; stuck_board]))%nat.
Proof.
  apply (increment_boards_sorts_the_children [board14; stuck_board]).
  repeat constructor; unfold in_range; cbn; lia.
Defined.

(** ** What the search returns *)

Lemma frontier_counts i boards c :
  Forall wf boards ->
  Forall (fun b => occupied_count b = c) boards ->
  Forall (fun b => wf b /\ (occupied_count b + i)%nat = c) (frontier i boards).
Proof.
  revert boards c. induction i as [|i IH]; intros boards c Hwf Hc.
  - cbn [frontier]. rewrite List.Forall_forall in *. intros b Hb.
    split; [auto|]. rewrite (Hc b Hb). lia.
  - cbn [frontier].
    assert (Hc' : Forall (fun b => occupied_count b = pred c) (next_frontier boards)).
    { apply List.Forall_forall. intros b Hb. apply in_next_frontier in Hb.
      destruct Hb as (board & Hin & Hch & _).
      rewrite List.Forall_forall in Hwf, Hc.
      destruct (children_spec board b (Hwf _ Hin) Hch) as [_ Hcount].
      rewrite <- (Hc _ Hin). lia. }
    specialize (IH _ _ (next_frontier_wf _ Hwf) Hc').
    rewrite List.Forall_forall in *. intros b Hb.
    destruct (IH b Hb) as [W Hcount]. split; [exact W|].
    destruct (frontier i (next_frontier boards)) as [|y ys] eqn:E; [destruct Hb|].
    assert (Hne : next_frontier boards <> []).
    { intros Hn. rewrite Hn, frontier_nil in E. discriminate E. }
    destruct (next_frontier boards) as [|x l] eqn:Enf; [contradiction|].
    assert (Hx : In x (next_frontier boards)) by (rewrite Enf; left; reflexivity).
    apply in_next_frontier in Hx. destruct Hx as (board & Hin & Hch & _).
    destruct (children_spec board x (Hwf _ Hin) Hch) as [_ Hcx].
    rewrite (Hc _ Hin) in Hcx. lia.
Qed.

Lemma in_all_won k boards x :
  In x (all_won k boards) <->
  exists i, (i < k)%nat /\ In x (newly_won (frontier i boards)).
Proof.
  revert boards. induction k as [|k IH]; intros boards.
  - split; [intros []|intros (i & Hi & _); lia].
  - cbn [all_won]. rewrite in_app_iff, IH. split.
    + intros [H|(i & Hi & H)]; [exists 0%nat|exists (S i)]; (split; [lia|exact H]).
    + intros ([|i] & Hi & H); [left; exact H|right].
      exists i. split; [lia|exact H].
Qed.

Lemma in_all_dead_ends_iff k boards x :
  In x (all_dead_ends k boards) <->
  exists i, (i < k)%nat /\ In x (dead_ends (frontier i boards)).
Proof.
  revert boards. induction k as [|k IH]; intros boards.
  - split; [intros []|intros (i & Hi & _); lia].
  - cbn [all_dead_ends]. rewrite in_app_iff, IH. split.
    + intros [H|(i & Hi & H)]; [exists 0%nat|exists (S i)]; (split; [lia|exact H]).
    + intros ([|i] & Hi & H); [left; exact H|right].
      exists i. split; [lia|exact H].
Qed.

Lemma dead_end_has_no_moves x : wf x -> is_dead_end x = true <-> moves x = Ok [].
Proof.
  intros Hwf. rewrite moves_ok by assumption. unfold is_dead_end.
  destruct (all_moves x); split; congruence.
Qed.

(** [solve] on a valid start, with room for fifteen rounds of its loop: it
    stops at the first generation whose frontier is empty, and the boards it
    hands over are those won, respectively stuck, in any generation.  A won
    board has a single pin and took thirteen moves; a lost board has no moves,
    is not won, and after [i] moves has [14 - i] pins, at least two. *)
Theorem solve_returns_every_terminal_board (empty_pos : Z) (fuel : nat) :
  in_range empty_pos -> (15 <= fuel)%nat ->
  exists root won_boards lost_boards k,
    Board_init empty_pos None = Ok root /\
    commands.solve fuel empty_pos = Some (Ok (won_boards, lost_boards)) /\
    (k <= 15)%nat /\ frontier k [root] = [] /\
    (forall i, (i < k)%nat -> frontier i [root] <> []) /\
    (forall x, In x won_boards <-> exists i, In x (newly_won (frontier i [root]))) /\
    (forall x, In x lost_boards <-> exists i, In x (dead_ends (frontier i [root]))) /\
    (forall x, In x won_boards ->
       wf x /\ is_won x = true /\ moves x = Ok [] /\
       In x (newly_won (frontier 12 [root]))) /\
    (forall x i, In x (dead_ends (frontier i [root])) ->
       wf x /\ is_won x = false /\ moves x = Ok [] /\
       (length (occupied_positions x) + i = 14)%nat /\
       (2 <= length (occupied_positions x))%nat).
Proof.
  intros Hp Hfuel.
  destruct (solve_collects_every_generation empty_pos Hp)
    as (root & k & Hinit & Hk & Hempty & Hbefore & Hsolve).
  destruct (Board_init_ok empty_pos None Hp)
    as (root' & Hinit' & Hwf & _ & _ & _ & Hcount).
  assert (root' = root) by congruence. subst root'.
  assert (Hwfs : Forall wf [root]) by (constructor; [assumption|constructor]).
  assert (Hcs : Forall (fun b => occupied_count b = 14%nat) [root])
    by (constructor; [assumption|constructor]).
  assert (Hfr : forall i x, In x (frontier i [root]) ->
                            wf x /\ (occupied_count x + i = 14)%nat).
  { intros i x Hx. pose proof (frontier_counts i [root] 14 Hwfs Hcs) as H.
    rewrite List.Forall_forall in H. apply H. exact Hx. }
  assert (Hlate : forall i, (k <= i)%nat -> frontier i [root] = []).
  { intros i Hi. apply (frontier_stays_empty k i); assumption. }
  assert (Hwon : forall i x, In x (newly_won (frontier i [root])) ->
                             wf x /\ is_won x = true /\ i = 12%nat).
  { intros i x Hx. apply in_newly_won in Hx. destruct Hx as (b & Hb & Hc & Hw).
    destruct (Hfr i b Hb) as [Wb Hcb].
    destruct (children_spec b x Wb Hc) as [Wx Hcx].
    split; [exact Wx|]. split; [exact Hw|].
    rewrite is_won_count in Hw. apply Nat.eqb_eq in Hw. lia. }
  exists root, (all_won k [root]), (all_dead_ends k [root]), k.
  split; [exact Hinit|]. split; [apply Hsolve; exact Hfuel|].
  split; [exact Hk|]. split; [exact Hempty|]. split; [exact Hbefore|].
  split; [|split; [|split]].
  - intros x. rewrite in_all_won. split.
    + intros (i & _ & H). eauto.
    + intros (i & H). exists i. split; [|exact H].
      destruct (Nat.lt_ge_cases i k) as [Hlt|Hge]; [exact Hlt|].
      rewrite (Hlate i Hge) in H. destruct H.
  - intros x. rewrite in_all_dead_ends_iff. split.
    + intros (i & _ & H). eauto.
    + intros (i & H). exists i. split; [|exact H].
      destruct (Nat.lt_ge_cases i k) as [Hlt|Hge]; [exact Hlt|].
      rewrite (Hlate i Hge) in H. destruct H.
  - intros x Hx. apply in_all_won in Hx. destruct Hx as (i & _ & Hx).
    destruct (Hwon i x Hx) as (Wx & Hw & ->).
    split; [exact Wx|]. split; [exact Hw|]. split; [|exact Hx].
    apply (no_moves_below_two_pins x Wx). rewrite is_won_count in Hw.
    apply Nat.eqb_eq in Hw. lia.
  - intros x i Hx. unfold dead_ends in Hx. apply filter_In in Hx.
    destruct Hx as [Hx Hd]. destruct (Hfr i x Hx) as [Wx Hcx].
    split; [exact Wx|].
    assert (Hm : moves x = Ok []) by (apply dead_end_has_no_moves; assumption).
    assert (Hnw : is_won x = false /\ (2 <= occupied_count x)%nat).
    { destruct i as [|i].
      - cbn [frontier] in Hx. destruct Hx as [<-|[]].
        rewrite is_won_count, Hcount. split; [reflexivity|lia].
      - cbn [frontier] in Hx.
        assert (Hin : In x (frontier (i + 1) [root])).
        { replace (i + 1)%nat with (S i) by lia. exact Hx. }
        rewrite frontier_add in Hin. cbn [frontier] in Hin.
        apply in_next_frontier in Hin. destruct Hin as (b & Hb & Hc & Hw).
        split; [exact Hw|].
        destruct (Hfr i b Hb) as [Wb Hcb].
        unfold children in Hc. apply in_map_iff in Hc. destruct Hc as (m & <- & Hmv).
        pose proof (a_move_needs_two_pins b m Wb Hmv) as H2.
        destruct m as [[s e] j].
        destruct (child_count b s e j Wb Hmv) as [_ Hcc].
        rewrite is_won_count in Hw. apply Nat.eqb_neq in Hw. lia. }
    destruct Hnw as [Hnw H2]. split; [exact Hnw|]. split; [exact Hm|].
    split; [exact Hcx|exact H2].
Qed.

Lemma solve_returns_every_terminal_board_witness :
  exists root won_boards lost_boards k,
    Board_init 14 None = Ok root /\
    commands.solve 15 14 = Some (Ok (won_boards, lost_boards)) /\
    (k <= 15)%nat /\ frontier k [root] = [] /\
    (forall i, (i < k)%nat -> frontier i [root] <> []) /\
    (forall x, In x won_boards <-> exists i, In x (newly_won (frontier i [root]))) /\
    (forall x, In x lost_boards <-> exists i, In x (dead_ends (frontier i [root]))) /\
    (forall x, In x won_boards ->
       wf x /\ is_won x = true /\ moves x = Ok [] /\
       In x (newly_won (frontier 12 [root]))) /\
    (forall x i, In x (dead_ends (frontier i [root])) ->
       wf x /\ is_won x = false /\ moves x = Ok [] /\
       (length (occupied_positions x) + i = 14)%nat /\
       (2 <= length (occupied_positions x))%nat).
Proof.
  apply (solve_returns_every_terminal_board 14 15); [unfold in_range|]; lia.
Defined.

(** [find_solutions] of [core.py], from any board and with room for sixteen
    rounds of its loop: it terminates and returns the won boards of the whole
    search, the very list [solve]'s loop collects from the same board, and
    nothing that is not won. *)
Theorem find_solutions_returns_the_won_boards (board : Board) (fuel : nat) :
  wf board -> (16 <= fuel)%nat ->
  exists won_boards lost_boards,
    core.find_solutions fuel board = Some (Ok won_boards) /\
    commands.solve_loop fuel [board] [] [] = Some (Ok (won_boards, lost_boards)) /\
    Forall (fun b => is_won b = true) won_boards.
Proof.
  intros Hwf Hfuel.
  assert (Hwfs : Forall wf [board]) by (constructor; [assumption|constructor]).
  assert (Hend : frontier fuel [board] = []).
  { apply (frontier_stays_empty 16 fuel); [exact Hfuel|].
    apply frontier_runs_out; [assumption|].
    constructor; [apply occupied_count_le; assumption|constructor]. }
  destruct (solve_loop_ok fuel [board] [] [] Hwfs Hend)
    as (k & _ & Hempty & Hbefore & Hrun).
  destruct (find_solutions_loop_ok fuel [board] [] Hwfs Hend)
    as (k' & _ & Hempty' & Hbefore' & Hrun').
  assert (k' = k).
  { destruct (Nat.lt_trichotomy k' k) as [Hlt|[Heq|Hgt]]; [|exact Heq|].
    - exfalso. apply (Hbefore k' Hlt). exact Hempty'.
    - exfalso. apply (Hbefore' k Hgt). exact Hempty. }
  subst k'.
  assert (Hwon : all_won k [board] =
                 match k with O => [] | S k' => newly_won (frontier k' [board]) end).
  { apply (all_won_is_last_generation k [board] (occupied_count board));
      try assumption.
    constructor; [reflexivity|constructor]. }
  exists (all_won k [board]), (all_dead_ends k [board]).
  split; [unfold core.find_solutions; rewrite Hrun', Hwon; reflexivity|].
  split; [exact Hrun|].
  rewrite Hwon. destruct k; [constructor|apply newly_won_all_won].
Qed.

Lemma find_solutions_returns_the_won_boards_witness :
  exists won_boards lost_boards,
    core.find_solutions 16 stuck_board = Some (Ok won_boards) /\
    commands.solve_loop 16 [stuck_board] [] [] = Some (Ok (won_boards, lost_boards)) /\
    Forall (fun b => is_won b = true) won_boards.
Proof.
  apply (find_solutions_returns_the_won_boards stuck_board 16); [|lia].
  split; [reflexivity|]. unfold in_range. cbn. lia.
Defined.

(** ** The sequence saved for a board *)

Lemma trail_head self ms : exists rest, trail self ms = self :: rest.
Proof. destruct ms; cbn [trail]; eauto. Qed.

Lemma sequenced_boards_child self m :
  commands.sequenced_boards (child self m) =
  child self m :: commands.sequenced_boards self.
Proof. destruct m as [[s e] j]. reflexivity. Qed.

Lemma sequenced_boards_play self ms :
  rev (commands.sequenced_boards (play self ms)) =
  rev (commands.sequenced_boards self) ++ tl (trail self ms).
Proof.
  revert self. induction ms as [|m ms IH]; intros self.
  - cbn. rewrite app_nil_r. reflexivity.
  - cbn [play fold_left trail tl]. fold (play (child self m) ms).
    rewrite IH, sequenced_boards_child. cbn [rev].
    destruct (trail_head (child self m) ms) as [rest ->]. cbn [tl].
    rewrite <- app_assoc. reflexivity.
Qed.

Lemma trail_of_a_root root ms :
  previous_board root = None ->
  rev (commands.sequenced_boards (play root ms)) = trail root ms.
Proof.
  intros H. rewrite sequenced_boards_play.
  destruct root as [p pb ep]. cbn [previous_board] in H. subst pb.
  destruct (trail_head (mkBoard p None ep) ms) as [rest ->]. reflexivity.
Qed.

Lemma trail_length self ms : length (trail self ms) = S (length ms).
Proof.
  revert self. induction ms as [|m ms IH]; intros self; [reflexivity|].
  cbn [trail length]. rewrite IH. reflexivity.
Qed.

Lemma trail_last self ms : last (trail self ms) = Some (play self ms).
Proof.
  revert self. induction ms as [|m ms IH]; intros self; [reflexivity|].
  cbn [trail play fold_left]. fold (play (child self m) ms).
  destruct (trail_head (child self m) ms) as [rest E]. rewrite E.
  rewrite <- E. rewrite <- IH. rewrite E. reflexivity.
Qed.

Lemma playable_is_legal self ms : playable self ms = true -> legal_path self ms.
Proof.
  revert self. induction ms as [|m ms IH]; intros self H; [exact I|].
  cbn [playable] in H. apply andb_prop in H. destruct H as [H Hrest].
  apply andb_prop in H. destruct H as [Hm _].
  apply existsb_exists in Hm. destruct Hm as (m' & Hm' & Heq).
  apply move_eqb_eq in Heq. subst m'. split; [assumption|apply IH; assumption].
Qed.

Lemma legal_path_snoc self ms m :
  legal_path self ms -> In m (all_moves (play self ms)) ->
  legal_path self (ms ++ [m]).
Proof.
  revert self. induction ms as [|m0 ms IH]; intros self H Hm.
  - split; [exact Hm|exact I].
  - destruct H as [H0 H]. split; [exact H0|]. apply IH; assumption.
Qed.

Lemma play_snoc self ms m : play self (ms ++ [m]) = child (play self ms) m.
Proof. unfold play. rewrite fold_left_app. reflexivity. Qed.

Lemma trail_steps self ms i a :
  wf self -> legal_path self ms ->
  trail self ms !! i = Some a ->
  wf a /\ (occupied_count a + i = occupied_count self)%nat /\
  forall b, trail self ms !! S i = Some b ->
            exists m, In m (all_moves a) /\ b = child a m.
Proof.
  revert self i. induction ms as [|m ms IH]; intros self i Hwf Hp Ha.
  - destruct i as [|i]; [|discriminate Ha]. cbn in Ha. inversion Ha; subst a.
    split; [exact Hwf|]. split; [lia|]. intros b Hb. discriminate Hb.
  - destruct Hp as [Hm Hrest].
    destruct m as [[s e] j].
    destruct (child_count self s e j Hwf Hm) as [Wc Hcc].
    destruct i as [|i].
    + cbn in Ha. inversion Ha; subst a.
      split; [exact Hwf|]. split; [lia|]. intros b Hb.
      cbn [trail] in Hb. change ((self :: trail (child self (s, e, j)) ms) !! 1%nat)
        with (trail (child self (s, e, j)) ms !! 0%nat) in Hb.
      destruct (trail_head (child self (s, e, j)) ms) as [rest E].
      rewrite E in Hb. cbn in Hb. inversion Hb; subst b. eauto.
    + change (trail self ((s, e, j) :: ms) !! S i)
        with (trail (child self (s, e, j)) ms !! i) in Ha.
      destruct (IH _ i Wc Hrest Ha) as (Wa & Hca & Hnext).
      split; [exact Wa|]. split; [lia|]. exact Hnext.
Qed.

Lemma in_frontier_is_played i boards x :
  In x (frontier i boards) ->
  exists board ms,
    In board boards /\ length ms = i /\ playable board ms = true /\ x = play board ms.
Proof.
  revert boards. induction i as [|i IH]; intros boards Hx.
  - exists x, []. repeat split. exact Hx.
  - cbn [frontier] in Hx. destruct (IH _ Hx) as (c & ms & Hc & Hlen & Hp & ->).
    apply in_next_frontier in Hc. destruct Hc as (board & Hb & Hch & Hw).
    unfold children in Hch. apply in_map_iff in Hch. destruct Hch as (m & <- & Hm).
    exists board, (m :: ms). split; [exact Hb|]. split; [cbn; lia|].
    split; [|reflexivity]. cbn [playable]. rewrite Hw, Hp. cbn [negb andb].
    rewrite !andb_true_r. apply existsb_exists. exists m. split; [exact Hm|].
    destruct m as [[s e] j]. cbn. rewrite !Z.eqb_refl. reflexivity.
Qed.

Lemma configuration_id_inj (a b : Board) :
  wf a -> wf b -> configuration_id a = configuration_id b -> pins a = pins b.
Proof.
  intros Ha Hb H.
  destruct (decodes_back_spec a Ha) as (x & ba & Hx & _ & Hda & Hpa & _).
  destruct (decodes_back_spec b Hb) as (y & bb & Hy & _ & Hdb & Hpb & _).
  rewrite Hx, Hy in H. inversion H; subst y.
  rewrite Hda in Hdb. inversion Hdb; subst bb. congruence.
Qed.

Lemma trail_ids_differ self ms :
  wf self -> legal_path self ms ->
  NoDup (map configuration_id (trail self ms)).
Proof.
  revert self. induction ms as [|m ms IH]; intros self Hwf Hp.
  - cbn. apply NoDup_singleton.
  - destruct Hp as [Hm Hrest]. cbn [trail map].
    destruct m as [[s e] j].
    destruct (child_count self s e j Hwf Hm) as [Wc Hcc].
    apply NoDup_cons. split; [|apply IH; assumption].
    intros Hin. apply list_elem_of_In, in_map_iff in Hin.
    destruct Hin as (a & Hid & Ha).
    apply list_elem_of_In, list_elem_of_lookup in Ha. destruct Ha as [i Hi].
    destruct (trail_steps _ ms i a Wc Hrest Hi) as (Wa & Hca & _).
    pose proof (configuration_id_inj a self Wa Hwf Hid) as Hpins.
    rewrite !occupied_count_pins in *. rewrite Hpins in Hca. lia.
Qed.

Lemma imap_ids (f : nat -> Board -> Z) (l : list Board) :
  map snd (imap (fun order board => (f order board, configuration_id board)) l) =
  map configuration_id l.
Proof.
  revert f. induction l as [|x l IH]; intros f; [reflexivity|].
  cbn [imap map snd]. f_equal. apply (IH (fun order => f (S order))).
Qed.

Lemma imap_orders (l : list Board) (k : nat) :
  map fst (imap (fun order board => (Z.of_nat (k + order), configuration_id board)) l) =
  map Z.of_nat (seq k (length l)).
Proof.
  revert k. induction l as [|x l IH]; intros k; [reflexivity|].
  cbn [imap map fst length seq]. f_equal; [f_equal; lia|].
  rewrite <- (IH (S k)). f_equal. apply imap_ext. intros i y _. cbn.
  f_equal. f_equal. lia.
Qed.

Lemma all_have_ids (l : list Board) :
  Forall wf l -> exists ids, map configuration_id l = map Some ids.
Proof.
  induction 1 as [|x l Hx _ [ids IH]]; [exists []; reflexivity|].
  destruct (decodes_back_spec x Hx) as (id & _ & Hid & _).
  exists (id :: ids). cbn [map]. rewrite Hid, IH. reflexivity.
Qed.

(** What [save_boards] stores for a board of a root without history reached
    by legal moves: the boards from the root to the board, one move apart,
    numbered from 0, with configuration ids that are all different. *)
Lemma sequence_of_a_played_board root ms :
  wf root -> previous_board root = None -> legal_path root ms ->
  let x := play root ms in
  let sequence := rev (commands.sequenced_boards x) in
  sequence !! 0%nat = Some root /\
  last sequence = Some x /\
  (length sequence + occupied_count x = S (occupied_count root))%nat /\
  (forall i a b,
      sequence !! i = Some a -> sequence !! S i = Some b ->
      exists ms' start end_ jump,
        moves a = Ok ms' /\ In (start, end_, jump) ms' /\
        (new_board ← copy a; run_on (move start end_ jump) new_board) = Ok b) /\
  map fst (commands.ordered_configuration_ids x) =
  map Z.of_nat (seq 0 (length sequence)) /\
  exists ids,
    map snd (commands.ordered_configuration_ids x) = map Some ids /\ NoDup ids.
Proof.
  intros Hwf Hprev Hp x sequence.
  assert (E : sequence = trail root ms) by (apply trail_of_a_root; exact Hprev).
  unfold commands.ordered_configuration_ids. fold sequence. rewrite E. clear E sequence.
  destruct (trail_head root ms) as [rest Hhead].
  split; [rewrite Hhead; reflexivity|].
  split; [apply trail_last|].
  assert (Hlast : trail root ms !! length ms = Some x).
  { pose proof (trail_last root ms) as H. rewrite last_lookup, trail_length in H.
    exact H. }
  destruct (trail_steps root ms _ x Hwf Hp Hlast) as (Wx & Hcx & _).
  split; [rewrite trail_length; lia|].
  split.
  { intros i a b Ha Hb.
    destruct (trail_steps root ms i a Hwf Hp Ha) as (Wa & _ & Hnext).
    destruct (Hnext b Hb) as ([[s e] j] & Hm & ->).
    exists (all_moves a), s, e, j. split; [apply moves_ok; exact Wa|].
    split; [exact Hm|]. apply child_ok; assumption. }
  split; [apply (imap_orders (trail root ms) 0)|].
  rewrite (imap_ids (fun order _ => Z.of_nat order)).
  assert (Hall : Forall wf (trail root ms)).
  { apply List.Forall_forall. intros a Ha.
    apply list_elem_of_In, list_elem_of_lookup in Ha. destruct Ha as [i Hi].
    apply (trail_steps root ms i a Hwf Hp Hi). }
  destruct (all_have_ids _ Hall) as [ids Hids].
  exists ids. split; [exact Hids|].
  pose proof (trail_ids_differ root ms Hwf Hp) as Hnd. rewrite Hids in Hnd.
  apply NoDup_ListNoDup in Hnd. apply NoDup_ListNoDup.
  apply (List.NoDup_map_inv Some). exact Hnd.
Qed.

(** The sequences that [save_boards] stores after [solve]: for every won or
    lost board, following [previous_board] back and reversing gives the game
    that led to it, from the root of the search to the board, each board one
    legal move after the one before; it is stored with the orders 0, 1, 2, ...
    and with configuration ids that are all different. *)
Theorem saved_sequences_retrace_the_games (empty_pos : Z) (fuel : nat) :
  in_range empty_pos -> (15 <= fuel)%nat ->
  exists root won_boards lost_boards,
    Board_init empty_pos None = Ok root /\
    commands.solve fuel empty_pos = Some (Ok (won_boards, lost_boards)) /\
    forall x, In x won_boards \/ In x lost_boards ->
      let sequence := rev (commands.sequenced_boards x) in
      sequence !! 0%nat = Some root /\
      last sequence = Some x /\
      (length sequence + length (occupied_positions x) = 15)%nat /\
      (forall i a b,
          sequence !! i = Some a -> sequence !! S i = Some b ->
          exists ms start end_ jump,
            moves a = Ok ms /\ In (start, end_, jump) ms /\
            (new_board ← copy a; run_on (move start end_ jump) new_board) = Ok b) /\
      map fst (commands.ordered_configuration_ids x) =
      map Z.of_nat (seq 0 (length sequence)) /\
      exists ids,
        map snd (commands.ordered_configuration_ids x) = map Some ids /\ NoDup ids.
Proof.
  intros Hp Hfuel.
  destruct (solve_collects_every_generation empty_pos Hp)
    as (root & k & Hinit & Hk & Hempty & Hbefore & Hsolve).
  destruct (Board_init_ok empty_pos None Hp)
    as (root' & Hinit' & Hwf & Hprev & _ & _ & Hcount).
  assert (root' = root) by congruence. subst root'.
  exists root, (all_won k [root]), (all_dead_ends k [root]).
  split; [exact Hinit|]. split; [apply Hsolve; exact Hfuel|].
  intros x Hx.
  assert (Hplayed : exists ms, legal_path root ms /\ x = play root ms).
  { destruct Hx as [Hx|Hx].
    - apply in_all_won in Hx. destruct Hx as (i & _ & Hx).
      apply in_newly_won in Hx. destruct Hx as (b & Hb & Hc & _).
      destruct (in_frontier_is_played i [root] b Hb) as (r & ms & Hr & _ & Hpl & ->).
      destruct Hr as [<-|[]].
      unfold children in Hc. apply in_map_iff in Hc. destruct Hc as (m & <- & Hm).
      exists (ms ++ [m]). split; [|symmetry; apply play_snoc].
      apply legal_path_snoc; [apply playable_is_legal; exact Hpl|exact Hm].
    - apply in_all_dead_ends_iff in Hx. destruct Hx as (i & _ & Hx).
      unfold dead_ends in Hx. apply filter_In in Hx. destruct Hx as [Hx _].
      destruct (in_frontier_is_played i [root] x Hx) as (r & ms & Hr & _ & Hpl & ->).
      destruct Hr as [<-|[]].
      exists ms. split; [apply playable_is_legal; exact Hpl|reflexivity]. }
  destruct Hplayed as (ms & Hlegal & ->).
  pose proof (sequence_of_a_played_board root ms Hwf Hprev Hlegal) as H.
  cbn zeta in H |- *. rewrite Hcount in H.
  destruct H as (H0 & H1 & H2 & H3 & H4 & H5).
  split; [exact H0|]. split; [exact H1|].
  split; [unfold occupied_count in H2; lia|].
  split; [exact H3|]. split; [exact H4|exact H5].
Qed.

Lemma saved_sequences_retrace_the_games_witness :
  exists root won_boards lost_boards,
    Board_init 14 None = Ok root /\
    commands.solve 15 14 = Some (Ok (won_boards, lost_boards)) /\
    forall x, In x won_boards \/ In x lost_boards ->
      let sequence := rev (commands.sequenced_boards x) in
      sequence !! 0%nat = Some root /\
      last sequence = Some x /\
      (length sequence + length (occupied_positions x) = 15)%nat /\
      (forall i a b,
          sequence !! i = Some a -> sequence !! S i = Some b ->
          exists ms start end_ jump,
            moves a = Ok ms /\ In (start, end_, jump) ms /\
            (new_board ← copy a; run_on (move start end_ jump) new_board) = Ok b) /\
      map fst (commands.ordered_configuration_ids x) =
      map Z.of_nat (seq 0 (length sequence)) /\
      exists ids,
        map snd (commands.ordered_configuration_ids x) = map Some ids /\ NoDup ids.
Proof.
  refine (saved_sequences_retrace_the_games 14 15 _ _); [unfold in_range|]; lia.
Defined.

(** ** Loops with an invariant *)

Lemma for_each_invariant {A S : Type} (P : list A -> S -> Prop)
      (body : S -> A -> result S) (l : list A) (s : S) :
  P [] s ->
  (forall done a rest s, l = done ++ a :: rest -> P done s ->
                         exists s', body s a = Ok s' /\ P (done ++ [a]) s') ->
  exists s', for_each body l s = Ok s' /\ P l s'.
Proof.
  intros H0 Hstep.
  assert (G : forall rest done s1, l = done ++ rest -> P done s1 ->
                exists s', for_each body rest s1 = Ok s' /\ P (done ++ rest) s').
  { induction rest as [|a rest IH]; intros done s1 Hl H1.
    - exists s1. rewrite app_nil_r. split; [reflexivity|exact H1].
    - destruct (Hstep done a rest s1 Hl H1) as (s2 & E & H2).
      destruct (IH (done ++ [a]) s2) as (s3 & E3 & H3);
        [rewrite <- app_assoc; exact Hl|exact H2|].
      exists s3. cbn [for_each]. rewrite E, bind_Ok, E3.
      rewrite <- app_assoc in H3. split; [reflexivity|exact H3]. }
  apply (G l [] s eq_refl H0).
Qed.

Lemma for_each_app {A S : Type} (body : S -> A -> result S) (l1 l2 : list A) (s : S) :
  for_each body (l1 ++ l2) s = (s' ← for_each body l1 s; for_each body l2 s').
Proof.
  revert s. induction l1 as [|a l1 IH]; intros s; [reflexivity|].
  cbn [app for_each]. destruct (body s a) as [s1|e]; [|reflexivity].
  rewrite !bind_Ok. apply IH.
Qed.

(** ** Grouping the solutions *)

Lemma place_spec (object_id : Board -> Z) board solution_sets :
  wf board ->
  Forall (fun set => exists first rest,
              set = first :: rest /\ Forall wf set /\
              Forall (fun b => pins b = pins first) set) solution_sets ->
  exists placed,
    core.place board solution_sets = Ok placed /\
    match placed with
    | Some sets' =>
        Forall (fun set => exists first rest,
                    set = first :: rest /\ Forall wf set /\
                    Forall (fun b => pins b = pins first) set) sets' /\
        concat sets' ≡ₚ concat solution_sets ++ [board] /\
        map (fun set => pins <$> head set) sets' =
        map (fun set => pins <$> head set) solution_sets /\
        In (Some (pins board)) (map (fun set => pins <$> head set) solution_sets)
    | None =>
        ~ In (Some (pins board)) (map (fun set => pins <$> head set) solution_sets)
    end.
Proof.
  intros Hwf H. induction H as [|set sets Hset Hsets IH].
  - exists None. split; [reflexivity|]. intros [].
  - destruct Hset as (first & rest & -> & Hwfs & Hsame).
    cbn [core.place].
    assert (Wf : wf first) by (inversion Hwfs; assumption).
    rewrite Board_eq_spec by assumption. rewrite bind_Ok.
    destruct (bool_decide (pins board = pins first)) eqn:E.
    + apply bool_decide_eq_true in E.
      exists (Some (((first :: rest) ++ [board]) :: sets)). split; [reflexivity|].
      split; [|split; [|split]].
      * constructor; [|exact Hsets].
        exists first, (rest ++ [board]). split; [reflexivity|].
        split; apply Forall_app; (split; [assumption|]); constructor;
          (assumption || constructor).
      * cbn [concat]. rewrite <- !app_assoc.
        apply Permutation_app_head. apply Permutation_app_comm.
      * reflexivity.
      * left. cbn. rewrite E. reflexivity.
    + apply bool_decide_eq_false in E.
      destruct IH as (placed & -> & Hplaced). rewrite bind_Ok.
      destruct placed as [sets'|]; cbn [option_map].
      * exists (Some ((first :: rest) :: sets')). split; [reflexivity|].
        destruct Hplaced as (H1 & H2 & H3 & H4).
        split; [|split; [|split]].
        -- constructor; [|exact H1]. exists first, rest. auto.
        -- cbn [concat]. rewrite H2. rewrite <- app_assoc. reflexivity.
        -- cbn [map]. rewrite H3. reflexivity.
        -- right. exact H4.
      * exists None. split; [reflexivity|].
        intros [Hin|Hin]; [|exact (Hplaced Hin)].
        cbn in Hin. inversion Hin. congruence.
Qed.

(** [consolidate_solutions] on won boards: it returns solution sets that
    together hold the boards of the input, each once; a set is not empty and
    all its boards are equal to its first board; the first boards of two
    different sets are not equal. *)
Theorem consolidate_solutions_groups_equal_boards
        (object_id : Board -> Z) (boards : list Board) :
  Forall wf boards -> Forall (fun b => is_won b = true) boards ->
  exists solution_sets,
    core.consolidate_solutions object_id boards = Ok (core.SolutionSets solution_sets) /\
    concat solution_sets ≡ₚ boards /\
    (forall set, In set solution_sets ->
       exists first rest,
         set = first :: rest /\
         forall b, In b set -> Board_eq b first = Ok true) /\
    (forall i j first rest first' rest',
       solution_sets !! i = Some (first :: rest) ->
       solution_sets !! j = Some (first' :: rest') ->
       i <> j -> Board_eq first first' = Ok false).
Proof.
  intros Hwf Hwon. unfold core.consolidate_solutions.
  assert (Hnone : List.find (fun board => negb (is_won board)) boards = None).
  { destruct (List.find (fun board => negb (is_won board)) boards) as [b|] eqn:E;
      [|reflexivity].
    apply find_some in E. destruct E as [Hb Hn].
    rewrite List.Forall_forall in Hwon. rewrite (Hwon b Hb) in Hn. discriminate Hn. }
  rewrite Hnone.
  pose (Inv := fun (done : list Board) (sets : list (list Board)) =>
    Forall (fun set => exists first rest,
                set = first :: rest /\ Forall wf set /\
                Forall (fun b => pins b = pins first) set) sets /\
    concat sets ≡ₚ done /\
    NoDup (map (fun set => pins <$> head set) sets)).
  destruct (for_each_invariant Inv
    (fun solution_sets board =>
       match solution_sets with
       | [] => Ok [[board]]
       | _ :: _ =>
           placed ← core.place board solution_sets;
           match placed with
           | Some solution_sets' => Ok solution_sets'
           | None => Ok (solution_sets ++ [[board]])
           end
       end) boards []) as (sets & Hrun & Hinv).
  { unfold Inv. split; [constructor|]. split; [reflexivity|]. apply NoDup_nil_2. }
  { unfold Inv. intros done board later sets Hl (H1 & H2 & H3).
    assert (Hb : In board boards)
      by (rewrite Hl; apply in_or_app; right; left; reflexivity).
    rewrite List.Forall_forall in Hwf. pose proof (Hwf _ Hb) as Wb.
    assert (Hfresh :
      ~ In (Some (pins board)) (map (fun set => pins <$> head set) sets) ->
      Forall (fun set => exists first rest,
                  set = first :: rest /\ Forall wf set /\
                  Forall (fun b => pins b = pins first) set) (sets ++ [[board]]) /\
      concat (sets ++ [[board]]) ≡ₚ done ++ [board] /\
      NoDup (map (fun set => pins <$> head set) (sets ++ [[board]]))).
    { intros Hnot. split; [|split].
      - apply Forall_app. split; [exact H1|]. constructor; [|constructor].
        exists board, []. split; [reflexivity|].
        split; constructor; (assumption || reflexivity || constructor).
      - rewrite concat_app. cbn [concat]. rewrite app_nil_r, H2. reflexivity.
      - rewrite map_app. cbn [map head fmap option_fmap option_map].
        apply NoDup_app. split; [exact H3|]. split; [|apply NoDup_singleton].
        intros x Hx Hx'. apply list_elem_of_singleton in Hx'. subst x.
        apply Hnot. apply list_elem_of_In. exact Hx. }
    destruct sets as [|set sets'] eqn:Es.
    - exists [[board]]. split; [reflexivity|]. apply (Hfresh (fun H => H)).
    - rewrite <- Es in *.
      destruct (place_spec object_id board sets Wb H1) as (placed & -> & Hplaced).
      rewrite bind_Ok. destruct placed as [sets''|].
      + exists sets''. split; [reflexivity|].
        destruct Hplaced as (P1 & P2 & P3 & _).
        split; [exact P1|]. split; [rewrite P2, H2; reflexivity|].
        rewrite P3. exact H3.
      + exists (sets ++ [[board]]). split; [reflexivity|]. apply Hfresh. exact Hplaced. }
  rewrite Hrun, bind_Ok. exists sets. split; [reflexivity|].
  unfold Inv in Hinv. destruct Hinv as (H1 & H2 & H3). split; [exact H2|]. split.
  - intros set Hset. rewrite List.Forall_forall in H1.
    destruct (H1 set Hset) as (first & rest & -> & Hwfs & Hsame).
    exists first, rest. split; [reflexivity|]. intros b Hb.
    rewrite List.Forall_forall in Hwfs, Hsame.
    rewrite Board_eq_spec by (apply Hwfs; first [exact Hb|left; reflexivity]).
    f_equal. apply bool_decide_eq_true. apply Hsame. exact Hb.
  - intros i j first rest first' rest' Hi Hj Hne.
    rewrite List.Forall_forall in H1.
    assert (W : wf first /\ wf first').
    { split.
      - destruct (H1 _ (proj1 (list_elem_of_In _ _) (list_elem_of_lookup_2 _ _ _ Hi)))
          as (f & r & E & Hw & _). rewrite List.Forall_forall in Hw.
        apply Hw. left. reflexivity.
      - destruct (H1 _ (proj1 (list_elem_of_In _ _) (list_elem_of_lookup_2 _ _ _ Hj)))
          as (f & r & E & Hw & _). rewrite List.Forall_forall in Hw.
        apply Hw. left. reflexivity. }
    rewrite Board_eq_spec by tauto. f_equal. apply bool_decide_eq_false.
    intros Heq. apply Hne.
    apply (proj1 (NoDup_alt _) H3 i j (Some (pins first))).
    + change (map ?f ?l) with (f <$> l).
      rewrite list_lookup_fmap, Hi. reflexivity.
    + change (map ?f ?l) with (f <$> l).
      rewrite list_lookup_fmap, Hj. cbn. rewrite Heq. reflexivity.
Qed.

Lemma consolidate_solutions_groups_equal_boards_witness :
  let one_pin := mkBoard [false; false; false; true; false; false; false; false;
                          false; false; false; false; false; false; false] in
  exists solution_sets,
    core.consolidate_solutions (fun _ => 0)
      [one_pin None 14; one_pin (Some board14) 3] =
    Ok (core.SolutionSets solution_sets) /\
    concat solution_sets ≡ₚ [one_pin None 14; one_pin (Some board14) 3] /\
    (forall set, In set solution_sets ->
       exists first rest,
         set = first :: rest /\
         forall b, In b set -> Board_eq b first = Ok true) /\
    (forall i j first rest first' rest',
       solution_sets !! i = Some (first :: rest) ->
       solution_sets !! j = Some (first' :: rest') ->
       i <> j -> Board_eq first first' = Ok false).
Proof.
  intros one_pin.
  apply (consolidate_solutions_groups_equal_boards (fun _ => 0)
           [one_pin None 14; one_pin (Some board14) 3]).
  - repeat constructor; unfold in_range; cbn; lia.
  - repeat constructor.
Defined.

(** ** Canonicalisation *)

Lemma carries_iff tx board target :
  wf board -> wf target -> Forall pair_in_range tx ->
  carries tx board target <->
  substitute (pins board) tx (pins board) = pins target.
Proof.
  intros Wb Wt Htx. unfold carries.
  rewrite copy_ok by assumption. rewrite bind_Ok.
  unfold run_on. rewrite transform_ok by (try apply wf_copy; assumption).
  set (t := with_pins _ _).
  assert (W : wf t).
  { apply wf_with_pins; [apply wf_copy; assumption|].
    rewrite length_substitute. apply Wb. }
  assert (Hp : pins t = substitute (pins board) tx (pins board)) by reflexivity.
  split.
  - intros (t_board & Ht & Heq). assert (t_board = t) by congruence. subst t_board.
    rewrite Board_eq_spec in Heq by assumption.
    assert (E : bool_decide (pins t = pins target) = true) by congruence.
    apply bool_decide_eq_true in E. congruence.
  - intros E. exists t. split; [reflexivity|].
    rewrite Board_eq_spec by assumption. f_equal.
    apply bool_decide_eq_true. congruence.
Qed.

Lemma transformations_loop board working_conf unique_configurations txs unique session :
  wf board ->
  Forall (fun entry => wf (snd entry)) unique_configurations ->
  Forall (fun named => Forall pair_in_range (snd named)) txs ->
  for_each
    (fun '(unique, session) '(desc, tx) =>
       matched_conf ← commands.check_transformation board tx unique_configurations;
       match matched_conf with
       | Some matched_conf =>
           Ok (false,
               session ++ [commands.mkTransformation matched_conf working_conf desc])
       | None => Ok (unique, session)
       end)
    txs (unique, session)
  = let found :=
      flat_map
        (fun '(desc, tx) =>
           match List.find
                   (fun entry =>
                      bool_decide
                        (substitute (pins board) tx (pins board) = pins (snd entry)))
                   unique_configurations with
           | Some entry => [(desc, fst entry)]
           | None => []
           end) txs in
    Ok (match found with [] => unique | _ :: _ => false end,
        session ++ map (fun '(desc, matched_conf) =>
                          commands.mkTransformation matched_conf working_conf desc)
                       found).
Proof.
  intros Wb Wu Htxs. revert unique session.
  induction Htxs as [|[desc tx] txs Htx _ IH]; intros unique session.
  - cbn. rewrite app_nil_r. reflexivity.
  - cbn [for_each snd] in *.
    rewrite check_transformation_first_match by assumption. rewrite bind_Ok.
    cbn [flat_map].
    destruct (List.find _ unique_configurations) as [[matched_conf b]|];
      cbn [option_map fst]; rewrite bind_Ok, IH; cbn zeta.
    + cbn [app map]. rewrite <- app_assoc. cbn [app].
      destruct (flat_map _ txs); reflexivity.
    + cbn [app]. reflexivity.
Qed.

Lemma valid_transformations_in_range :
  Forall (fun named : string * list (Z * Z) => Forall pair_in_range (snd named))
         valid_transformations.
Proof.
  apply List.Forall_forall. intros [name tx] Hin. cbn [snd].
  apply (five_tables_in_range name tx Hin).
Qed.

Lemma matches_nil board : matches board [] = [].
Proof. reflexivity. Qed.

(** One round of the loop of [findtransformations]. *)
Lemma findtransformations_round session unique_configurations working_conf board :
  from_configuration_id (commands.id working_conf) = Ok board ->
  wf board ->
  Forall (fun entry => wf (snd entry)) unique_configurations ->
  (board ← from_configuration_id (commands.id working_conf);
   '(unique, session) ←
     match unique_configurations with
     | [] => Ok (true, session)
     | _ :: _ =>
         for_each
           (fun '(unique, session) '(desc, tx) =>
              matched_conf ← commands.check_transformation board tx unique_configurations;
              match matched_conf with
              | Some matched_conf =>
                  Ok (false,
                      session ++ [commands.mkTransformation matched_conf working_conf desc])
              | None => Ok (unique, session)
              end)
           valid_transformations (true, session)
     end;
   if unique : bool
   then Ok (session, unique_configurations ++ [(working_conf, board)])
   else Ok (session, unique_configurations))
  = Ok (canonical_step (session, unique_configurations) working_conf board).
Proof.
  intros Hd Wb Wu. rewrite Hd, bind_Ok. unfold canonical_step.
  destruct unique_configurations as [|entry rest] eqn:E.
  - rewrite bind_Ok. reflexivity.
  - rewrite <- E in *.
    rewrite (transformations_loop board working_conf unique_configurations
               valid_transformations true session Wb Wu valid_transformations_in_range).
    cbn zeta. rewrite bind_Ok. fold (matches board unique_configurations).
    destruct (matches board unique_configurations) as [|found0 found];
      [rewrite app_nil_r|]; reflexivity.
Qed.

Lemma decodes_to_wf x board : from_configuration_id x = Ok board -> wf board.
Proof.
  intros H.
  destruct (Z.lt_ge_cases x 0) as [H0|H0];
    [rewrite from_configuration_id_negative in H by lia; discriminate|].
  destruct (Z.lt_ge_cases x (2 ^ 15)) as [H1|H1];
    [|rewrite from_configuration_id_big in H by lia; discriminate].
  destruct (from_configuration_id_small x ltac:(lia)) as (b & E & W). congruence.
Qed.

Lemma matches_sound board unique_configurations desc matched_conf :
  wf board -> Forall (fun entry => wf (snd entry)) unique_configurations ->
  In (desc, matched_conf) (matches board unique_configurations) ->
  exists tx unique_board,
    In (desc, tx) valid_transformations /\
    In (matched_conf, unique_board) unique_configurations /\
    carries tx board unique_board.
Proof.
  intros Wb Wu Hin. unfold matches in Hin. apply in_flat_map in Hin.
  destruct Hin as ([desc' tx] & Htx & Hin).
  destruct (List.find _ unique_configurations) as [[c b]|] eqn:E; [|destruct Hin].
  destruct Hin as [Heq|[]]. cbn [fst] in Heq. inversion Heq; subst desc' c.
  apply find_some in E. destruct E as [Hentry Hpins]. cbn [snd] in Hpins.
  apply bool_decide_eq_true in Hpins.
  exists tx, b. split; [exact Htx|]. split; [exact Hentry|].
  rewrite List.Forall_forall in Wu.
  apply carries_iff; [assumption|apply (Wu _ Hentry)| |exact Hpins].
  apply (five_tables_in_range desc tx Htx).
Qed.

Lemma no_matches board unique_configurations :
  wf board -> Forall (fun entry => wf (snd entry)) unique_configurations ->
  matches board unique_configurations = [] ->
  forall name tx entry,
    In (name, tx) valid_transformations -> In entry unique_configurations ->
    ~ carries tx board (snd entry).
Proof.
  intros Wb Wu Hnone name tx entry Htx Hentry Hc.
  rewrite List.Forall_forall in Wu.
  apply carries_iff in Hc;
    [|assumption|apply (Wu _ Hentry)|apply (five_tables_in_range name tx Htx)].
  assert (Hin : In (name, tx) valid_transformations) by exact Htx.
  unfold matches in Hnone.
  assert (Hpart : match List.find
                          (fun entry =>
                             bool_decide (substitute (pins board) tx (pins board) =
                                          pins (snd entry)))
                          unique_configurations with
                  | Some entry => [(name, fst entry)]
                  | None => []
                  end = []).
  { destruct (List.find _ unique_configurations) as [e|] eqn:E; [|reflexivity].
    exfalso.
    assert (Hx : In (name, fst e)
                    (flat_map
                       (fun '(desc, tx) =>
                          match List.find
                                  (fun entry =>
                                     bool_decide
                                       (substitute (pins board) tx (pins board) =
                                        pins (snd entry)))
                                  unique_configurations with
                          | Some entry => [(desc, fst entry)]
                          | None => []
                          end) valid_transformations)).
    { apply in_flat_map. exists (name, tx). split; [exact Hin|].
      rewrite E. left. reflexivity. }
    rewrite Hnone in Hx. destruct Hx. }
  destruct (List.find _ unique_configurations) as [e|] eqn:E; [discriminate Hpart|].
  pose proof (find_none _ _ E entry Hentry) as Hf. cbn beta in Hf.
  apply bool_decide_eq_false in Hf. contradiction.
Qed.

(** What holds after the loop of [findtransformations] has gone through the
    configurations [done]. *)
Lemma findtransformations_invariant (configurations : list commands.Configuration) :
  Forall (fun c => 0 <= commands.id c < 2 ^ 15) configurations ->
  exists session unique_configurations,
    commands.findtransformations_loop configurations =
    Ok (session, unique_configurations) /\
    Forall (fun entry => from_configuration_id (commands.id (fst entry)) = Ok (snd entry))
           unique_configurations /\
    map fst unique_configurations `sublist_of` configurations /\
    (forall c, In c configurations ->
       In c (map fst unique_configurations) \/
       exists row, In row session /\ commands.from_configuration row = c) /\
    (forall row, In row session ->
       In (commands.from_configuration row) configurations /\
       exists tx board unique_board,
         In (commands.desc row, tx) valid_transformations /\
         In (commands.to_configuration row, unique_board) unique_configurations /\
         from_configuration_id (commands.id (commands.from_configuration row)) = Ok board /\
         carries tx board unique_board) /\
    (forall i j earlier later,
       unique_configurations !! i = Some earlier ->
       unique_configurations !! j = Some later -> (i < j)%nat ->
       forall name tx, In (name, tx) valid_transformations ->
                       ~ carries tx (snd later) (snd earlier)) /\
    head (map fst unique_configurations) = head configurations /\
    (NoDup configurations ->
     forall row, In row session ->
                 ~ In (commands.from_configuration row) (map fst unique_configurations)).
Proof.
  intros Hids. unfold commands.findtransformations_loop.
  pose (Inv := fun (done : list commands.Configuration)
                   (state : list commands.Transformation *
                            list (commands.Configuration * Board)) =>
    let '(session, unique_configurations) := state in
    Forall (fun entry => from_configuration_id (commands.id (fst entry)) = Ok (snd entry))
           unique_configurations /\
    map fst unique_configurations `sublist_of` done /\
    (forall c, In c done ->
       In c (map fst unique_configurations) \/
       exists row, In row session /\ commands.from_configuration row = c) /\
    (forall row, In row session ->
       In (commands.from_configuration row) done /\
       exists tx board unique_board,
         In (commands.desc row, tx) valid_transformations /\
         In (commands.to_configuration row, unique_board) unique_configurations /\
         from_configuration_id (commands.id (commands.from_configuration row)) = Ok board /\
         carries tx board unique_board) /\
    (forall i j earlier later,
       unique_configurations !! i = Some earlier ->
       unique_configurations !! j = Some later -> (i < j)%nat ->
       forall name tx, In (name, tx) valid_transformations ->
                       ~ carries tx (snd later) (snd earlier)) /\
    head (map fst unique_configurations) = head done /\
    (NoDup configurations ->
     forall row, In row session ->
                 ~ In (commands.from_configuration row) (map fst unique_configurations))).
  match goal with
  | |- exists session unique_configurations,
        for_each ?body configurations ([], []) = _ /\ _ =>
      destruct (for_each_invariant Inv body configurations ([], []))
        as ([session uniques] & Hrun & Hinv)
  end.
  { unfold Inv. split; [constructor|]. split; [reflexivity|].
    split; [intros c []|]. split; [intros row []|].
    split; [intros i j e l Hi; rewrite lookup_nil in Hi; discriminate Hi|].
    split; [reflexivity|]. intros _ row []. }
  { intros done a rest [session uniques] Hl H. unfold Inv in H.
    destruct H as (I1 & I2 & I3 & I4 & I5 & I6 & I7).
    assert (Ha : In a configurations)
      by (rewrite Hl; apply in_or_app; right; left; reflexivity).
    assert (Hfresh : NoDup configurations -> ~ In a done).
    { intros Hnd Hin. rewrite Hl in Hnd. apply NoDup_app in Hnd.
      destruct Hnd as (_ & Hdisj & _).
      apply (Hdisj a); [apply list_elem_of_In; exact Hin|].
      apply list_elem_of_In. left. reflexivity. }
    assert (Hsub : forall c, In c (map fst uniques) -> In c done).
    { intros c Hc. apply list_elem_of_In.
      apply (elem_of_sublist (map fst uniques) done); [|exact I2].
      apply list_elem_of_In. exact Hc. }
    rewrite List.Forall_forall in Hids. pose proof (Hids a Ha) as Hid.
    destruct (from_configuration_id_small _ Hid) as (board & Hd & Wb).
    assert (Wu : Forall (fun entry => wf (snd entry)) uniques).
    { rewrite List.Forall_forall in I1. apply List.Forall_forall. intros e He.
      apply (decodes_to_wf _ _ (I1 e He)). }
    exists (canonical_step (session, uniques) a board).
    split; [apply findtransformations_round; assumption|].
    unfold canonical_step, Inv.
    destruct (matches board uniques) as [|found0 found] eqn:Em.
    - (* no transformation matches: [a] is unique *)
      split; [apply Forall_app; split; [exact I1|]; constructor; [exact Hd|constructor]|].
      split; [rewrite map_app; apply sublist_app; [exact I2|reflexivity]|].
      split.
      { intros c Hc. apply in_app_or in Hc. rewrite map_app.
        destruct Hc as [Hc|[<-|[]]].
        - destruct (I3 c Hc) as [H|H]; [left; apply in_or_app; left; exact H|right; exact H].
        - left. apply in_or_app. right. left. reflexivity. }
      split.
      { intros row Hrow. destruct (I4 row Hrow) as (Hfrom & tx & b & ub & H1 & H2 & H3).
        split; [apply in_or_app; left; exact Hfrom|].
        exists tx, b, ub. split; [exact H1|].
        split; [apply in_or_app; left; exact H2|exact H3]. }
      split.
      { intros i j earlier later Hi Hj Hlt name tx Htx.
        destruct (Nat.lt_ge_cases j (length uniques)) as [Hj'|Hj'].
        - rewrite lookup_app_l in Hi, Hj by lia. eapply I5; eassumption.
        - rewrite lookup_app_r in Hj by lia.
          destruct (j - length uniques)%nat as [|n] eqn:En; [|discriminate Hj].
          cbn in Hj. inversion Hj; subst later. cbn [snd].
          rewrite lookup_app_l in Hi by lia.
          apply (no_matches board uniques Wb Wu Em name tx earlier Htx).
          apply list_elem_of_In. apply (list_elem_of_lookup_2 _ i). exact Hi. }
      split.
      { rewrite map_app. clear -I6. destruct uniques as [|u us].
        - cbn in I6. destruct done; [reflexivity|discriminate I6].
        - cbn [map app head] in *. destruct done; [discriminate I6|exact I6]. }
      intros Hnd row Hrow Hin. rewrite map_app in Hin. apply in_app_or in Hin.
      destruct Hin as [Hin|[Heq|[]]]; [exact (I7 Hnd row Hrow Hin)|].
      cbn [fst] in Heq. apply (Hfresh Hnd). rewrite Heq.
      apply (I4 row Hrow).
    - (* some transformation matches: rows are added *)
      assert (Hne : uniques <> []).
      { intros ->. rewrite matches_nil in Em. discriminate Em. }
      split; [exact I1|].
      split; [apply sublist_inserts_r; exact I2|].
      split.
      { intros c Hc. apply in_app_or in Hc. destruct Hc as [Hc|[<-|[]]].
        - destruct (I3 c Hc) as [H|(row & Hrow & Hfrom)]; [left; exact H|right].
          exists row. split; [apply in_or_app; left; exact Hrow|exact Hfrom].
        - right. destruct found0 as [desc0 c0].
          exists (commands.mkTransformation c0 a desc0).
          split; [|reflexivity]. apply in_or_app. right. left. reflexivity. }
      split.
      { intros row Hrow. apply in_app_or in Hrow. destruct Hrow as [Hrow|Hrow].
        - destruct (I4 row Hrow) as (Hfrom & H). split; [|exact H].
          apply in_or_app. left. exact Hfrom.
        - apply in_map_iff in Hrow. destruct Hrow as ([desc c] & <- & Hf).
          cbn [commands.from_configuration commands.desc commands.to_configuration].
          split; [apply in_or_app; right; left; reflexivity|].
          rewrite <- Em in Hf.
          destruct (matches_sound board uniques desc c Wb Wu Hf) as (tx & ub & H1 & H2 & H3).
          exists tx, board, ub. auto. }
      split; [exact I5|].
      split.
      { clear -I6 Hne. destruct uniques as [|u us]; [contradiction|].
        cbn [map head] in *. destruct done; [discriminate I6|exact I6]. }
      intros Hnd row Hrow Hin. apply in_app_or in Hrow. destruct Hrow as [Hrow|Hrow].
      + exact (I7 Hnd row Hrow Hin).
      + apply in_map_iff in Hrow. destruct Hrow as ([desc c] & <- & _).
        cbn [commands.from_configuration] in Hin.
        apply (Hfresh Hnd). apply Hsub. exact Hin. }
  exists session, uniques. split; [exact Hrun|]. exact Hinv.
Qed.

(** ** The commit *)

Lemma commit_cases (table session : list commands.Transformation) :
  (new_keys table session /\ commands.commit table session = Ok (table ++ session)) \/
  (~ new_keys table session /\ commands.commit table session = Raise IntegrityError).
Proof.
  revert table. induction session as [|row session IH]; intros table.
  - left. split; [|cbn; rewrite app_nil_r; reflexivity].
    split; [constructor|intros row []].
  - cbn [commands.commit].
    destruct (bool_decide (commands.primary_key row ∈ map commands.primary_key table))
      eqn:E.
    + right. split; [|reflexivity]. apply bool_decide_eq_true in E.
      apply list_elem_of_In in E. intros [_ H]. apply (H row); [left; reflexivity|exact E].
    + apply bool_decide_eq_false in E.
      assert (E' : ~ In (commands.primary_key row) (map commands.primary_key table)).
      { intros H. apply E. apply list_elem_of_In. exact H. }
      destruct (IH (table ++ [row])) as [[[Hnd Hnew] Hok]|[Hno Hraise]].
      * left. split; [|rewrite Hok, <- app_assoc; reflexivity].
        split.
        -- cbn [map]. apply NoDup_cons. split; [|exact Hnd].
           intros Hin. apply list_elem_of_In in Hin. apply in_map_iff in Hin.
           destruct Hin as (row' & Hk & Hin). apply (Hnew row' Hin).
           rewrite map_app. apply in_or_app. right. left. congruence.
        -- intros row' [<-|Hin]; [exact E'|].
           intros H. apply (Hnew row' Hin). rewrite map_app.
           apply in_or_app. left. exact H.
      * right. split; [|exact Hraise]. intros [Hnd Hnew]. apply Hno.
        cbn [map] in Hnd. apply NoDup_cons in Hnd. destruct Hnd as [Hrow Hnd].
        split; [exact Hnd|].
        intros row' Hin H. rewrite map_app in H. apply in_app_or in H.
        destruct H as [H|[H|[]]].
        -- apply (Hnew row'); [right; exact Hin|exact H].
        -- apply Hrow. rewrite H. apply list_elem_of_In. apply in_map. exact Hin.
Qed.

(** What [findtransformations] returns is settled by its loop and by the
    keys of the rows the loop added. *)
Lemma findtransformations_after_the_loop table configurations session uniques :
  commands.findtransformations_loop configurations = Ok (session, uniques) ->
  (new_keys table session ->
   commands.findtransformations table configurations =
   Ok (table ++ session, uniques)) /\
  (~ new_keys table session ->
   commands.findtransformations table configurations = Raise IntegrityError) /\
  (forall table' uniques',
     commands.findtransformations table configurations = Ok (table', uniques') ->
     table' = table ++ session /\ uniques' = uniques).
Proof.
  intros Hloop. unfold commands.findtransformations. rewrite Hloop, bind_Ok.
  destruct (commit_cases table session) as [[Hnew ->]|[Hno ->]].
  - split; [reflexivity|]. split; [contradiction|].
    intros table' uniques' E. cbn in E. injection E as <- <-. auto.
  - split; [contradiction|]. split; [reflexivity|].
    intros table' uniques' E. discriminate E.
Qed.

(** ** What the loop has done when the commit is reached *)

(** The loop of [findtransformations] over configurations whose ids are
    15-bit values reaches the commit without an exception; when the command
    returns, the unique configurations it counts are those of the loop, and
    the table holds the rows the loop added after the rows it had.  The unique
    configurations are picked from the input in its order, beginning with the
    first configuration, each with the board its id decodes to; every
    configuration either is among them or is the source of a row of the
    session, and when the input has no configuration twice, no configuration
    is both. *)
Theorem findtransformations_sorts_every_configuration
        (configurations : list commands.Configuration) :
  Forall (fun c => 0 <= commands.id c < 2 ^ 15) configurations ->
  exists session unique_configurations,
    commands.findtransformations_loop configurations =
    Ok (session, unique_configurations) /\
    (forall table table' unique_configurations',
       commands.findtransformations table configurations =
       Ok (table', unique_configurations') ->
       table' = table ++ session /\ unique_configurations' = unique_configurations) /\
    map fst unique_configurations `sublist_of` configurations /\
    head (map fst unique_configurations) = head configurations /\
    (forall unique_conf unique_board,
       In (unique_conf, unique_board) unique_configurations ->
       from_configuration_id (commands.id unique_conf) = Ok unique_board) /\
    (forall c, In c configurations ->
       In c (map fst unique_configurations) \/
       exists row, In row session /\ commands.from_configuration row = c) /\
    (NoDup configurations ->
     forall row, In row session ->
                 ~ In (commands.from_configuration row) (map fst unique_configurations)).
Proof.
  intros Hids.
  destruct (findtransformations_invariant configurations Hids)
    as (session & uniques & Hrun & I1 & I2 & I3 & _ & _ & I6 & I7).
  exists session, uniques. split; [exact Hrun|].
  split; [intros table; apply (findtransformations_after_the_loop table _ _ _ Hrun)|].
  split; [exact I2|].
  split; [exact I6|]. split; [|split; [exact I3|exact I7]].
  intros c b Hin. rewrite List.Forall_forall in I1. apply (I1 _ Hin).
Qed.

Lemma findtransformations_sorts_every_configuration_witness :
  let configurations :=
    [commands.mkConfiguration 16383 false; commands.mkConfiguration 32766 false] in
  exists session unique_configurations,
    commands.findtransformations_loop configurations =
    Ok (session, unique_configurations) /\
    (forall table table' unique_configurations',
       commands.findtransformations table configurations =
       Ok (table', unique_configurations') ->
       table' = table ++ session /\ unique_configurations' = unique_configurations) /\
    map fst unique_configurations `sublist_of` configurations /\
    head (map fst unique_configurations) = head configurations /\
    (forall unique_conf unique_board,
       In (unique_conf, unique_board) unique_configurations ->
       from_configuration_id (commands.id unique_conf) = Ok unique_board) /\
    (forall c, In c configurations ->
       In c (map fst unique_configurations) \/
       exists row, In row session /\ commands.from_configuration row = c) /\
    (NoDup configurations ->
     forall row, In row session ->
                 ~ In (commands.from_configuration row) (map fst unique_configurations)).
Proof.
  intros configurations.
  apply (findtransformations_sorts_every_configuration configurations).
  repeat constructor; cbn; lia.
Defined.

(** Every row the loop of [findtransformations] adds is a true relation: it
    leads from a configuration of the input to one of the unique
    configurations, and the transformation it names carries the board of the
    first onto the board of the second.  When the command returns, these rows
    are what it has added to the table. *)
Theorem findtransformations_rows_are_transformations
        (configurations : list commands.Configuration) :
  Forall (fun c => 0 <= commands.id c < 2 ^ 15) configurations ->
  exists session unique_configurations,
    commands.findtransformations_loop configurations =
    Ok (session, unique_configurations) /\
    (forall table table' unique_configurations',
       commands.findtransformations table configurations =
       Ok (table', unique_configurations') ->
       table' = table ++ session /\ unique_configurations' = unique_configurations) /\
    forall row, In row session ->
      In (commands.from_configuration row) configurations /\
      In (commands.to_configuration row) (map fst unique_configurations) /\
      exists tx board unique_board,
        In (commands.desc row, tx) valid_transformations /\
        from_configuration_id (commands.id (commands.from_configuration row)) = Ok board /\
        from_configuration_id (commands.id (commands.to_configuration row)) =
        Ok unique_board /\
        carries tx board unique_board.
Proof.
  intros Hids.
  destruct (findtransformations_invariant configurations Hids)
    as (session & uniques & Hrun & I1 & _ & _ & I4 & _).
  exists session, uniques. split; [exact Hrun|].
  split; [intros table; apply (findtransformations_after_the_loop table _ _ _ Hrun)|].
  intros row Hrow. destruct (I4 row Hrow) as (Hfrom & tx & b & ub & H1 & H2 & H3 & H4).
  split; [exact Hfrom|].
  split; [apply in_map_iff; exists (commands.to_configuration row, ub); auto|].
  exists tx, b, ub. split; [exact H1|]. split; [exact H3|]. split; [|exact H4].
  rewrite List.Forall_forall in I1. apply (I1 _ H2).
Qed.

Lemma findtransformations_rows_are_transformations_witness :
  let configurations :=
    [commands.mkConfiguration 16383 false; commands.mkConfiguration 32766 false] in
  exists session unique_configurations,
    commands.findtransformations_loop configurations =
    Ok (session, unique_configurations) /\
    (forall table table' unique_configurations',
       commands.findtransformations table configurations =
       Ok (table', unique_configurations') ->
       table' = table ++ session /\ unique_configurations' = unique_configurations) /\
    forall row, In row session ->
      In (commands.from_configuration row) configurations /\
      In (commands.to_configuration row) (map fst unique_configurations) /\
      exists tx board unique_board,
        In (commands.desc row, tx) valid_transformations /\
        from_configuration_id (commands.id (commands.from_configuration row)) = Ok board /\
        from_configuration_id (commands.id (commands.to_configuration row)) =
        Ok unique_board /\
        carries tx board unique_board.
Proof.
  intros configurations.
  apply (findtransformations_rows_are_transformations configurations).
  repeat constructor; cbn; lia.
Defined.

(** No unique configuration is a transformation of one found unique before
    it: for two entries of the list the loop of [findtransformations] ends
    with, which is the list the command counts when it returns, none of the
    five transformations carries the board of the later one onto the board of
    the earlier one. *)
Theorem findtransformations_uniques_are_unrelated
        (configurations : list commands.Configuration) :
  Forall (fun c => 0 <= commands.id c < 2 ^ 15) configurations ->
  exists session unique_configurations,
    commands.findtransformations_loop configurations =
    Ok (session, unique_configurations) /\
    (forall table table' unique_configurations',
       commands.findtransformations table configurations =
       Ok (table', unique_configurations') ->
       table' = table ++ session /\ unique_configurations' = unique_configurations) /\
    forall i j earlier later,
      unique_configurations !! i = Some earlier ->
      unique_configurations !! j = Some later -> (i < j)%nat ->
      forall name tx, In (name, tx) valid_transformations ->
                      ~ carries tx (snd later) (snd earlier).
Proof.
  intros Hids.
  destruct (findtransformations_invariant configurations Hids)
    as (session & uniques & Hrun & _ & _ & _ & _ & I5 & _).
  exists session, uniques. split; [exact Hrun|].
  split; [intros table; apply (findtransformations_after_the_loop table _ _ _ Hrun)|].
  exact I5.
Qed.

Lemma findtransformations_uniques_are_unrelated_witness :
  let configurations :=
    [commands.mkConfiguration 16383 false; commands.mkConfiguration 32766 false;
     commands.mkConfiguration 5 false] in
  exists session unique_configurations,
    commands.findtransformations_loop configurations =
    Ok (session, unique_configurations) /\
    (forall table table' unique_configurations',
       commands.findtransformations table configurations =
       Ok (table', unique_configurations') ->
       table' = table ++ session /\ unique_configurations' = unique_configurations) /\
    forall i j earlier later,
      unique_configurations !! i = Some earlier ->
      unique_configurations !! j = Some later -> (i < j)%nat ->
      forall name tx, In (name, tx) valid_transformations ->
                      ~ carries tx (snd later) (snd earlier).
Proof.
  intros configurations.
  apply (findtransformations_uniques_are_unrelated configurations).
  repeat constructor; cbn; lia.
Defined.

(** [findtransformations] over configurations whose ids are 15-bit values:
    the loop reaches the commit, and the commit decides.  When the rows the
    loop added have primary keys that are all different and not in the table,
    the command returns and the table holds these rows after the rows it had;
    otherwise the command ends with [IntegrityError].  No other exception
    occurs. *)
Theorem findtransformations_commits_new_keys_only
        (table : list commands.Transformation)
        (configurations : list commands.Configuration) :
  Forall (fun c => 0 <= commands.id c < 2 ^ 15) configurations ->
  exists session unique_configurations,
    commands.findtransformations_loop configurations =
    Ok (session, unique_configurations) /\
    (new_keys table session ->
     commands.findtransformations table configurations =
     Ok (table ++ session, unique_configurations)) /\
    (~ new_keys table session ->
     commands.findtransformations table configurations = Raise IntegrityError) /\
    (forall e, commands.findtransformations table configurations = Raise e ->
               e = IntegrityError /\ ~ new_keys table session).
Proof.
  intros Hids.
  destruct (findtransformations_invariant configurations Hids)
    as (session & uniques & Hrun & _).
  exists session, uniques. split; [exact Hrun|].
  destruct (findtransformations_after_the_loop table _ _ _ Hrun) as (Hok & Hraise & _).
  split; [exact Hok|]. split; [exact Hraise|].
  intros e He. destruct (commit_cases table session) as [[Hnew _]|[Hno _]].
  - rewrite (Hok Hnew) in He. discriminate He.
  - rewrite (Hraise Hno) in He. split; [congruence|exact Hno].
Qed.

Lemma findtransformations_commits_new_keys_only_witness :
  let configurations :=
    [commands.mkConfiguration 16383 false; commands.mkConfiguration 32766 false] in
  exists session unique_configurations,
    commands.findtransformations_loop configurations =
    Ok (session, unique_configurations) /\
    (new_keys [] session ->
     commands.findtransformations [] configurations =
     Ok ([] ++ session, unique_configurations)) /\
    (~ new_keys [] session ->
     commands.findtransformations [] configurations = Raise IntegrityError) /\
    (forall e, commands.findtransformations [] configurations = Raise e ->
               e = IntegrityError /\ ~ new_keys [] session).
Proof.
  intros configurations.
  apply (findtransformations_commits_new_keys_only [] configurations).
  repeat constructor; cbn; lia.
Defined.

(** An id that does not decode stops [findtransformations]: when the first
    configuration whose id is not a 15-bit value is reached, the [ValueError]
    of [from_configuration_id] ends the run, and nothing is returned. *)
Theorem findtransformations_stops_at_an_id_that_does_not_decode
        (good rest : list commands.Configuration) (bad : commands.Configuration) :
  Forall (fun c => 0 <= commands.id c < 2 ^ 15) good ->
  ~ 0 <= commands.id bad < 2 ^ 15 ->
  exists msg, forall table,
    commands.findtransformations table (good ++ bad :: rest) =
    Raise (ValueError msg).
Proof.
  intros Hgood Hbad.
  destruct (findtransformations_invariant good Hgood)
    as (session & uniques & Hrun & _).
  unfold commands.findtransformations, commands.findtransformations_loop in *.
  rewrite for_each_app, Hrun, bind_Ok. cbn [for_each].
  destruct (Z.lt_ge_cases (commands.id bad) 0) as [H0|H0].
  - rewrite from_configuration_id_negative by exact H0. eexists. reflexivity.
  - rewrite from_configuration_id_big by lia. eexists. reflexivity.
Qed.

Lemma findtransformations_stops_at_an_id_that_does_not_decode_witness :
  exists msg, forall table,
    commands.findtransformations table
      ([commands.mkConfiguration 16383 false] ++
       commands.mkConfiguration 32768 false :: [commands.mkConfiguration 5 true]) =
    Raise (ValueError msg).
Proof.
  apply (findtransformations_stops_at_an_id_that_does_not_decode
           [commands.mkConfiguration 16383 false] [commands.mkConfiguration 5 true]
           (commands.mkConfiguration 32768 false)).
  - repeat constructor; cbn; lia.
  - cbn. lia.
Defined.

(** ** The scan of the unique configurations *)

Lemma find_first {A} (p : A -> bool) (l : list A) (x : A) :
  List.find p l = Some x <->
  exists before after,
    l = before ++ x :: after /\ p x = true /\
    List.Forall (fun y => p y = false) before.
Proof.
  induction l as [|a l IH]; cbn [List.find].
  - split; [discriminate|]. intros (before & after & E & _).
    destruct before; discriminate E.
  - destruct (p a) eqn:Pa.
    + split.
      * intros E. injection E as <-. exists [], l.
        split; [reflexivity|]. split; [assumption|constructor].
      * intros (before & after & E & Px & Hb). destruct before as [|y before].
        -- cbn in E. congruence.
        -- cbn in E. injection E as <- _. inversion Hb; congruence.
    + rewrite IH. split.
      * intros (before & after & -> & Px & Hb). exists (a :: before), after.
        split; [reflexivity|]. split; [assumption|]. constructor; assumption.
      * intros (before & after & E & Px & Hb). destruct before as [|y before].
        -- cbn in E. congruence.
        -- cbn in E. injection E as <- ->. exists before, after.
           split; [reflexivity|]. split; [assumption|]. inversion Hb; assumption.
Qed.

Lemma find_nothing {A} (p : A -> bool) (l : list A) :
  List.find p l = None <-> List.Forall (fun y => p y = false) l.
Proof.
  induction l as [|a l IH]; cbn [List.find].
  - split; [constructor|reflexivity].
  - destruct (p a) eqn:Pa.
    + split; [discriminate|]. intros H. inversion H; congruence.
    + rewrite IH. split.
      * intros H. constructor; assumption.
      * intros H. inversion H; assumption.
Qed.

(** [check_transformation] returns the configuration of the first entry of
    the unique configurations, in list order, onto whose board the
    transformation carries the working board, and [None] exactly when it
    carries it onto none of them.  It never raises on boards that are well
    formed. *)
Theorem check_transformation_returns_the_first_carried_board
        board tx unique_configurations :
  wf board -> Forall pair_in_range tx ->
  Forall (fun entry => wf (snd entry)) unique_configurations ->
  (forall unique_conf,
     commands.check_transformation board tx unique_configurations =
     Ok (Some unique_conf) <->
     exists before unique_board after,
       unique_configurations = before ++ (unique_conf, unique_board) :: after /\
       carries tx board unique_board /\
       List.Forall (fun entry => ~ carries tx board (snd entry)) before) /\
  (commands.check_transformation board tx unique_configurations = Ok None <->
   List.Forall (fun entry => ~ carries tx board (snd entry)) unique_configurations) /\
  (forall e, commands.check_transformation board tx unique_configurations <> Raise e).
Proof.
  intros Wb Htx Hu.
  rewrite check_transformation_first_match by assumption.
  set (p := fun entry : commands.Configuration * Board =>
              bool_decide (substitute (pins board) tx (pins board) = pins (snd entry))).
  assert (Hu' : forall entry, In entry unique_configurations -> wf (snd entry)).
  { apply List.Forall_forall. apply Forall_forall. intros x Hx.
    exact (proj1 (Forall_forall _ _) Hu x Hx). }
  assert (P1 : forall entry, wf (snd entry) ->
                 (p entry = true <-> carries tx board (snd entry))).
  { intros entry We. unfold p. rewrite bool_decide_eq_true.
    symmetry. apply carries_iff; assumption. }
  assert (P0 : forall entry, wf (snd entry) ->
                 (p entry = false <-> ~ carries tx board (snd entry))).
  { intros entry We. rewrite <- (P1 entry We). destruct (p entry); split; congruence. }
  assert (F : forall l, (forall entry, In entry l -> wf (snd entry)) ->
                (List.Forall (fun y => p y = false) l <->
                 List.Forall (fun entry => ~ carries tx board (snd entry)) l)).
  { intros l Hl. rewrite !List.Forall_forall. split; intros H x Hx.
    - apply P0; [apply Hl; assumption|]. apply H; assumption.
    - apply P0; [apply Hl; assumption|]. apply H; assumption. }
  split; [|split].
  - intros unique_conf. split.
    + intros E. destruct (List.find p unique_configurations) as [[c b]|] eqn:Ef;
        [|discriminate E].
      cbn in E. assert (c = unique_conf) by congruence. subst c.
      apply find_first in Ef. destruct Ef as (before & after & El & Px & Hb).
      exists before, b, after. split; [assumption|].
      assert (Wy : forall entry, In entry before -> wf (snd entry)).
      { intros y Hy. apply Hu'. rewrite El. apply in_or_app. left. assumption. }
      split.
      * apply (P1 (unique_conf, b)); [|assumption].
        apply Hu'. rewrite El. apply in_or_app. right. left. reflexivity.
      * apply F; assumption.
    + intros (before & b & after & El & Hc & Hb).
      assert (Ef : List.find p unique_configurations = Some (unique_conf, b)).
      { apply find_first. exists before, after. split; [assumption|].
        assert (Wy : forall entry, In entry before -> wf (snd entry)).
        { intros y Hy. apply Hu'. rewrite El. apply in_or_app. left. assumption. }
        split.
        - apply (P1 (unique_conf, b)); [|assumption].
          apply Hu'. rewrite El. apply in_or_app. right. left. reflexivity.
        - apply F; assumption. }
      rewrite Ef. reflexivity.
  - rewrite <- (F unique_configurations Hu'), <- find_nothing.
    destruct (List.find p unique_configurations); cbn; split; congruence.
  - intros e. discriminate.
Qed.

Lemma check_transformation_returns_the_first_carried_board_witness :
  commands.check_transformation board14 Counter_clockwise_rotation
    [(commands.mkConfiguration 5 false, stuck_board);
     (commands.mkConfiguration 16383 false,
      mkBoard [false; true; true; true; true; true; true; true; true; true;
               true; true; true; true; true] None 14);
     (commands.mkConfiguration 7 false,
      mkBoard [false; true; true; true; true; true; true; true; true; true;
               true; true; true; true; true] (Some board14) 3)] =
  Ok (Some (commands.mkConfiguration 16383 false)).
Proof.
  assert (R : forall pairs,
             forallb (fun '(f, t) => (0 <=? f) && (f <=? 14) &&
                                     ((0 <=? t) && (t <=? 14))) pairs = true ->
             Forall pair_in_range pairs).
  { intros pairs Hp. apply List.Forall_forall. intros [f t] Hin.
    rewrite forallb_forall in Hp. specialize (Hp _ Hin). cbn in Hp.
    unfold pair_in_range, in_range. cbn [fst snd]. lia. }
  assert (W : wf (mkBoard [false; true; true; true; true; true; true; true; true; true;
               true; true; true; true; true] None 14)).
  { split; [reflexivity|unfold in_range; cbn; lia]. }
  assert (T : Forall pair_in_range Counter_clockwise_rotation) by (apply R; reflexivity).
  set (first_board := mkBoard _ None 14) in *.
  set (unique_configurations := [_; _; _]).
  assert (U : Forall (fun entry => wf (snd entry)) unique_configurations).
  { repeat constructor; unfold in_range; cbn; lia. }
  apply (proj1 (check_transformation_returns_the_first_carried_board
                  board14 Counter_clockwise_rotation unique_configurations
                  wf_board14 T U)).
  eexists [(commands.mkConfiguration 5 false, stuck_board)], first_board, _.
  split; [reflexivity|]. split.
  - apply carries_iff; [exact wf_board14|exact W|exact T|reflexivity].
  - constructor; [|constructor]. cbn [snd]. intros C.
    apply carries_iff in C;
      [discriminate C|exact wf_board14|
       split; [reflexivity|unfold in_range; cbn; lia]|exact T].
Defined.
